(** * particles.js: the canvas particle animation of the RustPress Enterprise theme

    A shallow embedding of [src/assets/js/particles.js] (classes
    [ParticleSystem] and [Particle]) and the properties of it that the
    specification states.

    Numbers.  A JavaScript Number is modelled as a real number ([R]): the
    arithmetic of the source is read exactly, without binary64 rounding and
    without NaN or infinities.  Every division the source performs is guarded
    by a comparison that makes the divisor positive (lemmas
    [mouse_divisor_positive] and [line_divisor_positive]), so the model never
    relies on the value of a division by zero.  [Math.sqrt], [Math.cos],
    [Math.sin] and [Math.atan2] are the mathematical functions.

    [particleCount] is an integer ([Z]).  The distance test and the alpha of
    [connectParticles] are also evaluated on binary64 floats (module
    [Binary64]), where rounding shows.

    Randomness.  [Math.random()] is an oracle [rand : nat -> R]; the [k]-th
    call of a run returns [rand k].  The number of calls made so far is part
    of the host state.

    The browser.  The page around a system is a record [Host]: the pending
    [requestAnimationFrame] callbacks, the calls made on the 2D context,
    [document.hidden].  What the browser does is a trace of [Event]s, each
    delivered to the listener that [bindEvents] registered for it.  [Resized]
    is the firing of the timer of the resize listener; the 200ms debounce that
    sets this timer is modelled apart (module [Debounce]).

    The constructor.  [ParticleSystem] is the system of a canvas that was
    found and has a 2D context.  What the constructor and the methods do when
    the canvas is missing, is not a canvas or has no 2D context is modelled
    apart (module [Handle]), with fields that may be [undefined] or [null]
    and the TypeError that reading a property of them raises.

    Strings.  The text the code assigns to [strokeStyle] is modelled apart
    (module [Color]), on strings of 8-bit characters; the text of the number
    [opacity * 0.8] is a parameter there. *)

From Stdlib Require Import Reals Lra Lia ZArith List Bool Ascii String Permutation.
From Stdlib Require Import FunInd Recdef.
From Stdlib Require Floats.
Import ListNotations.
Open Scope R_scope.

(** ** JavaScript values and operators used by the source *)

(** [a < b] on numbers, as a boolean. *)
Definition Rltb (a b : R) : bool := if Rlt_dec a b then true else false.

(** [v || d] on an optional number: [undefined], [0] are falsy. *)
Definition or_num (v : option R) (d : R) : R :=
  match v with
  | Some n => if Req_dec_T n 0 then d else n
  | None => d
  end.

(** [v || d] on an optional integer count. *)
Definition or_int (v : option Z) (d : Z) : Z :=
  match v with
  | Some n => if Z.eqb n 0 then d else n
  | None => d
  end.

(** [v || d] on an optional string: [undefined] and the empty string are falsy. *)
Definition or_str (v : option string) (d : string) : string :=
  match v with
  | Some s => if String.eqb s EmptyString then d else s
  | None => d
  end.

(** [v !== false] on an optional boolean. *)
Definition not_false (v : option bool) : bool :=
  match v with
  | Some false => false
  | _ => true
  end.

(** [{ k: d, ...options }]: an own key of [options] overrides the default. *)
Definition spread {A : Type} (v : option A) (d : A) : A :=
  match v with
  | Some a => a
  | None => d
  end.

(** [Math.atan2(y, x)]: the angle of the point [(x, y)], in (-PI, PI];
    [Math.atan2(0, 0)] is [0]. *)
Definition atan2 (y x : R) : R :=
  if Rltb 0 x then atan (y / x)
  else if Rltb x 0 then
    (if Rltb y 0 then atan (y / x) - PI else atan (y / x) + PI)
  else if Rltb 0 y then PI / 2
  else if Rltb y 0 then - (PI / 2)
  else 0.

(** ** [Math.random()] as a small state monad over the call counter *)

Definition Rand (A : Type) : Type := (nat -> R) -> nat -> A * nat.

Definition ret {A : Type} (a : A) : Rand A := fun _ k => (a, k).

Definition bind {A B : Type} (c : Rand A) (f : A -> Rand B) : Rand B :=
  fun rand k => let (a, k') := c rand k in f a rand k'.

Notation "x <- c ;; f" := (bind c (fun x => f))
  (at level 61, c at next level, right associativity).

Definition Math_random : Rand R := fun rand k => (rand k, S k).

(** ** Configuration *)

(** The [options] argument of the constructor: every key is absent ([None])
    or holds a value of its type. *)
Record RawOptions := {
  raw_particleCount : option Z;
  raw_particleColor : option string;
  raw_lineColor : option string;
  raw_particleRadius : option R;
  raw_lineDistance : option R;
  raw_speed : option R;
  raw_mouseInteraction : option bool;
  raw_mouseRadius : option R;
  raw_showParticles : option bool;
  raw_lineWidth : option R
}.

(** [this.options] after the constructor. *)
Record Options := {
  particleCount : Z;
  particleColor : string;
  lineColor : string;
  particleRadius : R;
  lineDistance : R;
  speed : R;
  mouseInteraction : bool;
  mouseRadius : R;
  showParticles : option bool;
  lineWidth : option R
}.

(** Lines 20-30: the defaults, then [...options] on top of them. *)
Definition resolveOptions (o : RawOptions) : Options := {|
  particleCount := spread (raw_particleCount o) (or_int (raw_particleCount o) 80);
  particleColor := spread (raw_particleColor o)
                     (or_str (raw_particleColor o) "rgba(206, 66, 43, 0.6)");
  lineColor := spread (raw_lineColor o)
                 (or_str (raw_lineColor o) "rgba(206, 66, 43, 0.15)");
  particleRadius := spread (raw_particleRadius o) (or_num (raw_particleRadius o) 2);
  lineDistance := spread (raw_lineDistance o) (or_num (raw_lineDistance o) 150);
  speed := spread (raw_speed o) (or_num (raw_speed o) 0.5);
  mouseInteraction := spread (raw_mouseInteraction o)
                        (not_false (raw_mouseInteraction o));
  mouseRadius := spread (raw_mouseRadius o) (or_num (raw_mouseRadius o) 200);
  showParticles := raw_showParticles o;
  lineWidth := raw_lineWidth o
|}.

(** Lines 234-241: the options of the hero system. *)
Definition heroOptions : RawOptions := {|
  raw_particleCount := Some 100%Z;
  raw_particleColor := None;
  raw_lineColor := Some "rgba(206, 66, 43, 0.25)"%string;
  raw_particleRadius := None;
  raw_lineDistance := Some 200;
  raw_speed := Some 0.3;
  raw_mouseInteraction := None;
  raw_mouseRadius := Some 250;
  raw_showParticles := Some false;
  raw_lineWidth := None
|}.

(** Lines 244-251: the options of the call-to-action system. *)
Definition ctaOptions : RawOptions := {|
  raw_particleCount := Some 50%Z;
  raw_particleColor := None;
  raw_lineColor := Some "rgba(255, 255, 255, 0.15)"%string;
  raw_particleRadius := None;
  raw_lineDistance := Some 150;
  raw_speed := Some 0.2;
  raw_mouseInteraction := Some false;
  raw_mouseRadius := None;
  raw_showParticles := Some false;
  raw_lineWidth := None
|}.

(** The canvas, as far as the source reads it: its pixel size. *)
Record Canvas := { width : R; height : R }.

(** [this.mouse]: [x] and [y] are [null] until the pointer moves over the
    canvas and again after it leaves. *)
Module Mouse.
Record t := mk { x : option R; y : option R; radius : R }.
(** A [null] coordinate used in arithmetic converts to [0]. *)
Definition num (v : option R) : R :=
  match v with
  | Some n => n
  | None => 0
  end.
End Mouse.

(** What the code draws: the calls it makes on the 2D context. *)
Inductive DrawCmd :=
| ClearRect (w h : R)
| FillArc (cx cy r : R) (color : string)
| StrokeLine (x1 y1 x2 y2 : R) (alpha : R) (lw : R).

(** ** class [Particle] *)

Module Particle.

Record t := mk {
  x : R;
  y : R;
  vx : R;
  vy : R;
  radius : R;
  originalRadius : R
}.

(** Lines 162-174: the constructor draws five random numbers. *)
Definition new (c : Canvas) (o : Options) : Rand t :=
  r1 <- Math_random ;;
  r2 <- Math_random ;;
  r3 <- Math_random ;;
  r4 <- Math_random ;;
  r5 <- Math_random ;;
  let rad := r5 * particleRadius o + 1 in
  ret (mk (r1 * width c) (r2 * height c)
          ((r3 - 0.5) * speed o) ((r4 - 0.5) * speed o)
          rad rad).

(** Lines 177-192, "Mouse interaction". *)
Definition mouseInteract (m : Mouse.t) (o : Options) (p : t) : t :=
  match Mouse.x m with
  | Some mx =>
    if mouseInteraction o then
      let dx := x p - mx in
      let dy := y p - Mouse.num (Mouse.y m) in
      let distance := sqrt (dx * dx + dy * dy) in
      if Rltb distance (Mouse.radius m) then
        let force := (Mouse.radius m - distance) / Mouse.radius m in
        let angle := atan2 dy dx in
        mk (x p) (y p)
           (vx p + cos angle * force * 0.5)
           (vy p + sin angle * force * 0.5)
           (originalRadius p * (1 + force))
           (originalRadius p)
      else
        mk (x p) (y p) (vx p) (vy p) (originalRadius p) (originalRadius p)
    else p
  | None => p
  end.

(** Lines 194-198, "Apply velocity with damping". *)
Definition applyVelocity (p : t) : t :=
  mk (x p + vx p) (y p + vy p) (vx p * 0.99) (vy p * 0.99)
     (radius p) (originalRadius p).

(** Lines 200-202, "Re-add some random velocity". *)
Definition addJitter (r1 r2 : R) (p : t) : t :=
  mk (x p) (y p) (vx p + (r1 - 0.5) * 0.1) (vy p + (r2 - 0.5) * 0.1)
     (radius p) (originalRadius p).

Definition jitter (p : t) : Rand t :=
  r1 <- Math_random ;;
  r2 <- Math_random ;;
  ret (addJitter r1 r2 p).

(** Lines 204-207, "Clamp velocity". *)
Definition clampVelocity (o : Options) (p : t) : t :=
  let maxSpeed := speed o * 2 in
  mk (x p) (y p)
     (Rmax (- maxSpeed) (Rmin maxSpeed (vx p)))
     (Rmax (- maxSpeed) (Rmin maxSpeed (vy p)))
     (radius p) (originalRadius p).

(** Lines 209-217, "Boundary collision". *)
Definition bounceX (c : Canvas) (p : t) : t :=
  if Rltb (x p) 0 || Rltb (width c) (x p) then
    mk (Rmax 0 (Rmin (width c) (x p))) (y p) (vx p * -1) (vy p)
       (radius p) (originalRadius p)
  else p.

Definition bounceY (c : Canvas) (p : t) : t :=
  if Rltb (y p) 0 || Rltb (height c) (y p) then
    mk (x p) (Rmax 0 (Rmin (height c) (y p))) (vx p) (vy p * -1)
       (radius p) (originalRadius p)
  else p.

Definition boundary (c : Canvas) (p : t) : t := bounceY c (bounceX c p).

(** Lines 176-218: [update()]. *)
Definition update (m : Mouse.t) (o : Options) (c : Canvas) (p : t) : Rand t :=
  p' <- jitter (applyVelocity (mouseInteract m o p)) ;;
  ret (boundary c (clampVelocity o p')).

(** [update()] once its two random numbers are known to be [r1] and [r2]. *)
Definition updateWith (r1 r2 : R) (m : Mouse.t) (o : Options) (c : Canvas) (p : t) : t :=
  boundary c (clampVelocity o (addJitter r1 r2 (applyVelocity (mouseInteract m o p)))).

(** Lines 220-228: [draw()]. *)
Definition draw (o : Options) (p : t) : list DrawCmd :=
  if not_false (showParticles o)
  then [FillArc (x p) (y p) (radius p) (particleColor o)]
  else [].

End Particle.

(** ** class [ParticleSystem] *)

Module ParticleSystem.

(** One connecting line of [connectParticles]: the indices of the pair, the
    end points, the alpha that replaces the trailing number of [lineColor]
    ([opacity * 0.8]) and the line width.  The string replacement itself is
    modelled apart, in [Color]. *)
Record Edge := mkEdge {
  e_i : nat;
  e_j : nat;
  e_from : R * R;
  e_to : R * R;
  e_alpha : R;
  e_lineWidth : R
}.

(** Lines 149-154: the drawing calls for one edge. *)
Definition stroke (e : Edge) : DrawCmd :=
  StrokeLine (fst (e_from e)) (snd (e_from e)) (fst (e_to e)) (snd (e_to e))
             (e_alpha e) (e_lineWidth e).

(** The fields of a [ParticleSystem] whose canvas was found. *)
Record t := mk {
  canvas : Canvas;
  particles : list Particle.t;
  animationId : option nat;
  isRunning : bool;
  options : Options;
  mouse : Mouse.t
}.

(** The browser around it. *)
Record Host := mkHost {
  draws : nat;             (* calls of Math.random() so far *)
  frames : list nat;       (* handles of the pending requestAnimationFrame callbacks *)
  lastHandle : nat;        (* the last handle requestAnimationFrame returned *)
  output : list DrawCmd;   (* calls made on the 2D context, oldest first *)
  hidden : bool;           (* document.hidden *)
  inView : bool;           (* isIntersecting of the last entry delivered; never read by the code *)
  mouseBound : bool        (* the mousemove and mouseleave listeners are registered *)
}.

(** A system in its page. *)
Record World := mkWorld { sys : t; host : Host }.

(** Assignments to one field. *)

Definition set_canvas (c : Canvas) (s : t) : t :=
  mk c (particles s) (animationId s) (isRunning s) (options s) (mouse s).
Definition set_particles (ps : list Particle.t) (s : t) : t :=
  mk (canvas s) ps (animationId s) (isRunning s) (options s) (mouse s).
Definition set_animationId (a : option nat) (s : t) : t :=
  mk (canvas s) (particles s) a (isRunning s) (options s) (mouse s).
Definition set_isRunning (b : bool) (s : t) : t :=
  mk (canvas s) (particles s) (animationId s) b (options s) (mouse s).
Definition set_mouse (m : Mouse.t) (s : t) : t :=
  mk (canvas s) (particles s) (animationId s) (isRunning s) (options s) m.

Definition set_draws (k : nat) (h : Host) : Host :=
  mkHost k (frames h) (lastHandle h) (output h) (hidden h) (inView h) (mouseBound h).
Definition set_frames (fs : list nat) (h : Host) : Host :=
  mkHost (draws h) fs (lastHandle h) (output h) (hidden h) (inView h) (mouseBound h).
Definition set_output (out : list DrawCmd) (h : Host) : Host :=
  mkHost (draws h) (frames h) (lastHandle h) out (hidden h) (inView h) (mouseBound h).
Definition set_hidden (b : bool) (h : Host) : Host :=
  mkHost (draws h) (frames h) (lastHandle h) (output h) b (inView h) (mouseBound h).
Definition set_inView (b : bool) (h : Host) : Host :=
  mkHost (draws h) (frames h) (lastHandle h) (output h) (hidden h) b (mouseBound h).
Definition set_mouseBound (b : bool) (h : Host) : Host :=
  mkHost (draws h) (frames h) (lastHandle h) (output h) (hidden h) (inView h) b.

(** [requestAnimationFrame(cb)]: a fresh non-zero handle, the callback pending. *)
Definition requestAnimationFrame (h : Host) : nat * Host :=
  let id := S (lastHandle h) in
  (id, mkHost (draws h) (frames h ++ [id]) id (output h) (hidden h) (inView h)
              (mouseBound h)).

(** [cancelAnimationFrame(id)]. *)
Definition cancelAnimationFrame (id : nat) (h : Host) : Host :=
  set_frames (filter (fun f => negb (Nat.eqb f id)) (frames h)) h.

(** Euclidean distance of two particles, as lines 143-145 compute it. *)
Definition distance (p q : Particle.t) : R :=
  let dx := Particle.x p - Particle.x q in
  let dy := Particle.y p - Particle.y q in
  sqrt (dx * dx + dy * dy).

(** Lines 147-155: the body of the inner loop for the pair [(i, j)]. *)
Definition connectPair (o : Options) (ps : list Particle.t) (i j : nat) : list Edge :=
  match nth_error ps i, nth_error ps j with
  | Some pi, Some pj =>
    if Rltb (distance pi pj) (lineDistance o) then
      let opacity := 1 - distance pi pj / lineDistance o in
      [mkEdge i j (Particle.x pi, Particle.y pi) (Particle.x pj, Particle.y pj)
              (opacity * 0.8) (or_num (lineWidth o) 1.5)]
    else []
  | _, _ => []   (* not reached: both indices are below [length ps] *)
  end.

(** Lines 140-158: [connectParticles()], [i] from [0], [j] from [i + 1]. *)
Definition connectParticles (o : Options) (ps : list Particle.t) : list Edge :=
  flat_map
    (fun i => flat_map (connectPair o ps i)
                       (seq (i + 1) (List.length ps - (i + 1))))
    (seq 0 (List.length ps)).

(** Lines 129-132: [forEach(particle => { update(); draw(); })]. *)
Fixpoint forEachParticle (m : Mouse.t) (o : Options) (c : Canvas)
         (ps : list Particle.t) : Rand (list Particle.t * list DrawCmd) :=
  match ps with
  | [] => ret ([], [])
  | p :: rest =>
    p' <- Particle.update m o c p ;;
    r <- forEachParticle m o c rest ;;
    ret (p' :: fst r, Particle.draw o p' ++ snd r)
  end.

Section Run.

(** The values [Math.random()] returns, in call order. *)
Variable rand : nat -> R.

(** Lines 48-52: [resize()].  [w] and [h] are what [canvas.width] and
    [canvas.height] read after the assignment of the parent's measured size. *)
Definition resize (w h : R) (wd : World) : World :=
  mkWorld (set_canvas {| width := w; height := h |} (sys wd)) (host wd).

(** Lines 56-58: the loop of [createParticles()], from counter [i]. *)
Function createLoop (c : Canvas) (o : Options) (acc : list Particle.t) (k : nat)
         (i : Z) {measure (fun i => Z.to_nat (particleCount o - i)) i}
  : list Particle.t * nat :=
  if (i <? particleCount o)%Z then
    createLoop c o (acc ++ [fst (Particle.new c o rand k)])
               (snd (Particle.new c o rand k)) (i + 1)%Z
  else (acc, k).
Proof.
  intros c o _ _ i Hlt. apply Z.ltb_lt in Hlt. lia.
Defined.

(** Lines 54-59: [createParticles()]. *)
Definition createParticles (wd : World) : World :=
  let r := createLoop (canvas (sys wd)) (options (sys wd)) [] (draws (host wd)) 0%Z in
  mkWorld (set_particles (fst r) (sys wd)) (set_draws (snd r) (host wd)).

(** Lines 123-138: [animate()]. *)
Definition animate (wd : World) : World :=
  if negb (isRunning (sys wd)) then wd
  else
    let s := sys wd in
    let h := host wd in
    let cleared := [ClearRect (width (canvas s)) (height (canvas s))] in
    let r := forEachParticle (mouse s) (options s) (canvas s) (particles s)
                             rand (draws h) in
    let ps := fst (fst r) in
    let lines := map stroke (connectParticles (options s) ps) in
    let h1 := set_output (output h ++ cleared ++ snd (fst r) ++ lines)
                         (set_draws (snd r) h) in
    let (id, h2) := requestAnimationFrame h1 in
    mkWorld (set_animationId (Some id) (set_particles ps s)) h2.

(** Lines 109-113: [start()]. *)
Definition start (wd : World) : World :=
  if isRunning (sys wd) then wd
  else animate (mkWorld (set_isRunning true (sys wd)) (host wd)).

(** Lines 115-121: [stop()].  A handle is truthy when it is not [0]. *)
Definition stop (wd : World) : World :=
  let s := set_isRunning false (sys wd) in
  match animationId s with
  | Some id =>
    if Nat.eqb id 0 then mkWorld s (host wd)
    else mkWorld (set_animationId None s) (cancelAnimationFrame id (host wd))
  | None => mkWorld s (host wd)
  end.

(** Lines 61-107: [bindEvents()].  The resize, visibilitychange and
    intersection listeners are always registered; the two mouse listeners
    only when [mouseInteraction] is set. *)
Definition bindEvents (wd : World) : World :=
  mkWorld (sys wd) (set_mouseBound (mouseInteraction (options (sys wd))) (host wd)).

(** Lines 41-46: [init()]. *)
Definition init (rw rh : R) (wd : World) : World :=
  start (bindEvents (createParticles (resize rw rh wd))).

(** Lines 10-39: the constructor when [getElementById] finds the canvas [el];
    [(rw, rh)] is the canvas size [resize()] establishes. *)
Definition construct (el : Canvas) (rw rh : R) (raw : RawOptions) (h : Host) : World :=
  let o := resolveOptions raw in
  init rw rh
       (mkWorld (mk el [] None false o (Mouse.mk None None (mouseRadius o))) h).

(** What the browser delivers to the listeners of [bindEvents]. *)
Inductive Event :=
| Resized (rw rh : R)            (* the 200ms timer of the resize listener fires *)
| MouseMove (mx my : R)          (* canvas-local: clientX - rect.left, clientY - rect.top *)
| MouseLeave
| VisibilityChange (h : bool)    (* document.hidden has become [h] *)
| Intersection (entries : list bool)
    (* the observer, of threshold 0.1, reports entries: isIntersecting of each *)
| AnimationFrame.                (* the browser runs the pending frame callbacks *)

(** Lines 97-103: the observer's callback, for one entry. *)
Definition onIntersection (wd : World) (isIntersecting : bool) : World :=
  let wd := mkWorld (sys wd) (set_inView isIntersecting (host wd)) in
  if isIntersecting then start wd else stop wd.

(** The listener of [bindEvents] that [e] reaches, if it is registered. *)
Definition dispatch (wd : World) (e : Event) : World :=
  match e with
  | Resized rw rh => createParticles (resize rw rh wd)
  | MouseMove mx my =>
    if mouseBound (host wd)
    then mkWorld (set_mouse (Mouse.mk (Some mx) (Some my) (Mouse.radius (mouse (sys wd))))
                            (sys wd)) (host wd)
    else wd
  | MouseLeave =>
    if mouseBound (host wd)
    then mkWorld (set_mouse (Mouse.mk None None (Mouse.radius (mouse (sys wd))))
                            (sys wd)) (host wd)
    else wd
  | VisibilityChange h =>
    let wd := mkWorld (sys wd) (set_hidden h (host wd)) in
    if h then stop wd else start wd
  | Intersection entries => fold_left onIntersection entries wd
  | AnimationFrame =>
    fold_left (fun w _ => animate w) (frames (host wd))
              (mkWorld (sys wd) (set_frames [] (host wd)))
  end.

(** The events of a trace, one after the other. *)
Definition run (wd : World) (trace : list Event) : World :=
  fold_left dispatch trace wd.

End Run.

End ParticleSystem.

(** ** The constructor on whatever [getElementById] finds

    [ParticleSystem] above is the system of a canvas that was found and has a
    2D context.  Here every field of [this] may still be [undefined] or be
    [null], and reading a property of [undefined] or [null] raises a
    TypeError, as it does in JavaScript; what was done before the error
    stays done. *)

Module Handle.

Import ParticleSystem.

(** What an element found under [canvasId] can be. *)
Inductive Kind :=
| NotACanvas        (* an element without a [getContext] method *)
| CanvasWithout2d   (* a canvas whose [getContext('2d')] is [null] *)
| CanvasWith2d.     (* a canvas with a 2D context *)

(** The element and the size it has as a canvas. *)
Record Element := mkElement { kind : Kind; size : Canvas }.

(** The value of a property: [undefined], [null], or a value. *)
Inductive Ref (A : Type) : Type :=
| Undefined
| Null
| Val (a : A).

Arguments Undefined {A}.
Arguments Null {A}.
Arguments Val {A} a.

(** The fields of [this]; a field not yet assigned reads [undefined]. *)
Record Obj := mkObj {
  canvas : Ref Element;
  ctx : Ref unit;
  particles : Ref (list Particle.t);
  animationId : Ref nat;
  isRunning : Ref bool;
  options : Ref Options;
  mouse : Ref Mouse.t
}.

(** The object, the page, and whether a listener of [bindEvents] is
    registered. *)
Record State := mkState { this : Obj; host : Host; listening : bool }.

(** Assignments to one field of [this]. *)

Definition set_canvas (v : Ref Element) (o : Obj) : Obj :=
  mkObj v (ctx o) (particles o) (animationId o) (isRunning o) (options o) (mouse o).
Definition set_ctx (v : Ref unit) (o : Obj) : Obj :=
  mkObj (canvas o) v (particles o) (animationId o) (isRunning o) (options o) (mouse o).
Definition set_particles (v : Ref (list Particle.t)) (o : Obj) : Obj :=
  mkObj (canvas o) (ctx o) v (animationId o) (isRunning o) (options o) (mouse o).
Definition set_animationId (v : Ref nat) (o : Obj) : Obj :=
  mkObj (canvas o) (ctx o) (particles o) v (isRunning o) (options o) (mouse o).
Definition set_isRunning (v : Ref bool) (o : Obj) : Obj :=
  mkObj (canvas o) (ctx o) (particles o) (animationId o) v (options o) (mouse o).
Definition set_options (v : Ref Options) (o : Obj) : Obj :=
  mkObj (canvas o) (ctx o) (particles o) (animationId o) (isRunning o) v (mouse o).
Definition set_mouse (v : Ref Mouse.t) (o : Obj) : Obj :=
  mkObj (canvas o) (ctx o) (particles o) (animationId o) (isRunning o) (options o) v.

(** How a call ends: it returns, or a TypeError propagates to the caller.
    Either way the state is as the call left it. *)
Inductive Outcome (A : Type) : Type :=
| Returns (a : A) (st : State)
| ThrowsTypeError (st : State).

Arguments Returns {A} a st.
Arguments ThrowsTypeError {A} st.

(** Code that runs on a state and may raise. *)
Definition M (A : Type) : Type := State -> Outcome A.

Definition pure {A : Type} (a : A) : M A := fun st => Returns a st.

Definition throw {A : Type} : M A := fun st => ThrowsTypeError st.

Definition andThen {A B : Type} (c : M A) (f : A -> M B) : M B :=
  fun st =>
    match c st with
    | Returns a st' => f a st'
    | ThrowsTypeError st' => ThrowsTypeError st'
    end.

Notation "x <~ c ;; f" := (andThen c (fun x => f))
  (at level 61, c at next level, right associativity).

Notation "c ;;; f" := (andThen c (fun _ => f))
  (at level 61, right associativity).

(** [r.p]: [undefined] and [null] have no properties. *)
Definition member {A : Type} (r : Ref A) : M A :=
  match r with
  | Val a => pure a
  | _ => throw
  end.

(** Whether [this.isRunning] is truthy. *)
Definition truthy (r : Ref bool) : bool :=
  match r with
  | Val true => true
  | _ => false
  end.

Definition getThis : M Obj := fun st => Returns (this st) st.

Definition getHost : M Host := fun st => Returns (host st) st.

Definition assign (f : Obj -> Obj) : M unit :=
  fun st => Returns tt (mkState (f (this st)) (host st) (listening st)).

Definition onHost (f : Host -> Host) : M unit :=
  fun st => Returns tt (mkState (this st) (f (host st)) (listening st)).

Definition addListener : M unit :=
  fun st => Returns tt (mkState (this st) (host st) true).

(** Line 14: [this.canvas.getContext('2d')].  An element that is not a
    canvas has no [getContext]: calling it raises. *)
Definition getContext (el : Element) : M (Ref unit) :=
  match kind el with
  | NotACanvas => throw
  | CanvasWithout2d => pure Null
  | CanvasWith2d => pure (Val tt)
  end.

Section Methods.

Variable rand : nat -> R.

(** Lines 48-52: [resize()]; [this.canvas.parentElement] is read first. *)
Definition resize (rw rh : R) : M unit :=
  o <~ getThis ;;
  el <~ member (canvas o) ;;
  assign (set_canvas (Val (mkElement (kind el) {| width := rw; height := rh |}))).

(** Lines 54-59: [createParticles()].  [this.options.particleCount] is read
    by the loop condition, [this.canvas.width] by the first [new Particle]. *)
Definition createParticles : M unit :=
  assign (set_particles (Val [])) ;;;
  o <~ getThis ;;
  opts <~ member (options o) ;;
  if (0 <? particleCount opts)%Z then
    el <~ member (canvas o) ;;
    h <~ getHost ;;
    assign (set_particles (Val (fst (createLoop rand (size el) opts [] (draws h) 0%Z)))) ;;;
    onHost (set_draws (snd (createLoop rand (size el) opts [] (draws h) 0%Z)))
  else pure tt.

(** Lines 61-107: [bindEvents()].  The resize listener is registered first;
    line 73 reads [this.options], line 74 and line 106 use [this.canvas]. *)
Definition bindEvents : M unit :=
  addListener ;;;
  o <~ getThis ;;
  opts <~ member (options o) ;;
  (if mouseInteraction opts then member (canvas o) ;;; pure tt else pure tt) ;;;
  onHost (set_mouseBound (mouseInteraction opts)) ;;;
  member (canvas o) ;;;
  pure tt.

(** Lines 123-138: [animate()].  [this.ctx.clearRect] is read before
    anything is drawn; the body of the [forEach] reads [this.system.mouse]
    and [this.options]. *)
Definition animate : M unit :=
  o <~ getThis ;;
  if negb (truthy (isRunning o)) then pure tt
  else
    member (ctx o) ;;;
    el <~ member (canvas o) ;;
    onHost (fun h => set_output
                       (output h ++ [ClearRect (width (size el)) (height (size el))]) h) ;;;
    ps <~ member (particles o) ;;
    match ps with
    | [] => pure tt
    | _ :: _ =>
      m <~ member (mouse o) ;;
      opts <~ member (options o) ;;
      h <~ getHost ;;
      assign (set_particles
                (Val (fst (fst (forEachParticle m opts (size el) ps rand (draws h)))))) ;;;
      onHost (fun _ =>
                set_output
                  (output h
                   ++ snd (fst (forEachParticle m opts (size el) ps rand (draws h)))
                   ++ map stroke
                        (connectParticles opts
                           (fst (fst (forEachParticle m opts (size el) ps rand
                                                      (draws h))))))
                  (set_draws (snd (forEachParticle m opts (size el) ps rand (draws h)))
                             h))
    end ;;;
    h <~ getHost ;;
    onHost (fun _ => snd (requestAnimationFrame h)) ;;;
    assign (set_animationId (Val (fst (requestAnimationFrame h)))).

(** Lines 109-113: [start()]. *)
Definition start : M unit :=
  o <~ getThis ;;
  if truthy (isRunning o) then pure tt
  else assign (set_isRunning (Val true)) ;;; animate.

(** Lines 115-121: [stop()]; [undefined], [null] and [0] are falsy. *)
Definition stop : M unit :=
  assign (set_isRunning (Val false)) ;;;
  o <~ getThis ;;
  match animationId o with
  | Val id =>
    if Nat.eqb id 0 then pure tt
    else onHost (cancelAnimationFrame id) ;;; assign (set_animationId Null)
  | _ => pure tt
  end.

(** Lines 41-46: [init()]. *)
Definition init (rw rh : R) : M unit :=
  resize rw rh ;;; createParticles ;;; bindEvents ;;; start.

(** Lines 10-39: the constructor; [found] is what [getElementById] returns
    and [(rw, rh)] the size [resize()] measures. *)
Definition construct (found : option Element) (rw rh : R) (raw : RawOptions) : M unit :=
  match found with
  | None => assign (set_canvas Null)
  | Some el =>
    assign (set_canvas (Val el)) ;;;
    c <~ getContext el ;;
    assign (set_ctx c) ;;;
    assign (set_particles (Val [])) ;;;
    assign (set_animationId Null) ;;;
    assign (set_isRunning (Val false)) ;;;
    assign (set_options (Val (resolveOptions raw))) ;;;
    assign (set_mouse (Val (Mouse.mk None None (mouseRadius (resolveOptions raw))))) ;;;
    init rw rh
  end.

(** The operations a caller can invoke on a handle. *)
Inductive Call :=
| Start
| Stop
| Resize (rw rh : R).

Definition call (c : Call) : M unit :=
  match c with
  | Start => start
  | Stop => stop
  | Resize rw rh => resize rw rh
  end.

End Methods.

(** [this] when the constructor starts. *)
Definition blank : Obj :=
  mkObj Undefined Undefined Undefined Undefined Undefined Undefined Undefined.

(** The state a call leaves, whether it returned or raised. *)
Definition after {A : Type} (r : Outcome A) : State :=
  match r with
  | Returns _ st => st
  | ThrowsTypeError st => st
  end.

(** The call raised a TypeError. *)
Definition threw {A : Type} (r : Outcome A) : bool :=
  match r with
  | Returns _ _ => false
  | ThrowsTypeError _ => true
  end.

(** Calls one after the other, each in the state the one before left. *)
Definition calls (rand : nat -> R) (cs : list Call) (st : State) : State :=
  fold_left (fun s c => after (call rand c s)) cs st.

(** A system of [ParticleSystem] as an object: every field assigned, the
    canvas one with a 2D context. *)
Definition ofWorld (l : bool) (wd : World) : State :=
  mkState
    (mkObj (Val (mkElement CanvasWith2d (ParticleSystem.canvas (sys wd))))
           (Val tt)
           (Val (ParticleSystem.particles (sys wd)))
           (match ParticleSystem.animationId (sys wd) with
            | Some id => Val id
            | None => Null
            end)
           (Val (ParticleSystem.isRunning (sys wd)))
           (Val (ParticleSystem.options (sys wd)))
           (Val (ParticleSystem.mouse (sys wd))))
    (ParticleSystem.host wd) l.

End Handle.

(** What [new ParticleSystem(canvasId, options)] does on the page [h]. *)
Definition new (rand : nat -> R) (found : option Handle.Element) (rw rh : R)
           (raw : RawOptions) (h : ParticleSystem.Host) : Handle.Outcome unit :=
  Handle.construct rand found rw rh raw (Handle.mkState Handle.blank h false).

(** ** Line 150: [lineColor.replace(/[\d.]+\)$/, opacity * 0.8 + ')')]

    [Edge] keeps the alpha of a line as a number; this is the text the code
    assigns to [strokeStyle].  Strings are taken as lists of characters. *)

Module Color.

(** The elements of the pattern. *)
Inductive Atom :=
| OneOrMore (cls : ascii -> bool)   (* a character class with [+], greedy *)
| Lit (c : ascii)                   (* one character *)
| EndOfInput.                       (* [$] *)

(** [\d] *)
Definition isDigit (c : ascii) : bool :=
  (Nat.leb 48 (nat_of_ascii c) && Nat.leb (nat_of_ascii c) 57)%bool.

(** [[\d.]] *)
Definition digitOrDot (c : ascii) : bool := (isDigit c || Ascii.eqb c ".")%bool.

(** [/[\d.]+\)$/] *)
Definition alphaPattern : list Atom := [OneOrMore digitOrDot; Lit ")"; EndOfInput].

(** [cls+] followed by [next]: as many characters as possible, giving them
    back one by one until [next] matches. *)
Fixpoint oneOrMore (cls : ascii -> bool) (next : list ascii -> option (list ascii))
         (s : list ascii) : option (list ascii) :=
  match s with
  | x :: s' =>
    if cls x then
      match oneOrMore cls next s' with
      | Some rest => Some rest
      | None => next s'
      end
    else None
  | [] => None
  end.

(** The pattern matched at the start of [s]: what follows the match. *)
Fixpoint matchHere (pat : list Atom) (s : list ascii) : option (list ascii) :=
  match pat with
  | [] => Some s
  | OneOrMore cls :: pat' => oneOrMore cls (matchHere pat') s
  | Lit c :: pat' =>
    match s with
    | x :: s' => if Ascii.eqb x c then matchHere pat' s' else None
    | [] => None
    end
  | EndOfInput :: pat' =>
    match s with
    | [] => matchHere pat' []
    | _ :: _ => None
    end
  end.

(** [String.prototype.replace] with a pattern without the [g] flag: the
    leftmost match is replaced by [repl] (a text without [$]); without a
    match the string is returned as it is. *)
Fixpoint replaceFirst (pat : list Atom) (repl s : list ascii) : list ascii :=
  match matchHere pat s with
  | Some rest => repl ++ rest
  | None =>
    match s with
    | [] => []
    | x :: s' => x :: replaceFirst pat repl s'
    end
  end.

(** The [strokeStyle] of an edge drawn in [color]; [alphaText] is the text
    of the number [opacity * 0.8]. *)
Definition strokeStyle (color alphaText : string) : string :=
  string_of_list_ascii
    (replaceFirst alphaPattern (list_ascii_of_string (alphaText ++ ")"))
                  (list_ascii_of_string color)).

End Color.

(** ** Lines 62-70: the debounced resize listener *)

Module Debounce.

Import ParticleSystem.

(** The timers this listener has pending on the page, and the variable
    [resizeTimeout] of line 63 that the listener's closure keeps. *)
Record t := mk {
  now : nat;                   (* the time, in milliseconds *)
  timers : list (nat * nat);   (* pending [setTimeout] callbacks: handle and due time *)
  lastTimer : nat;             (* the last handle [setTimeout] returned *)
  resizeTimeout : option nat   (* [undefined] until the first resize event *)
}.

(** [clearTimeout(id)]: cancels the timer of that handle, if it is pending;
    [clearTimeout(undefined)] does nothing. *)
Definition clearTimeout (id : option nat) (s : t) : t :=
  match id with
  | Some i =>
    mk (now s) (filter (fun tm => negb (Nat.eqb (fst tm) i)) (timers s))
       (lastTimer s) (resizeTimeout s)
  | None => s
  end.

(** [setTimeout(cb, delay)]: a fresh handle; the callback is due [delay]
    milliseconds from now. *)
Definition setTimeout (delay : nat) (s : t) : nat * t :=
  let id := S (lastTimer s) in
  (id, mk (now s) (timers s ++ [(id, (now s + delay)%nat)]) id (resizeTimeout s)).

(** Lines 64-70: the listener of the window's resize event. *)
Definition onResize (s : t) : t :=
  let (id, s') := setTimeout 200 (clearTimeout (resizeTimeout s) s) in
  mk (now s') (timers s') (lastTimer s') (Some id).

(** What happens on the page: the window fires a resize event, or [dt]
    milliseconds pass, at the end of which the browser runs the timers that
    are due. *)
Inductive Input :=
| ResizeEvent
| Elapse (dt : nat).

Definition due (time : nat) (tm : nat * nat) : bool := Nat.leb (snd tm) time.

Section Run.

(** The size the canvas's parent element measures at each time. *)
Variable rect : nat -> R * R.

(** Lines 66-69: the callback of a timer run at [time] is [resize()] and
    [createParticles()], the event [Resized] of [ParticleSystem.dispatch]. *)
Definition callback (time : nat) : Event :=
  Resized (fst (rect time)) (snd (rect time)).

Definition step (s : t) (i : Input) : list Event * t :=
  match i with
  | ResizeEvent => ([], onResize s)
  | Elapse dt =>
    let time := (now s + dt)%nat in
    (map (fun _ => callback time) (filter (due time) (timers s)),
     mk time (filter (fun tm => negb (due time tm)) (timers s))
        (lastTimer s) (resizeTimeout s))
  end.

(** The inputs one after the other: the [Resized] events delivered to the
    system, oldest first, and the timers at the end. *)
Fixpoint run (s : t) (inputs : list Input) : list Event * t :=
  match inputs with
  | [] => ([], s)
  | i :: rest =>
    let (es, s') := step s i in
    let (es', s'') := run s' rest in
    (es ++ es', s'')
  end.

End Run.

(** The page when [bindEvents] has run, at [time]. *)
Definition initial (time : nat) : t := mk time [] 0 None.

(** Resize events that follow each other at the given gaps. *)
Definition burst (gaps : list nat) : list Input :=
  ResizeEvent :: flat_map (fun g => [Elapse g; ResizeEvent]) gaps.

Definition isResize (i : Input) : bool :=
  match i with
  | ResizeEvent => true
  | Elapse _ => false
  end.

End Debounce.

(** ** The alpha of an edge on binary64 floats *)

Module Binary64.

Import Floats.
#[local] Set Warnings "-inexact-float".

(** Lines 148 and 150: [(1 - distance / lineDistance) * 0.8] on doubles. *)
Definition alpha (d l : float) : float := ((1 - d / l) * 0.8)%float.

(** [lo <= v < hi] on doubles. *)
Definition within (lo v hi : float) : bool :=
  (PrimFloat.leb lo v && PrimFloat.ltb v hi)%bool.

(** Lines 143-145: the distance of [(x1, y1)] and [(x2, y2)] on doubles. *)
Definition distance (x1 y1 x2 y2 : float) : float :=
  let dx := (x1 - x2)%float in
  let dy := (y1 - y2)%float in
  PrimFloat.sqrt (dx * dx + dy * dy)%float.

(** Line 147: [distance < this.options.lineDistance] on doubles. *)
Definition connected (x1 y1 x2 y2 l : float) : bool :=
  PrimFloat.ltb (distance x1 y1 x2 y2) l.

(** The real number a finite double stands for. *)
Definition exact (f : float) : R :=
  match Prim2SF f with
  | S754_finite s m e =>
    ((if s then -1 else 1) * IZR (Zpos m)
     * (if (0 <=? e)%Z then IZR (2 ^ e) else / IZR (2 ^ (- e))))%R
  | _ => 0%R
  end.

(** The double just below 4 and the double just above 10. *)
Definition below4 : float := next_down 4%float.
Definition above10 : float := next_up 10%float.

End Binary64.

(** * Vocabulary of the properties *)

Import ParticleSystem.

(** The bounds of C6: the particle is inside the canvas and both velocity
    components are within [2 * speed]. *)
Definition in_bounds (o : Options) (c : Canvas) (p : Particle.t) : Prop :=
  0 <= Particle.x p <= width c /\ 0 <= Particle.y p <= height c /\
  Rabs (Particle.vx p) <= 2 * speed o /\ Rabs (Particle.vy p) <= 2 * speed o.

(** [p'] is [p] after one [update()], for some two random numbers. *)
Definition updated_from (m : Mouse.t) (o : Options) (c : Canvas)
           (p p' : Particle.t) : Prop :=
  exists r1 r2 : R, p' = Particle.updateWith r1 r2 m o c p.

(** The page before the constructor runs, as far as this system is
    concerned: nothing drawn, no frame pending, no listener registered. *)
Definition page (k n : nat) (hid view : bool) : Host :=
  mkHost k [] n [] hid view false.

(** A running system has exactly one frame pending, the one [animationId]
    names; a stopped one has none. *)
Definition scheduled (wd : World) : Prop :=
  if isRunning (sys wd)
  then exists id, id <> 0%nat /\ animationId (sys wd) = Some id /\ frames (host wd) = [id]
  else animationId (sys wd) = None /\ frames (host wd) = [].

(** The events whose handler ends in [start()]. *)
Definition starts (e : Event) : bool :=
  match e with
  | VisibilityChange h => negb h
  | Intersection entries => last entries false
  | _ => false
  end.

(** The events whose handler ends in [stop()]. *)
Definition stops (e : Event) : bool :=
  match e with
  | VisibilityChange h => h
  | Intersection entries => negb (last entries true)
  | _ => false
  end.

(** The events that call [start()] nowhere. *)
Definition quiet (e : Event) : bool :=
  match e with
  | VisibilityChange h => h
  | Intersection entries => forallb negb entries
  | _ => true
  end.

(** The worlds a page can be in: a constructed system, then any events. *)
Definition reachable (rand : nat -> R) (wd : World) : Prop :=
  exists el rw rh raw k n hid view trace,
    wd = run rand (construct rand el rw rh raw (page k n hid view)) trace.

(** The events of the two mouse listeners. *)
Definition pointer_event (e : Event) : bool :=
  match e with
  | MouseMove _ _ | MouseLeave => true
  | _ => false
  end.

(** A trace without its pointer events. *)
Definition erase_pointer (trace : list Event) : list Event :=
  filter (fun e => negb (pointer_event e)) trace.

(** A world without its pointer state. *)
Definition forget_mouse (wd : World) : World :=
  mkWorld (set_mouse (Mouse.mk None None 0) (sys wd)) (host wd).

(** The edge [connectPair] draws between [pi] (index [i]) and [pj] (index [j]). *)
Definition edge_of (o : Options) (i j : nat) (pi pj : Particle.t) : Edge :=
  mkEdge i j (Particle.x pi, Particle.y pi) (Particle.x pj, Particle.y pj)
         ((1 - distance pi pj / lineDistance o) * 0.8) (or_num (lineWidth o) 1.5).

(** The lifecycle as the specification words it: a stopped system becomes
    Running exactly when the surface is in view and the page not hidden. *)
Definition lifecycle_as_specified (rand : nat -> R) : Prop :=
  forall wd e,
    reachable rand wd -> isRunning (sys wd) = false ->
    (isRunning (sys (dispatch rand wd e)) = true <->
     inView (host (dispatch rand wd e)) = true
     /\ hidden (host (dispatch rand wd e)) = false).

(** [v] rounded to three decimals is [r]. *)
Definition rounds3 (v r : R) : Prop := r - 0.0005 <= v < r + 0.0005.

(** [Math.random()] returns a number in [0, 1). *)
Definition unit_interval (rand : nat -> R) : Prop := forall k, 0 <= rand k < 1.

(** What the constructor of [Particle] establishes. *)
Definition seeded (o : Options) (c : Canvas) (p : Particle.t) : Prop :=
  0 <= Particle.x p <= width c /\ 0 <= Particle.y p <= height c
  /\ Rabs (Particle.vx p) <= speed o / 2 /\ Rabs (Particle.vy p) <= speed o / 2
  /\ 1 <= Particle.radius p <= particleRadius o + 1
  /\ Particle.originalRadius p = Particle.radius p.

(** The size a reseed measures satisfies [ok]. *)
Definition sized (ok : R -> R -> Prop) (e : Event) : Prop :=
  match e with
  | Resized rw rh => ok rw rh
  | _ => True
  end.

(** A canvas size is not negative. *)
Definition nonneg_size (rw rh : R) : Prop := 0 <= rw /\ 0 <= rh.

(** The original radius is one the constructor can draw, and the radius lies
    between it and its double. *)
Definition radius_ok (o : Options) (p : Particle.t) : Prop :=
  1 <= Particle.originalRadius p <= particleRadius o + 1
  /\ Particle.originalRadius p <= Particle.radius p <= 2 * Particle.originalRadius p.

(** A property of the canvas, the options and the collection, read off a world. *)
Definition holds (Q : Canvas -> Options -> list Particle.t -> Prop) (wd : World) : Prop :=
  Q (canvas (sys wd)) (options (sys wd)) (particles (sys wd)).

(** The canvas size and [speed] are not negative and every particle is
    within the bounds. *)
Definition bounded (c : Canvas) (o : Options) (ps : list Particle.t) : Prop :=
  0 <= speed o /\ 0 <= width c /\ 0 <= height c /\ Forall (in_bounds o c) ps.

(** Every radius of the collection is within its bounds. *)
Definition radii_ok (c : Canvas) (o : Options) (ps : list Particle.t) : Prop :=
  Forall (radius_ok o) ps.

(** The interaction is disabled and no radius differs from the original. *)
Definition radii_original (c : Canvas) (o : Options) (ps : list Particle.t) : Prop :=
  mouseInteraction o = false
  /\ Forall (fun p => Particle.radius p = Particle.originalRadius p) ps.

(** The disc [draw()] fills for a particle. *)
Definition disc (o : Options) (p : Particle.t) : DrawCmd :=
  FillArc (Particle.x p) (Particle.y p) (Particle.radius p) (particleColor o).

(** The pointer coordinates are both null or both numbers, and null while
    the mouse listeners are not registered. *)
Definition pointer_ok (wd : World) : Prop :=
  mouseBound (host wd) = mouseInteraction (options (sys wd))
  /\ (Mouse.x (mouse (sys wd)) = None <-> Mouse.y (mouse (sys wd)) = None)
  /\ (mouseBound (host wd) = false ->
      Mouse.x (mouse (sys wd)) = None /\ Mouse.y (mouse (sys wd)) = None).

(** The event is the reseed of the resize listener. *)
Definition reseeds (e : Event) : bool :=
  match e with
  | Resized _ _ => true
  | _ => false
  end.

(** The last character of [s] is of the class [cls]. *)
Definition endsIn (cls : ascii -> bool) (s : string) : bool :=
  match rev (list_ascii_of_string s) with
  | x :: _ => cls x
  | [] => false
  end.

(** [s] ends in a digit or a dot followed by [")"]. *)
Definition endsInNumber (s : string) : bool :=
  match rev (list_ascii_of_string s) with
  | c :: x :: _ => (Ascii.eqb c ")" && Color.digitOrDot x)%bool
  | _ => false
  end.

(** At most the timer [resizeTimeout] names is pending, and it is not due yet. *)
Definition one_timer (s : Debounce.t) : Prop :=
  Debounce.timers s = [] \/
  exists id due, Debounce.timers s = [(id, due)]
                 /\ Debounce.resizeTimeout s = Some id
                 /\ (Debounce.now s < due)%nat.

(** ** Concrete inputs *)

(** A [Math.random()] that always returns 0.5. *)
Definition half : nat -> R := fun _ => 0.5.

(** A particle at rest at [(px, py)], with radius 1. *)
Definition at_rest (px py : R) : Particle.t := Particle.mk px py 0 0 1 1.

(** A canvas of the default size. *)
Definition surface : Canvas := {| width := 300; height := 150 |}.

(** The hero system, scrolled out of view, then the tab hidden. *)
Definition hero_out_of_view : World :=
  run half (construct half surface 300 150 heroOptions (page 0 0 false true))
      [Intersection [false]; VisibilityChange true].

(** The index pair and the alpha of an edge. *)
Definition summary (e : Edge) : nat * nat * R := (e_i e, e_j e, e_alpha e).

(** Three particles on the x axis, at 0, 50 and 140. *)
Definition collinear : list Particle.t := [at_rest 0 0; at_rest 50 0; at_rest 140 0].

(** The object the constructor returns for a missing canvas, on the page [h]. *)
Definition inert (h : Host) : Handle.State :=
  Handle.mkState (Handle.set_canvas Handle.Null Handle.blank) h false.

(** A handle without canvas: nothing of it reaches the page [h]. *)
Definition dormant (h : Host) (st : Handle.State) : Prop :=
  Handle.host st = h /\ Handle.listening st = false
  /\ Handle.canvas (Handle.this st) = Handle.Null
  /\ Handle.ctx (Handle.this st) = Handle.Undefined
  /\ Handle.animationId (Handle.this st) = Handle.Undefined.

(** Options that ask for no particle at all. *)
Definition noParticles : RawOptions := {|
  raw_particleCount := Some 0%Z;
  raw_particleColor := None;
  raw_lineColor := None;
  raw_particleRadius := None;
  raw_lineDistance := None;
  raw_speed := None;
  raw_mouseInteraction := None;
  raw_mouseRadius := None;
  raw_showParticles := None;
  raw_lineWidth := None
|}.

(** The hero system as the constructor has it before [init()]. *)
Definition unseeded : World :=
  mkWorld (mk surface [] None false (resolveOptions heroOptions)
              (Mouse.mk None None 250))
          (page 0 0 false true).

(** A running system of the three collinear particles. *)
Definition running_collinear : World :=
  mkWorld (mk surface collinear None true (resolveOptions heroOptions)
              (Mouse.mk None None 250))
          (page 0 0 false true).

(** Events that reach the hero system: the pointer, a frame, a reseed at a
    smaller size, another frame. *)
Definition pointer_and_reseed : list Event :=
  [MouseMove 10 20; AnimationFrame; Resized 200 100; AnimationFrame].

(** Events that do not start a stopped system and do not reseed it. *)
Definition while_paused : list Event :=
  [MouseMove 1 2; Intersection [false]; AnimationFrame; VisibilityChange true].

(** A parent element that always measures 300 by 150. *)
Definition steady : nat -> R * R := fun _ => (300, 150).

(** Options that ask for particles without speed. *)
Definition stillOptions : RawOptions := {|
  raw_particleCount := None;
  raw_particleColor := None;
  raw_lineColor := None;
  raw_particleRadius := None;
  raw_lineDistance := None;
  raw_speed := Some 0;
  raw_mouseInteraction := None;
  raw_mouseRadius := None;
  raw_showParticles := None;
  raw_lineWidth := None
|}.

(** * Properties *)

(** ** Numbers *)

Lemma Rltb_true (a b : R) : Rltb a b = true <-> a < b.
Proof.
  unfold Rltb. destruct (Rlt_dec a b); split; intros; try easy; lra.
Qed.

Lemma Rltb_false (a b : R) : Rltb a b = false <-> b <= a.
Proof.
  unfold Rltb. destruct (Rlt_dec a b); split; intros; try easy; lra.
Qed.

(** Case analysis on every comparison, [Math.max] and [Math.min] in sight. *)
Ltac split_cmp :=
  unfold Rltb, Rmax, Rmin in *;
  repeat match goal with
         | |- context [Rlt_dec ?a ?b] => destruct (Rlt_dec a b)
         | |- context [Rle_dec ?a ?b] => destruct (Rle_dec a b)
         | H : context [Rlt_dec ?a ?b] |- _ => destruct (Rlt_dec a b)
         | H : context [Rle_dec ?a ?b] |- _ => destruct (Rle_dec a b)
         end.




(** ** [Particle.update] *)

(** [update()] draws two random numbers and is [updateWith] of them. *)
Lemma update_eq (m : Mouse.t) (o : Options) (c : Canvas) (p : Particle.t)
      (rand : nat -> R) (k : nat) :
  Particle.update m o c p rand k
  = (Particle.updateWith (rand k) (rand (S k)) m o c p, S (S k)).
Proof. reflexivity. Qed.

(** The later phases of [update] leave the radius alone. *)
Lemma radius_updateWith (r1 r2 : R) (m : Mouse.t) (o : Options) (c : Canvas)
      (p : Particle.t) :
  Particle.radius (Particle.updateWith r1 r2 m o c p)
  = Particle.radius (Particle.mouseInteract m o p).
Proof.
  unfold Particle.updateWith, Particle.boundary, Particle.bounceY, Particle.bounceX.
  repeat match goal with |- context [if ?b then _ else _] => destruct b end;
    reflexivity.
Qed.

Lemma originalRadius_mouseInteract (m : Mouse.t) (o : Options) (p : Particle.t) :
  Particle.originalRadius (Particle.mouseInteract m o p) = Particle.originalRadius p.
Proof.
  unfold Particle.mouseInteract.
  repeat match goal with
         | |- context [match ?b with _ => _ end] => destruct b
         end; reflexivity.
Qed.

Lemma originalRadius_updateWith (r1 r2 : R) (m : Mouse.t) (o : Options) (c : Canvas)
      (p : Particle.t) :
  Particle.originalRadius (Particle.updateWith r1 r2 m o c p)
  = Particle.originalRadius p.
Proof.
  rewrite <- (originalRadius_mouseInteract m o p).
  unfold Particle.updateWith, Particle.boundary, Particle.bounceY, Particle.bounceX.
  repeat match goal with |- context [if ?b then _ else _] => destruct b end;
    reflexivity.
Qed.

(** The reflection at the boundary flips the sign of a velocity component
    at most: its magnitude stays. *)
Lemma boundary_keeps_speed (c : Canvas) (p : Particle.t) :
  Rabs (Particle.vx (Particle.boundary c p)) = Rabs (Particle.vx p)
  /\ Rabs (Particle.vy (Particle.boundary c p)) = Rabs (Particle.vy p).
Proof.
  unfold Particle.boundary, Particle.bounceY, Particle.bounceX.
  destruct (Rltb (Particle.x p) 0 || Rltb (width c) (Particle.x p));
    cbn [Particle.x Particle.y Particle.vx Particle.vy];
    destruct (Rltb (Particle.y p) 0 || Rltb (height c) (Particle.y p));
    cbn [Particle.x Particle.y Particle.vx Particle.vy];
    split; try reflexivity;
    match goal with
    | |- Rabs (?v * -1) = _ => replace (v * -1) with (- v) by ring; apply Rabs_Ropp
    end.
Qed.

(** The last two phases establish the bounds, whatever came before. *)
Lemma clamp_boundary_in_bounds (o : Options) (c : Canvas) (q : Particle.t) :
  0 <= width c -> 0 <= height c -> 0 <= speed o ->
  in_bounds o c (Particle.boundary c (Particle.clampVelocity o q)).
Proof.
  intros Hw Hh Hs.
  unfold in_bounds, Particle.boundary, Particle.bounceY, Particle.bounceX,
    Particle.clampVelocity.
  cbn [Particle.x Particle.y Particle.vx Particle.vy].
  destruct (Rltb (Particle.x q) 0 || Rltb (width c) (Particle.x q)) eqn:Hx;
    cbn [Particle.x Particle.y Particle.vx Particle.vy];
    destruct (Rltb (Particle.y q) 0 || Rltb (height c) (Particle.y q)) eqn:Hy;
    cbn [Particle.x Particle.y Particle.vx Particle.vy];
    try (apply orb_false_iff in Hx; destruct Hx as [Hx1 Hx2];
         apply Rltb_false in Hx1; apply Rltb_false in Hx2);
    try (apply orb_false_iff in Hy; destruct Hy as [Hy1 Hy2];
         apply Rltb_false in Hy1; apply Rltb_false in Hy2);
    repeat split; try apply Rabs_le; unfold Rmax, Rmin;
    repeat match goal with
           | |- context [Rle_dec ?a ?b] => destruct (Rle_dec a b)
           end; try split; lra.
Qed.

Lemma updateWith_in_bounds (r1 r2 : R) (m : Mouse.t) (o : Options) (c : Canvas)
      (p : Particle.t) :
  0 <= width c -> 0 <= height c -> 0 <= speed o ->
  in_bounds o c (Particle.updateWith r1 r2 m o c p).
Proof.
  intros. unfold Particle.updateWith. now apply clamp_boundary_in_bounds.
Qed.

(** With a negative [speed] the clamp returns [-maxSpeed], which is above
    [2 * speed]: the bound on the velocity needs [0 <= speed]. *)
Lemma clamp_negative_speed (o : Options) (q : Particle.t) :
  speed o < 0 ->
  Particle.vx (Particle.clampVelocity o q) = - (speed o * 2).
Proof.
  intros Hs. unfold Particle.clampVelocity. cbn [Particle.vx].
  split_cmp; lra.
Qed.

(** What [forEach] computes: every particle, in order, updated once. *)
Lemma forEachParticle_updates (m : Mouse.t) (o : Options) (c : Canvas)
      (rand : nat -> R) (ps : list Particle.t) (k : nat) :
  Forall2 (updated_from m o c) ps
          (fst (fst (ParticleSystem.forEachParticle m o c ps rand k))).
Proof.
  revert k. induction ps as [|p rest IH]; intros k.
  - constructor.
  - cbn [ParticleSystem.forEachParticle]. unfold bind at 1. rewrite update_eq.
    unfold bind at 1. specialize (IH (S (S k))).
    destruct (ParticleSystem.forEachParticle m o c rest rand (S (S k))) as [r k'].
    cbn [fst snd] in *. constructor; [ | exact IH].
    exists (rand k), (rand (S k)). reflexivity.
Qed.

(** It draws two random numbers per particle. *)
Lemma forEachParticle_draws (m : Mouse.t) (o : Options) (c : Canvas)
      (rand : nat -> R) (ps : list Particle.t) (k : nat) :
  snd (ParticleSystem.forEachParticle m o c ps rand k) = (k + 2 * List.length ps)%nat.
Proof.
  revert k. induction ps as [|p rest IH]; intros k.
  - unfold ParticleSystem.forEachParticle, ret. cbn [snd List.length]. lia.
  - cbn [ParticleSystem.forEachParticle]. unfold bind at 1. rewrite update_eq.
    unfold bind at 1. specialize (IH (S (S k))).
    destruct (ParticleSystem.forEachParticle m o c rest rand (S (S k))) as [r k'].
    unfold ret. cbn [fst snd List.length] in *. lia.
Qed.

Lemma Forall2_updated_length (m : Mouse.t) (o : Options) (c : Canvas)
      (ps qs : list Particle.t) :
  Forall2 (updated_from m o c) ps qs -> List.length qs = List.length ps.
Proof.
  intros H. symmetry. eapply Forall2_length. exact H.
Qed.

Lemma Forall2_updated_originalRadius (m : Mouse.t) (o : Options) (c : Canvas)
      (ps qs : list Particle.t) :
  Forall2 (updated_from m o c) ps qs ->
  map Particle.originalRadius qs = map Particle.originalRadius ps.
Proof.
  induction 1 as [|p q ps qs [r1 [r2 Hq]] _ IH]; [reflexivity|].
  cbn. rewrite IH, Hq, originalRadius_updateWith. reflexivity.
Qed.

(** C6.  After the integration step of a tick, every particle lies inside
    the canvas and both velocity components are within [2 * speed] in absolute
    value, whatever the pointer state [m] and the random numbers [rand]; the
    reflection at the boundary, which comes after the clamp, keeps the
    magnitude of the velocity.  The canvas size and [speed] are non-negative,
    as the host and the data model have them. *)
Theorem particles_in_bounds_after_step (m : Mouse.t) (o : Options) (c : Canvas)
        (rand : nat -> R) (k : nat) (ps : list Particle.t) :
  0 <= width c -> 0 <= height c -> 0 <= speed o ->
  Forall (fun p =>
            0 <= Particle.x p <= width c /\ 0 <= Particle.y p <= height c /\
            Rabs (Particle.vx p) <= 2 * speed o /\
            Rabs (Particle.vy p) <= 2 * speed o)
         (fst (fst (ParticleSystem.forEachParticle m o c ps rand k)))
  /\ (forall p,
        Rabs (Particle.vx (Particle.boundary c p)) = Rabs (Particle.vx p)
        /\ Rabs (Particle.vy (Particle.boundary c p)) = Rabs (Particle.vy p)).
Proof.
  intros Hw Hh Hs. split; [ | intros p; apply boundary_keeps_speed].
  pose proof (forEachParticle_updates m o c rand ps k) as H.
  induction H as [|p q ps' qs [r1 [r2 Hq]] _ IH]; constructor; [ | exact IH].
  subst q. apply (updateWith_in_bounds r1 r2 m o c p Hw Hh Hs).
Qed.

(** The division of line 184 is reached only with a positive divisor. *)
Lemma mouse_divisor_positive (dx dy r : R) :
  Rltb (sqrt (dx * dx + dy * dy)) r = true -> 0 < r.
Proof.
  intros H. apply Rltb_true in H.
  pose proof (sqrt_pos (dx * dx + dy * dy)). lra.
Qed.

(** [force] of line 184 lies in (0, 1]. *)
Lemma force_range (d r : R) : 0 <= d -> d < r -> 0 < (r - d) / r <= 1.
Proof.
  intros Hd Hr. assert (Hpos : 0 < r) by lra.
  assert (Hinv : 0 < / r) by (apply Rinv_0_lt_compat; exact Hpos).
  split.
  - unfold Rdiv. apply Rmult_lt_0_compat; lra.
  - apply Rmult_le_reg_r with r; [exact Hpos|].
    unfold Rdiv. rewrite Rmult_assoc, Rinv_l by lra. lra.
Qed.

(** The branch of [mouseInteract] taken when the pointer is present, the
    interaction enabled and the particle closer than [mouse.radius]. *)
Lemma mouseInteract_near (m : Mouse.t) (o : Options) (p : Particle.t) (mx my : R) :
  Mouse.x m = Some mx -> Mouse.y m = Some my -> mouseInteraction o = true ->
  sqrt ((Particle.x p - mx) * (Particle.x p - mx)
        + (Particle.y p - my) * (Particle.y p - my)) < Mouse.radius m ->
  Particle.mouseInteract m o p
  = let dx := Particle.x p - mx in
    let dy := Particle.y p - my in
    let d := sqrt (dx * dx + dy * dy) in
    let force := (Mouse.radius m - d) / Mouse.radius m in
    Particle.mk (Particle.x p) (Particle.y p)
                (Particle.vx p + cos (atan2 dy dx) * force * 0.5)
                (Particle.vy p + sin (atan2 dy dx) * force * 0.5)
                (Particle.originalRadius p * (1 + force))
                (Particle.originalRadius p).
Proof.
  intros Hx Hy Hi Hd. unfold Particle.mouseInteract.
  rewrite Hx, Hy, Hi. cbn [Mouse.num].
  apply Rltb_true in Hd. rewrite Hd. reflexivity.
Qed.

(** The branch taken when the pointer is present but too far away. *)
Lemma mouseInteract_far (m : Mouse.t) (o : Options) (p : Particle.t) (mx my : R) :
  Mouse.x m = Some mx -> Mouse.y m = Some my -> mouseInteraction o = true ->
  Mouse.radius m <= sqrt ((Particle.x p - mx) * (Particle.x p - mx)
                          + (Particle.y p - my) * (Particle.y p - my)) ->
  Particle.radius (Particle.mouseInteract m o p) = Particle.originalRadius p.
Proof.
  intros Hx Hy Hi Hd. unfold Particle.mouseInteract.
  rewrite Hx, Hy, Hi. cbn [Mouse.num].
  apply Rltb_false in Hd. rewrite Hd. reflexivity.
Qed.

(** No pointer, or interaction disabled: [mouseInteract] does nothing at
    all; in particular it does not restore the radius. *)
Lemma mouseInteract_absent (m : Mouse.t) (o : Options) (p : Particle.t) :
  Mouse.x m = None \/ mouseInteraction o = false ->
  Particle.mouseInteract m o p = p.
Proof.
  intros [H | H]; unfold Particle.mouseInteract; rewrite H;
    [reflexivity | destruct (Mouse.x m); reflexivity].
Qed.


(** In a step that takes the pointer branch with the particle out of reach,
    the radius is restored. *)
Lemma radius_restored_when_far (r1 r2 : R) (m : Mouse.t) (o : Options) (c : Canvas)
      (p : Particle.t) (mx my : R) :
  Mouse.x m = Some mx -> Mouse.y m = Some my -> mouseInteraction o = true ->
  Mouse.radius m <= sqrt ((Particle.x p - mx) * (Particle.x p - mx)
                          + (Particle.y p - my) * (Particle.y p - my)) ->
  Particle.radius (Particle.updateWith r1 r2 m o c p) = Particle.originalRadius p.
Proof.
  intros. rewrite radius_updateWith. now apply mouseInteract_far with mx my.
Qed.

(** With the pointer absent (or the interaction disabled) the step leaves
    the radius as it found it, inflated or not. *)
Lemma radius_kept_when_pointer_absent (r1 r2 : R) (m : Mouse.t) (o : Options)
      (c : Canvas) (p : Particle.t) :
  Mouse.x m = None \/ mouseInteraction o = false ->
  Particle.radius (Particle.updateWith r1 r2 m o c p) = Particle.radius p.
Proof.
  intros H. rewrite radius_updateWith, mouseInteract_absent by exact H. reflexivity.
Qed.

(** The bounds hold after every tick of a running system. *)
Lemma animate_in_bounds (rand : nat -> R) (wd : World) :
  isRunning (sys wd) = true ->
  0 <= width (canvas (sys wd)) -> 0 <= height (canvas (sys wd)) ->
  0 <= speed (options (sys wd)) ->
  Forall (in_bounds (options (sys wd)) (canvas (sys wd)))
         (particles (sys (animate rand wd))).
Proof.
  intros E Hw Hh Hs. unfold animate, requestAnimationFrame. rewrite E.
  cbn [negb sys particles set_animationId set_particles].
  pose proof (forEachParticle_updates (mouse (sys wd)) (options (sys wd))
                (canvas (sys wd)) rand (particles (sys wd)) (draws (host wd))) as H.
  induction H as [|p q ps' qs [r1 [r2 Hq]] _ IH]; constructor; [ | exact IH].
  subst q. now apply updateWith_in_bounds.
Qed.

(** ** Option resolution *)

(** The spread after the defaults makes every [||] default apply only to an
    absent key: a key that is present wins, also when its value is falsy. *)
Lemma resolveOptions_particleCount (raw : RawOptions) :
  particleCount (resolveOptions raw)
  = match raw_particleCount raw with Some n => n | None => 80%Z end.
Proof.
  unfold resolveOptions, spread, or_int. cbn [particleCount].
  destruct (raw_particleCount raw); reflexivity.
Qed.

Lemma resolveOptions_mouseInteraction (raw : RawOptions) :
  mouseInteraction (resolveOptions raw)
  = match raw_mouseInteraction raw with Some b => b | None => true end.
Proof.
  unfold resolveOptions, spread, not_false. cbn [mouseInteraction].
  destruct (raw_mouseInteraction raw); reflexivity.
Qed.

(** ** [createParticles] *)

Section Seeding.

Variable rand : nat -> R.

(** The loop from counter [i] appends one particle for each integer in
    [i, particleCount), and draws five random numbers for each. *)
Lemma createLoop_length (c : Canvas) (o : Options) (acc : list Particle.t)
      (k : nat) (i : Z) :
  List.length (fst (createLoop rand c o acc k i))
  = (List.length acc + Z.to_nat (particleCount o - i))%nat.
Proof.
  functional induction (createLoop rand c o acc k i) as [acc k i Hlt IH | acc k i Hge].
  - rewrite IH, length_app. cbn [List.length]. apply Z.ltb_lt in Hlt. lia.
  - cbn [fst]. apply Z.ltb_ge in Hge. lia.
Qed.

Lemma createLoop_draws (c : Canvas) (o : Options) (acc : list Particle.t)
      (k : nat) (i : Z) :
  snd (createLoop rand c o acc k i) = (k + 5 * Z.to_nat (particleCount o - i))%nat.
Proof.
  functional induction (createLoop rand c o acc k i) as [acc k i Hlt IH | acc k i Hge].
  - rewrite IH. apply Z.ltb_lt in Hlt.
    replace (snd (Particle.new c o rand k)) with (5 + k)%nat by reflexivity. lia.
  - cbn [snd]. apply Z.ltb_ge in Hge. lia.
Qed.

(** The loop keeps what was accumulated before it as a prefix. *)
Lemma createLoop_prefix (c : Canvas) (o : Options) (acc : list Particle.t)
      (k : nat) (i : Z) :
  exists fresh, fst (createLoop rand c o acc k i) = acc ++ fresh.
Proof.
  functional induction (createLoop rand c o acc k i) as [acc k i Hlt IH | acc k i Hge].
  - destruct IH as [fresh IH]. rewrite IH, <- app_assoc. eauto.
  - exists []. cbn [fst]. now rewrite app_nil_r.
Qed.

(** [createParticles()] starts the loop at [0] with an empty collection. *)
Lemma createParticles_length (wd : World) :
  List.length (particles (sys (createParticles rand wd)))
  = Z.to_nat (particleCount (options (sys wd))).
Proof.
  unfold createParticles. cbn [sys particles set_particles].
  rewrite createLoop_length. cbn [List.length]. f_equal. lia.
Qed.

End Seeding.

(** ** The methods of [ParticleSystem], field by field *)

Section Methods.

Variable rand : nat -> R.

Ltac by_running wd :=
  unfold animate, requestAnimationFrame;
  destruct (isRunning (sys wd)); reflexivity.

Lemma animate_stopped (wd : World) :
  isRunning (sys wd) = false -> animate rand wd = wd.
Proof. intros H. unfold animate. rewrite H. reflexivity. Qed.

Lemma animate_isRunning (wd : World) :
  isRunning (sys (animate rand wd)) = isRunning (sys wd).
Proof.
  unfold animate, requestAnimationFrame.
  destruct (isRunning (sys wd)) eqn:E;
    cbn [negb sys isRunning set_animationId set_particles]; exact E.
Qed.

Lemma animate_options (wd : World) : options (sys (animate rand wd)) = options (sys wd).
Proof. by_running wd. Qed.

Lemma animate_canvas (wd : World) : canvas (sys (animate rand wd)) = canvas (sys wd).
Proof. by_running wd. Qed.

Lemma animate_mouse (wd : World) : mouse (sys (animate rand wd)) = mouse (sys wd).
Proof. by_running wd. Qed.

Lemma animate_hidden (wd : World) : hidden (host (animate rand wd)) = hidden (host wd).
Proof. by_running wd. Qed.

Lemma animate_inView (wd : World) : inView (host (animate rand wd)) = inView (host wd).
Proof. by_running wd. Qed.

Lemma animate_mouseBound (wd : World) :
  mouseBound (host (animate rand wd)) = mouseBound (host wd).
Proof. by_running wd. Qed.

Lemma animate_particles (wd : World) :
  particles (sys (animate rand wd))
  = if isRunning (sys wd)
    then fst (fst (forEachParticle (mouse (sys wd)) (options (sys wd)) (canvas (sys wd))
                                   (particles (sys wd)) rand (draws (host wd))))
    else particles (sys wd).
Proof. by_running wd. Qed.

Lemma animate_frames (wd : World) :
  frames (host (animate rand wd))
  = if isRunning (sys wd) then frames (host wd) ++ [S (lastHandle (host wd))]
    else frames (host wd).
Proof. by_running wd. Qed.

Lemma animate_animationId (wd : World) :
  animationId (sys (animate rand wd))
  = if isRunning (sys wd) then Some (S (lastHandle (host wd)))
    else animationId (sys wd).
Proof. by_running wd. Qed.

(** One tick appends to the output: the clear, the discs, the lines. *)
Lemma animate_output (wd : World) :
  output (host (animate rand wd))
  = if isRunning (sys wd)
    then output (host wd)
         ++ ClearRect (width (canvas (sys wd))) (height (canvas (sys wd)))
         :: snd (fst (forEachParticle (mouse (sys wd)) (options (sys wd))
                                      (canvas (sys wd)) (particles (sys wd))
                                      rand (draws (host wd))))
         ++ map stroke
              (connectParticles (options (sys wd))
                 (fst (fst (forEachParticle (mouse (sys wd)) (options (sys wd))
                                            (canvas (sys wd)) (particles (sys wd))
                                            rand (draws (host wd))))))
    else output (host wd).
Proof. by_running wd. Qed.

Lemma start_isRunning (wd : World) : isRunning (sys (start rand wd)) = true.
Proof.
  unfold start. destruct (isRunning (sys wd)) eqn:E; [exact E|].
  rewrite animate_isRunning. reflexivity.
Qed.

Lemma start_running (wd : World) : isRunning (sys wd) = true -> start rand wd = wd.
Proof. intros H. unfold start. rewrite H. reflexivity. Qed.

Lemma stop_isRunning (wd : World) : isRunning (sys (stop wd)) = false.
Proof.
  unfold stop. cbn [animationId set_isRunning].
  destruct (animationId (sys wd)) as [id|]; [destruct (Nat.eqb id 0)|]; reflexivity.
Qed.

Ltac by_stop wd :=
  unfold stop; cbn [animationId set_isRunning];
  destruct (animationId (sys wd)) as [?id|]; [destruct (Nat.eqb _ 0)|]; reflexivity.

Lemma stop_particles (wd : World) : particles (sys (stop wd)) = particles (sys wd).
Proof. by_stop wd. Qed.
Lemma stop_options (wd : World) : options (sys (stop wd)) = options (sys wd).
Proof. by_stop wd. Qed.
Lemma stop_canvas (wd : World) : canvas (sys (stop wd)) = canvas (sys wd).
Proof. by_stop wd. Qed.
Lemma stop_mouse (wd : World) : mouse (sys (stop wd)) = mouse (sys wd).
Proof. by_stop wd. Qed.
Lemma stop_output (wd : World) : output (host (stop wd)) = output (host wd).
Proof. by_stop wd. Qed.
Lemma stop_draws (wd : World) : draws (host (stop wd)) = draws (host wd).
Proof. by_stop wd. Qed.
Lemma stop_hidden (wd : World) : hidden (host (stop wd)) = hidden (host wd).
Proof. by_stop wd. Qed.
Lemma stop_inView (wd : World) : inView (host (stop wd)) = inView (host wd).
Proof. by_stop wd. Qed.
Lemma stop_mouseBound (wd : World) : mouseBound (host (stop wd)) = mouseBound (host wd).
Proof. by_stop wd. Qed.

End Methods.

(** ** The lifecycle: [start], [stop] and the pending frame *)

Section Lifecycle.

Variable rand : nat -> R.

Lemma scheduled_stopped (wd : World) :
  scheduled wd -> isRunning (sys wd) = false ->
  animationId (sys wd) = None /\ frames (host wd) = [].
Proof. unfold scheduled. intros H E. rewrite E in H. exact H. Qed.

Lemma stop_scheduled (wd : World) :
  scheduled wd ->
  isRunning (sys (stop wd)) = false /\ animationId (sys (stop wd)) = None
  /\ frames (host (stop wd)) = [].
Proof.
  unfold scheduled, stop. cbn [animationId set_isRunning].
  destruct (isRunning (sys wd)).
  - intros [id [Hid [Ha Hf]]]. rewrite Ha.
    destruct (Nat.eqb id 0) eqn:E; [apply Nat.eqb_eq in E; contradiction|].
    cbn. rewrite Hf. cbn. rewrite Nat.eqb_refl. auto.
  - intros [Ha Hf]. rewrite Ha. cbn. auto.
Qed.

Lemma stop_keeps_scheduled (wd : World) : scheduled wd -> scheduled (stop wd).
Proof.
  intros H. destruct (stop_scheduled wd H) as [Hr [Ha Hf]].
  unfold scheduled. rewrite Hr. auto.
Qed.

(** Stopping a stopped system changes nothing the code can tell apart. *)
Lemma stop_stopped (wd : World) :
  scheduled wd -> isRunning (sys wd) = false -> stop wd = wd.
Proof.
  intros H E. destruct (scheduled_stopped wd H E) as [Ha _].
  destruct wd as [[cv ps aid run o m] h]. cbn in *. subst. reflexivity.
Qed.

Lemma animate_schedules (wd : World) :
  isRunning (sys wd) = true -> frames (host wd) = [] -> scheduled (animate rand wd).
Proof.
  intros E Hf. unfold scheduled.
  rewrite animate_isRunning, animate_animationId, animate_frames, E, Hf.
  exists (S (lastHandle (host wd))). auto.
Qed.

Lemma start_keeps_scheduled (wd : World) : scheduled wd -> scheduled (start rand wd).
Proof.
  intros H. unfold start. destruct (isRunning (sys wd)) eqn:E; [exact H|].
  apply animate_schedules; [reflexivity|].
  cbn. apply (scheduled_stopped wd H E).
Qed.

Lemma onIntersection_keeps_scheduled (wd : World) (b : bool) :
  scheduled wd -> scheduled (onIntersection rand wd b).
Proof.
  intros H. unfold onIntersection.
  destruct b; [apply start_keeps_scheduled | apply stop_keeps_scheduled]; exact H.
Qed.

Lemma dispatch_keeps_scheduled (wd : World) (e : Event) :
  scheduled wd -> scheduled (dispatch rand wd e).
Proof.
  intros H. destruct e as [rw rh | mx my | | h | entries | ]; cbn [dispatch].
  - exact H.
  - destruct (mouseBound (host wd)); exact H.
  - destruct (mouseBound (host wd)); exact H.
  - destruct h; [apply stop_keeps_scheduled | apply start_keeps_scheduled]; exact H.
  - revert wd H. induction entries as [|b rest IH]; intros wd H; [exact H|].
    cbn [fold_left]. apply IH. apply onIntersection_keeps_scheduled. exact H.
  - unfold scheduled in H. destruct (isRunning (sys wd)) eqn:E.
    + destruct H as [id [Hid [Ha Hf]]]. rewrite Hf. cbn [fold_left].
      apply animate_schedules; [exact E | reflexivity].
    + destruct H as [Ha Hf]. rewrite Hf. cbn [fold_left].
      unfold scheduled. cbn. rewrite E. auto.
Qed.

Lemma run_keeps_scheduled (trace : list Event) (wd : World) :
  scheduled wd -> scheduled (run rand wd trace).
Proof.
  revert wd. induction trace as [|e rest IH]; intros wd H; [exact H|].
  cbn [run fold_left]. apply IH. apply dispatch_keeps_scheduled. exact H.
Qed.

(** The constructor ends in [start()]: a constructed system is running, its
    first tick done, the next one pending. *)
Lemma construct_scheduled (el : Canvas) (rw rh : R) (raw : RawOptions)
      (k n : nat) (hid view : bool) :
  scheduled (construct rand el rw rh raw (page k n hid view)).
Proof.
  unfold construct, init. apply start_keeps_scheduled.
  unfold scheduled. cbn. auto.
Qed.

Lemma construct_isRunning (el : Canvas) (rw rh : R) (raw : RawOptions) (h : Host) :
  isRunning (sys (construct rand el rw rh raw h)) = true.
Proof. unfold construct, init. apply start_isRunning. Qed.

End Lifecycle.

(** ** What each event does to each field *)

Section Dispatch.

Variable rand : nat -> R.

Ltac by_start wd lem :=
  unfold start; destruct (isRunning (sys wd)); [reflexivity | now rewrite lem].

Lemma start_options (wd : World) : options (sys (start rand wd)) = options (sys wd).
Proof. by_start wd animate_options. Qed.
Lemma start_canvas (wd : World) : canvas (sys (start rand wd)) = canvas (sys wd).
Proof. by_start wd animate_canvas. Qed.
Lemma start_mouse (wd : World) : mouse (sys (start rand wd)) = mouse (sys wd).
Proof. by_start wd animate_mouse. Qed.
Lemma start_hidden (wd : World) : hidden (host (start rand wd)) = hidden (host wd).
Proof. by_start wd animate_hidden. Qed.
Lemma start_inView (wd : World) : inView (host (start rand wd)) = inView (host wd).
Proof. by_start wd animate_inView. Qed.
Lemma start_mouseBound (wd : World) :
  mouseBound (host (start rand wd)) = mouseBound (host wd).
Proof. by_start wd animate_mouseBound. Qed.

Lemma last_cons {A : Type} (a d : A) (l : list A) : last (a :: l) d = last l a.
Proof.
  revert a d. induction l as [|b l IH]; intros a d; [reflexivity|].
  change (last (a :: b :: l) d) with (last (b :: l) d).
  rewrite (IH b d), (IH b a). reflexivity.
Qed.

(** A projection that [animate] keeps is kept by a whole frame. *)
Lemma frame_keeps {A : Type} (f : World -> A) :
  (forall w, f (animate rand w) = f w) ->
  forall (cbs : list nat) (w : World),
    f (fold_left (fun w _ => animate rand w) cbs w) = f w.
Proof.
  intros Hf cbs. induction cbs as [|cb rest IH]; intros w; [reflexivity|].
  cbn [fold_left]. rewrite IH. apply Hf.
Qed.

(** A projection that [start] and [stop] keep, and that does not look at
    [inView], is kept by the intersection callback. *)
Lemma intersection_keeps {A : Type} (f : World -> A) :
  (forall w, f (start rand w) = f w) -> (forall w, f (stop w) = f w) ->
  (forall w b, f (mkWorld (sys w) (set_inView b (host w))) = f w) ->
  forall (entries : list bool) (w : World),
    f (fold_left (onIntersection rand) entries w) = f w.
Proof.
  intros Hstart Hstop Hview entries.
  induction entries as [|b rest IH]; intros w; [reflexivity|].
  cbn [fold_left]. rewrite IH. unfold onIntersection.
  destruct b; [rewrite Hstart | rewrite Hstop]; apply Hview.
Qed.

Lemma intersection_isRunning (entries : list bool) (wd : World) :
  isRunning (sys (fold_left (onIntersection rand) entries wd))
  = last entries (isRunning (sys wd)).
Proof.
  revert wd. induction entries as [|b rest IH]; intros wd; [reflexivity|].
  cbn [fold_left]. rewrite IH.
  assert (Hb : isRunning (sys (onIntersection rand wd b)) = b).
  { unfold onIntersection. destruct b; [apply start_isRunning | apply stop_isRunning]. }
  rewrite Hb. symmetry. apply last_cons.
Qed.

Lemma intersection_inView (entries : list bool) (wd : World) :
  inView (host (fold_left (onIntersection rand) entries wd))
  = last entries (inView (host wd)).
Proof.
  revert wd. induction entries as [|b rest IH]; intros wd; [reflexivity|].
  cbn [fold_left]. rewrite IH.
  assert (Hb : inView (host (onIntersection rand wd b)) = b).
  { unfold onIntersection.
    destruct b; [rewrite start_inView | rewrite stop_inView]; reflexivity. }
  rewrite Hb. symmetry. apply last_cons.
Qed.

Lemma dispatch_isRunning (wd : World) (e : Event) :
  isRunning (sys (dispatch rand wd e))
  = match e with
    | VisibilityChange h => negb h
    | Intersection entries => last entries (isRunning (sys wd))
    | _ => isRunning (sys wd)
    end.
Proof.
  destruct e as [rw rh | mx my | | h | entries | ]; cbn [dispatch].
  - reflexivity.
  - destruct (mouseBound (host wd)); reflexivity.
  - destruct (mouseBound (host wd)); reflexivity.
  - destruct h; [apply stop_isRunning | apply start_isRunning].
  - apply intersection_isRunning.
  - rewrite (frame_keeps (fun w => isRunning (sys w))); [reflexivity|].
    intros w. apply animate_isRunning.
Qed.

Lemma dispatch_hidden (wd : World) (e : Event) :
  hidden (host (dispatch rand wd e))
  = match e with
    | VisibilityChange h => h
    | _ => hidden (host wd)
    end.
Proof.
  destruct e as [rw rh | mx my | | h | entries | ]; cbn [dispatch].
  - reflexivity.
  - destruct (mouseBound (host wd)); reflexivity.
  - destruct (mouseBound (host wd)); reflexivity.
  - destruct h; [rewrite stop_hidden | rewrite start_hidden]; reflexivity.
  - apply (intersection_keeps (fun w => hidden (host w)));
      [apply start_hidden | apply stop_hidden | reflexivity].
  - rewrite (frame_keeps (fun w => hidden (host w))); [reflexivity|].
    intros w. apply animate_hidden.
Qed.

Lemma dispatch_inView (wd : World) (e : Event) :
  inView (host (dispatch rand wd e))
  = match e with
    | Intersection entries => last entries (inView (host wd))
    | _ => inView (host wd)
    end.
Proof.
  destruct e as [rw rh | mx my | | h | entries | ]; cbn [dispatch].
  - reflexivity.
  - destruct (mouseBound (host wd)); reflexivity.
  - destruct (mouseBound (host wd)); reflexivity.
  - destruct h; [rewrite stop_inView | rewrite start_inView]; reflexivity.
  - apply intersection_inView.
  - rewrite (frame_keeps (fun w => inView (host w))); [reflexivity|].
    intros w. apply animate_inView.
Qed.

Lemma dispatch_options (wd : World) (e : Event) :
  options (sys (dispatch rand wd e)) = options (sys wd).
Proof.
  destruct e as [rw rh | mx my | | h | entries | ]; cbn [dispatch].
  - reflexivity.
  - destruct (mouseBound (host wd)); reflexivity.
  - destruct (mouseBound (host wd)); reflexivity.
  - destruct h; [rewrite stop_options | rewrite start_options]; reflexivity.
  - apply (intersection_keeps (fun w => options (sys w)));
      [apply start_options | apply stop_options | reflexivity].
  - rewrite (frame_keeps (fun w => options (sys w))); [reflexivity|].
    intros w. apply animate_options.
Qed.

Lemma dispatch_mouseBound (wd : World) (e : Event) :
  mouseBound (host (dispatch rand wd e)) = mouseBound (host wd).
Proof.
  destruct e as [rw rh | mx my | | h | entries | ]; cbn [dispatch].
  - reflexivity.
  - destruct (mouseBound (host wd)) eqn:E; cbn [host]; exact E.
  - destruct (mouseBound (host wd)) eqn:E; cbn [host]; exact E.
  - destruct h; [rewrite stop_mouseBound | rewrite start_mouseBound]; reflexivity.
  - apply (intersection_keeps (fun w => mouseBound (host w)));
      [apply start_mouseBound | apply stop_mouseBound | reflexivity].
  - rewrite (frame_keeps (fun w => mouseBound (host w))); [reflexivity|].
    intros w. apply animate_mouseBound.
Qed.

Lemma dispatch_mouse_radius (wd : World) (e : Event) :
  Mouse.radius (mouse (sys (dispatch rand wd e))) = Mouse.radius (mouse (sys wd)).
Proof.
  destruct e as [rw rh | mx my | | h | entries | ]; cbn [dispatch].
  - reflexivity.
  - destruct (mouseBound (host wd)); reflexivity.
  - destruct (mouseBound (host wd)); reflexivity.
  - destruct h; [rewrite stop_mouse | rewrite start_mouse]; reflexivity.
  - apply (intersection_keeps (fun w => Mouse.radius (mouse (sys w))));
      intros; [rewrite start_mouse | rewrite stop_mouse | ]; reflexivity.
  - rewrite (frame_keeps (fun w => Mouse.radius (mouse (sys w)))); [reflexivity|].
    intros w. now rewrite animate_mouse.
Qed.

(** [mouse.radius] is [options.mouseRadius] from the constructor on. *)
Lemma run_mouse_radius (trace : list Event) (wd : World) :
  Mouse.radius (mouse (sys wd)) = mouseRadius (options (sys wd)) ->
  Mouse.radius (mouse (sys (run rand wd trace)))
  = mouseRadius (options (sys (run rand wd trace))).
Proof.
  revert wd. induction trace as [|e rest IH]; intros wd H; [exact H|].
  cbn [run fold_left]. apply IH. now rewrite dispatch_mouse_radius, dispatch_options.
Qed.

Lemma construct_mouse_radius (el : Canvas) (rw rh : R) (raw : RawOptions) (h : Host) :
  Mouse.radius (mouse (sys (construct rand el rw rh raw h)))
  = mouseRadius (options (sys (construct rand el rw rh raw h))).
Proof.
  unfold construct, init. rewrite start_mouse, start_options. reflexivity.
Qed.

End Dispatch.

Section LifecycleTheorem.

Variable rand : nat -> R.

Lemma reachable_scheduled (wd : World) : reachable rand wd -> scheduled wd.
Proof.
  intros (el & rw & rh & raw & k & n & hid & view & trace & ->).
  apply run_keeps_scheduled, construct_scheduled.
Qed.

Lemma reachable_dispatch (wd : World) (e : Event) :
  reachable rand wd -> reachable rand (dispatch rand wd e).
Proof.
  intros (el & rw & rh & raw & k & n & hid & view & trace & ->).
  exists el, rw, rh, raw, k, n, hid, view, (trace ++ [e]).
  unfold run. rewrite fold_left_app. reflexivity.
Qed.

Lemma scheduled_set_hidden (wd : World) (b : bool) :
  scheduled wd -> scheduled (mkWorld (sys wd) (set_hidden b (host wd))).
Proof. intros H. exact H. Qed.

Lemma scheduled_set_inView (wd : World) (b : bool) :
  scheduled wd -> scheduled (mkWorld (sys wd) (set_inView b (host wd))).
Proof. intros H. exact H. Qed.

(** An event that ends in [stop()] leaves the system stopped and nothing
    pending. *)
Lemma dispatch_stops (wd : World) (e : Event) :
  scheduled wd -> stops e = true ->
  isRunning (sys (dispatch rand wd e)) = false
  /\ animationId (sys (dispatch rand wd e)) = None
  /\ frames (host (dispatch rand wd e)) = [].
Proof.
  intros H Hs. destruct e as [rw rh | mx my | | h | entries | ]; try discriminate.
  - cbn in Hs. subst h. cbn [dispatch]. apply stop_scheduled, scheduled_set_hidden, H.
  - cbn in Hs. apply negb_true_iff in Hs.
    destruct (exists_last (l := entries)) as [es [b Hes]].
    { intros ->. discriminate. }
    subst entries. rewrite last_last in Hs. subst b. cbn [dispatch].
    rewrite fold_left_app. cbn [fold_left]. unfold onIntersection at 1.
    apply stop_scheduled, scheduled_set_inView.
    apply (dispatch_keeps_scheduled rand wd (Intersection es) H).
Qed.

(** While stopped, an event that never calls [start()] runs no tick. *)
Lemma dispatch_quiet (wd : World) (e : Event) :
  scheduled wd -> isRunning (sys wd) = false -> quiet e = true ->
  output (host (dispatch rand wd e)) = output (host wd).
Proof.
  intros H E Hq. destruct e as [rw rh | mx my | | h | entries | ]; cbn [dispatch].
  - reflexivity.
  - destruct (mouseBound (host wd)); reflexivity.
  - destruct (mouseBound (host wd)); reflexivity.
  - cbn in Hq. subst h. rewrite stop_output. reflexivity.
  - cbn in Hq. clear H E. revert wd.
    induction entries as [|b rest IH]; intros wd; [reflexivity|].
    cbn [forallb] in Hq. apply andb_true_iff in Hq. destruct Hq as [Hb Hrest].
    apply negb_true_iff in Hb. subst b. cbn [fold_left]. rewrite (IH Hrest).
    unfold onIntersection. rewrite stop_output. reflexivity.
  - destruct (scheduled_stopped wd H E) as [_ Hf]. rewrite Hf. reflexivity.
Qed.

Lemma quiet_not_starts (e : Event) : quiet e = true -> starts e = false.
Proof.
  destruct e as [rw rh | mx my | | h | entries | ]; cbn; try reflexivity.
  - intros ->. reflexivity.
  - induction entries as [|b rest IH]; [reflexivity|].
    cbn [forallb]. intros Hq. apply andb_true_iff in Hq. destruct Hq as [Hb Hrest].
    apply negb_true_iff in Hb. subst b. rewrite last_cons. exact (IH Hrest).
Qed.

(** While Running, a frame runs exactly one tick and requests the next. *)
Lemma frame_while_running (wd : World) :
  scheduled wd -> isRunning (sys wd) = true ->
  dispatch rand wd AnimationFrame
  = animate rand (mkWorld (sys wd) (set_frames [] (host wd)))
  /\ isRunning (sys (dispatch rand wd AnimationFrame)) = true
  /\ frames (host (dispatch rand wd AnimationFrame)) = [S (lastHandle (host wd))]
  /\ exists drawn,
       output (host (dispatch rand wd AnimationFrame))
       = output (host wd)
         ++ ClearRect (width (canvas (sys wd))) (height (canvas (sys wd))) :: drawn.
Proof.
  intros H E. unfold scheduled in H. rewrite E in H.
  destruct H as (id & _ & _ & Hf).
  assert (Heq : dispatch rand wd AnimationFrame
                = animate rand (mkWorld (sys wd) (set_frames [] (host wd)))).
  { cbn [dispatch]. rewrite Hf. reflexivity. }
  rewrite Heq, animate_isRunning, animate_frames, animate_output.
  cbn [sys host frames set_frames lastHandle output canvas]. rewrite E.
  split; [reflexivity | split; [reflexivity | split; [reflexivity | eauto ] ] ].
Qed.

(** From a stopped system, exactly the events of [starts] lead to Running. *)
Lemma dispatch_starts (wd : World) (e : Event) :
  isRunning (sys wd) = false ->
  isRunning (sys (dispatch rand wd e)) = starts e.
Proof.
  intros E. rewrite dispatch_isRunning.
  destruct e as [rw rh | mx my | | h | entries | ]; cbn [starts]; try exact E.
  - reflexivity.
  - rewrite E. reflexivity.
Qed.

Lemma run_quiet (trace : list Event) (wd : World) :
  scheduled wd -> isRunning (sys wd) = false -> forallb quiet trace = true ->
  isRunning (sys (run rand wd trace)) = false
  /\ output (host (run rand wd trace)) = output (host wd).
Proof.
  revert wd. induction trace as [|e rest IH]; intros wd H E Hq; [auto|].
  cbn [forallb] in Hq. apply andb_true_iff in Hq. destruct Hq as [He Hrest].
  cbn [run fold_left].
  assert (E' : isRunning (sys (dispatch rand wd e)) = false).
  { rewrite (dispatch_starts wd e E). apply quiet_not_starts, He. }
  destruct (IH (dispatch rand wd e) (dispatch_keeps_scheduled rand wd e H) E' Hrest)
    as [Hr Ho].
  split; [exact Hr|]. unfold run in Ho. rewrite Ho. apply dispatch_quiet; assumption.
Qed.

End LifecycleTheorem.

(** ** Pointer events when [mouseInteraction] is disabled *)

Section Noninterference.

Variable rand : nat -> R.

Lemma update_ignores_mouse (m1 m2 : Mouse.t) (o : Options) (c : Canvas)
      (p : Particle.t) (k : nat) :
  mouseInteraction o = false ->
  Particle.update m1 o c p rand k = Particle.update m2 o c p rand k.
Proof.
  intros H. rewrite !update_eq. unfold Particle.updateWith.
  rewrite !mouseInteract_absent by (right; exact H). reflexivity.
Qed.

Lemma forEachParticle_ignores_mouse (m1 m2 : Mouse.t) (o : Options) (c : Canvas)
      (ps : list Particle.t) (k : nat) :
  mouseInteraction o = false ->
  forEachParticle m1 o c ps rand k = forEachParticle m2 o c ps rand k.
Proof.
  intros H. revert k. induction ps as [|p rest IH]; intros k; [reflexivity|].
  cbn [forEachParticle]. unfold bind at 1 3.
  rewrite (update_ignores_mouse m1 m2 o c p k H).
  destruct (Particle.update m2 o c p rand k) as [p' k'].
  unfold bind. rewrite IH. reflexivity.
Qed.

Lemma forget_mouse_eq (w1 w2 : World) :
  forget_mouse w1 = forget_mouse w2 ->
  exists cv ps aid r o m1 m2 h,
    w1 = mkWorld (mk cv ps aid r o m1) h /\ w2 = mkWorld (mk cv ps aid r o m2) h.
Proof.
  destruct w1 as [[cv ps aid r o m1] h], w2 as [[cv' ps' aid' r' o' m2] h'].
  unfold forget_mouse, set_mouse. cbn. intros H. injection H as -> -> -> -> -> ->.
  exists cv', ps', aid', r', o', m1, m2, h'. auto.
Qed.

Lemma animate_forgets (w1 w2 : World) :
  mouseInteraction (options (sys w1)) = false ->
  forget_mouse w1 = forget_mouse w2 ->
  forget_mouse (animate rand w1) = forget_mouse (animate rand w2).
Proof.
  intros Hoff H.
  destruct (forget_mouse_eq w1 w2 H) as (cv & ps & aid & r & o & m1 & m2 & h & -> & ->).
  cbn in Hoff. unfold animate. cbn [sys host isRunning mouse options canvas particles].
  destruct r; cbn [negb]; [ | reflexivity].
  rewrite (forEachParticle_ignores_mouse m1 m2 o cv ps (draws h) Hoff).
  reflexivity.
Qed.

Lemma start_forgets (w1 w2 : World) :
  mouseInteraction (options (sys w1)) = false ->
  forget_mouse w1 = forget_mouse w2 ->
  forget_mouse (start rand w1) = forget_mouse (start rand w2).
Proof.
  intros Hoff H.
  destruct (forget_mouse_eq w1 w2 H) as (cv & ps & aid & r & o & m1 & m2 & h & -> & ->).
  unfold start. cbn [sys host isRunning]. destruct r; [exact H|].
  apply animate_forgets; [exact Hoff | reflexivity].
Qed.

Lemma stop_forgets (w1 w2 : World) :
  forget_mouse w1 = forget_mouse w2 ->
  forget_mouse (stop w1) = forget_mouse (stop w2).
Proof.
  intros H.
  destruct (forget_mouse_eq w1 w2 H) as (cv & ps & aid & r & o & m1 & m2 & h & -> & ->).
  unfold stop. cbn [sys host animationId set_isRunning].
  destruct aid as [id|]; [destruct (Nat.eqb id 0)|]; reflexivity.
Qed.

Lemma frame_forgets (cbs : list nat) (w1 w2 : World) :
  mouseInteraction (options (sys w1)) = false ->
  forget_mouse w1 = forget_mouse w2 ->
  forget_mouse (fold_left (fun w _ => animate rand w) cbs w1)
  = forget_mouse (fold_left (fun w _ => animate rand w) cbs w2).
Proof.
  revert w1 w2. induction cbs as [|cb rest IH]; intros w1 w2 Hoff H; [exact H|].
  cbn [fold_left]. apply IH.
  - rewrite animate_options. exact Hoff.
  - apply animate_forgets; assumption.
Qed.

Lemma dispatch_forgets (w1 w2 : World) (e : Event) :
  mouseInteraction (options (sys w1)) = false ->
  forget_mouse w1 = forget_mouse w2 ->
  pointer_event e = false ->
  forget_mouse (dispatch rand w1 e) = forget_mouse (dispatch rand w2 e).
Proof.
  intros Hoff H He.
  destruct e as [rw rh | mx my | | hid | entries | ]; try discriminate; cbn [dispatch].
  - destruct (forget_mouse_eq w1 w2 H) as (cv & ps & aid & r & o & m1 & m2 & h & -> & ->).
    reflexivity.
  - destruct hid.
    + apply stop_forgets.
      destruct (forget_mouse_eq w1 w2 H) as (cv & ps & aid & r & o & m1 & m2 & h & -> & ->).
      reflexivity.
    + apply start_forgets; [exact Hoff|].
      destruct (forget_mouse_eq w1 w2 H) as (cv & ps & aid & r & o & m1 & m2 & h & -> & ->).
      reflexivity.
  - clear He. revert w1 w2 Hoff H.
    induction entries as [|b rest IH]; intros w1 w2 Hoff H; [exact H|].
    cbn [fold_left]. apply IH.
    + unfold onIntersection.
      destruct b; cbv beta zeta iota; [rewrite start_options | rewrite stop_options]; exact Hoff.
    + unfold onIntersection.
      destruct (forget_mouse_eq w1 w2 H) as (cv & ps & aid & r & o & m1 & m2 & h & -> & ->).
      destruct b; [apply start_forgets; [exact Hoff | reflexivity]
                  | apply stop_forgets; reflexivity].
  - assert (Hf : frames (host w1) = frames (host w2)).
    { destruct (forget_mouse_eq w1 w2 H) as (cv & ps & aid & r & o & m1 & m2 & h & -> & ->).
      reflexivity. }
    rewrite <- Hf.
    assert (H0 : forget_mouse (mkWorld (sys w1) (set_frames [] (host w1)))
                 = forget_mouse (mkWorld (sys w2) (set_frames [] (host w2)))).
    { destruct (forget_mouse_eq w1 w2 H) as (cv & ps & aid & r & o & m1 & m2 & h & -> & ->).
      reflexivity. }
    assert (Hoff0 : mouseInteraction
                      (options (sys (mkWorld (sys w1) (set_frames [] (host w1))))) = false)
      by exact Hoff.
    apply frame_forgets; assumption.
Qed.

(** A pointer event touches nothing but [mouse]. *)
Lemma dispatch_pointer (wd : World) (e : Event) :
  pointer_event e = true -> forget_mouse (dispatch rand wd e) = forget_mouse wd.
Proof.
  destruct e as [rw rh | mx my | | hid | entries | ]; try discriminate; intros _;
    cbn [dispatch]; destruct (mouseBound (host wd)); reflexivity.
Qed.

Lemma run_erased (trace : list Event) (w1 w2 : World) :
  mouseInteraction (options (sys w1)) = false ->
  forget_mouse w1 = forget_mouse w2 ->
  forget_mouse (run rand w1 trace) = forget_mouse (run rand w2 (erase_pointer trace)).
Proof.
  revert w1 w2. induction trace as [|e rest IH]; intros w1 w2 Hoff H; [exact H|].
  cbn [run fold_left erase_pointer filter].
  destruct (pointer_event e) eqn:He; cbn [negb].
  - apply IH.
    + rewrite dispatch_options. exact Hoff.
    + rewrite dispatch_pointer by exact He. exact H.
  - cbn [fold_left]. apply IH.
    + rewrite dispatch_options. exact Hoff.
    + apply dispatch_forgets; assumption.
Qed.

End Noninterference.

(** ** [connectParticles] *)

Lemma distance_nonneg (p q : Particle.t) : 0 <= distance p q.
Proof. unfold distance. apply sqrt_pos. Qed.

(** The division of line 148 is reached only with a positive divisor. *)
Lemma line_divisor_positive (o : Options) (p q : Particle.t) :
  Rltb (distance p q) (lineDistance o) = true -> 0 < lineDistance o.
Proof.
  intros H. apply Rltb_true in H. pose proof (distance_nonneg p q). lra.
Qed.

Lemma connectPair_near (o : Options) (ps : list Particle.t) (i j : nat)
      (pi pj : Particle.t) :
  nth_error ps i = Some pi -> nth_error ps j = Some pj ->
  distance pi pj < lineDistance o ->
  connectPair o ps i j = [edge_of o i j pi pj].
Proof.
  intros Hi Hj Hd. unfold connectPair. rewrite Hi, Hj.
  apply Rltb_true in Hd. rewrite Hd. reflexivity.
Qed.

Lemma connectPair_far (o : Options) (ps : list Particle.t) (i j : nat)
      (pi pj : Particle.t) :
  nth_error ps i = Some pi -> nth_error ps j = Some pj ->
  lineDistance o <= distance pi pj ->
  connectPair o ps i j = [].
Proof.
  intros Hi Hj Hd. unfold connectPair. rewrite Hi, Hj.
  apply Rltb_false in Hd. rewrite Hd. reflexivity.
Qed.

Lemma in_connectPair (o : Options) (ps : list Particle.t) (i j : nat) (e : Edge) :
  In e (connectPair o ps i j) <->
  exists pi pj, nth_error ps i = Some pi /\ nth_error ps j = Some pj
                /\ distance pi pj < lineDistance o /\ e = edge_of o i j pi pj.
Proof.
  unfold connectPair. split.
  - destruct (nth_error ps i) as [pi|]; [ | intros []].
    destruct (nth_error ps j) as [pj|]; [ | intros []].
    destruct (Rltb (distance pi pj) (lineDistance o)) eqn:Hd; [ | intros []].
    intros [<- | []]. exists pi, pj. apply Rltb_true in Hd. auto.
  - intros (pi & pj & Hi & Hj & Hd & ->). rewrite Hi, Hj.
    apply Rltb_true in Hd. rewrite Hd. left. reflexivity.
Qed.

(** The loops visit exactly the pairs [i < j < length]. *)
Lemma in_connectParticles (o : Options) (ps : list Particle.t) (e : Edge) :
  In e (connectParticles o ps) <->
  exists i j, (i < j < List.length ps)%nat /\ In e (connectPair o ps i j).
Proof.
  unfold connectParticles. rewrite in_flat_map. split.
  - intros (i & Hi & He). apply in_flat_map in He. destruct He as (j & Hj & He).
    apply in_seq in Hi. apply in_seq in Hj. exists i, j. split; [lia | exact He].
  - intros (i & j & Hij & He). exists i. split; [apply in_seq; lia|].
    apply in_flat_map. exists j. split; [apply in_seq; lia | exact He].
Qed.

Lemma NoDup_map_flat_map {A B C : Type} (h : B -> C) (f : A -> list B) (l : list A) :
  NoDup l ->
  (forall a, In a l -> NoDup (map h (f a))) ->
  (forall a a' b b', In a l -> In a' l -> In b (f a) -> In b' (f a') ->
                     h b = h b' -> a = a') ->
  NoDup (map h (flat_map f l)).
Proof.
  induction l as [|a l IH]; intros Hnd Hin Hinj; [constructor|].
  cbn [flat_map]. rewrite map_app. inversion Hnd as [|a0 l0 Hnotin Hnd']; subst.
  apply NoDup_app.
  - apply Hin. left. reflexivity.
  - apply IH; [exact Hnd' | | ].
    + intros a' Ha'. apply Hin. right. exact Ha'.
    + intros a1 a2 b1 b2 H1 H2. apply Hinj; right; assumption.
  - intros c Hc Hc'. apply in_map_iff in Hc. destruct Hc as (b & Hb & Hbin).
    apply in_map_iff in Hc'. destruct Hc' as (b' & Hb' & Hbin').
    apply in_flat_map in Hbin'. destruct Hbin' as (a' & Ha' & Hbin').
    assert (a = a').
    { apply (Hinj a a' b b'); [left; reflexivity | right; exact Ha' | exact Hbin
                               | exact Hbin' | congruence]. }
    subst a'. contradiction.
Qed.

Lemma connectPair_indices (o : Options) (ps : list Particle.t) (i j : nat) (e : Edge) :
  In e (connectPair o ps i j) -> e_i e = i /\ e_j e = j.
Proof.
  intros He. apply in_connectPair in He.
  destruct He as (pi & pj & _ & _ & _ & ->). split; reflexivity.
Qed.

(** No pair of indices is connected twice. *)
Lemma connectParticles_NoDup (o : Options) (ps : list Particle.t) :
  NoDup (map (fun e => (e_i e, e_j e)) (connectParticles o ps)).
Proof.
  unfold connectParticles. apply NoDup_map_flat_map.
  - apply seq_NoDup.
  - intros i _. apply NoDup_map_flat_map.
    + apply seq_NoDup.
    + intros j _. unfold connectPair.
      destruct (nth_error ps i); [ | constructor].
      destruct (nth_error ps j); [ | constructor].
      destruct (Rltb _ _); [ | constructor].
      cbn. constructor; [intros [] | constructor].
    + intros j j' e e' _ _ He He' Heq.
      apply connectPair_indices in He. apply connectPair_indices in He'.
      destruct He as [_ <-]. destruct He' as [_ <-]. congruence.
  - intros i i' e e' _ _ He He' Heq.
    apply in_flat_map in He. destruct He as (j & _ & He).
    apply in_flat_map in He'. destruct He' as (j' & _ & He').
    apply connectPair_indices in He. apply connectPair_indices in He'.
    destruct He as [<- _]. destruct He' as [<- _]. congruence.
Qed.

(** The alpha of an edge falls as the distance grows. *)
Lemma alpha_decreasing (l d1 d2 : R) :
  0 <= d1 -> d1 < d2 -> d2 < l -> (1 - d2 / l) * 0.8 < (1 - d1 / l) * 0.8.
Proof.
  intros H0 H12 H2. assert (Hl : 0 < l) by lra.
  assert (Hinv : 0 < / l) by (apply Rinv_0_lt_compat; exact Hl).
  unfold Rdiv. nra.
Qed.

(** The edges of [connectParticles], by the [distance] the code computes. *)
Lemma edges_by_computed_distance (o : Options) (ps : list Particle.t) :
  (forall i j pi pj,
      (i < j)%nat -> nth_error ps i = Some pi -> nth_error ps j = Some pj ->
      (forall e, In e (connectParticles o ps) /\ e_i e = i /\ e_j e = j <->
                 distance pi pj < lineDistance o
                 /\ e = mkEdge i j (Particle.x pi, Particle.y pi)
                               (Particle.x pj, Particle.y pj)
                               ((1 - distance pi pj / lineDistance o) * 0.8)
                               (or_num (lineWidth o) 1.5))
      /\ (lineDistance o <= distance pi pj ->
          forall e, In e (connectParticles o ps) -> ~ (e_i e = i /\ e_j e = j)))
  /\ (forall e, In e (connectParticles o ps) ->
        exists pi pj, (e_i e < e_j e < List.length ps)%nat
                      /\ nth_error ps (e_i e) = Some pi /\ nth_error ps (e_j e) = Some pj
                      /\ distance pi pj < lineDistance o
                      /\ e_alpha e = (1 - distance pi pj / lineDistance o) * 0.8)
  /\ NoDup (map (fun e => (e_i e, e_j e)) (connectParticles o ps))
  /\ (forall d1 d2, 0 <= d1 -> d1 < d2 -> d2 < lineDistance o ->
        (1 - d2 / lineDistance o) * 0.8 < (1 - d1 / lineDistance o) * 0.8).
Proof.
  assert (Hall : forall e, In e (connectParticles o ps) ->
            exists pi pj, (e_i e < e_j e < List.length ps)%nat
                      /\ nth_error ps (e_i e) = Some pi /\ nth_error ps (e_j e) = Some pj
                      /\ distance pi pj < lineDistance o
                      /\ e = edge_of o (e_i e) (e_j e) pi pj).
  { intros e He. apply in_connectParticles in He. destruct He as (i & j & Hij & He).
    apply in_connectPair in He. destruct He as (pi & pj & Hi & Hj & Hd & ->).
    exists pi, pj. cbn [e_i e_j edge_of]. auto. }
  split; [ | split; [ | split; [apply connectParticles_NoDup
                                | intros d1 d2; apply alpha_decreasing] ] ].
  2:{ intros e He. destruct (Hall e He) as (pi & pj & Hij & Hi & Hj & Hd & Heq).
      exists pi, pj. repeat (split; [assumption|]).
      rewrite Heq. reflexivity. }
  intros i j pi pj Hij Hi Hj.
  assert (Hlen : (j < List.length ps)%nat).
  { apply nth_error_Some. rewrite Hj. discriminate. }
  change (mkEdge i j (Particle.x pi, Particle.y pi) (Particle.x pj, Particle.y pj)
                 ((1 - distance pi pj / lineDistance o) * 0.8)
                 (or_num (lineWidth o) 1.5))
    with (edge_of o i j pi pj).
  split.
  - intros e. split.
    + intros (He & Hei & Hej). destruct (Hall e He) as (qi & qj & _ & Hqi & Hqj & Hd & Heq).
      rewrite Hei in Hqi. rewrite Hej in Hqj. rewrite Hi in Hqi. rewrite Hj in Hqj.
      injection Hqi as <-. injection Hqj as <-. rewrite Hei, Hej in Heq. auto.
    + intros (Hd & ->). split; [ | split; reflexivity].
      apply in_connectParticles. exists i, j. split; [lia|].
      rewrite (connectPair_near o ps i j pi pj Hi Hj Hd). left. reflexivity.
  - intros Hd e He (Hei & Hej).
    destruct (Hall e He) as (qi & qj & _ & Hqi & Hqj & Hd' & _).
    rewrite Hei in Hqi. rewrite Hej in Hqj. rewrite Hi in Hqi. rewrite Hj in Hqj.
    injection Hqi as <-. injection Hqj as <-. lra.
Qed.

(** What lines 143-145 compute is the Euclidean distance. *)
Lemma distance_euclidean (p q : Particle.t) :
  distance p q
  = sqrt ((Particle.x p - Particle.x q) ^ 2 + (Particle.y p - Particle.y q) ^ 2).
Proof. unfold distance. f_equal. ring. Qed.

(** C7, in exact arithmetic.  For every pair of particles [i < j], with [d]
    their Euclidean distance [sqrt ((xi - xj)^2 + (yi - yj)^2)]: an edge
    between them is among the edges of [connectParticles] exactly when [d] is
    below [lineDistance], and then it is the one edge with alpha
    [(1 - d / lineDistance) * 0.8]; at distance [lineDistance] or more the
    pair has no edge.  Every edge drawn belongs to such a pair, and no pair
    is connected twice.  The alpha is strictly decreasing in the distance. *)
Theorem edges_by_distance (o : Options) (ps : list Particle.t) :
  (forall i j pi pj d,
      (i < j)%nat -> nth_error ps i = Some pi -> nth_error ps j = Some pj ->
      d = sqrt ((Particle.x pi - Particle.x pj) ^ 2
                + (Particle.y pi - Particle.y pj) ^ 2) ->
      (forall e, In e (connectParticles o ps) /\ e_i e = i /\ e_j e = j <->
                 d < lineDistance o
                 /\ e = mkEdge i j (Particle.x pi, Particle.y pi)
                               (Particle.x pj, Particle.y pj)
                               ((1 - d / lineDistance o) * 0.8)
                               (or_num (lineWidth o) 1.5))
      /\ (lineDistance o <= d ->
          forall e, In e (connectParticles o ps) -> ~ (e_i e = i /\ e_j e = j)))
  /\ (forall e, In e (connectParticles o ps) ->
        exists pi pj d,
          (e_i e < e_j e < List.length ps)%nat
          /\ nth_error ps (e_i e) = Some pi /\ nth_error ps (e_j e) = Some pj
          /\ d = sqrt ((Particle.x pi - Particle.x pj) ^ 2
                       + (Particle.y pi - Particle.y pj) ^ 2)
          /\ d < lineDistance o
          /\ e_alpha e = (1 - d / lineDistance o) * 0.8)
  /\ NoDup (map (fun e => (e_i e, e_j e)) (connectParticles o ps))
  /\ (forall d1 d2, 0 <= d1 -> d1 < d2 -> d2 < lineDistance o ->
        (1 - d2 / lineDistance o) * 0.8 < (1 - d1 / lineDistance o) * 0.8).
Proof.
  destruct (edges_by_computed_distance o ps) as (Hpair & Hall & Hnd & Hdec).
  split; [ | split; [ | split; [exact Hnd | exact Hdec] ] ].
  - intros i j pi pj d Hij Hi Hj Hd.
    rewrite <- distance_euclidean in Hd. subst d.
    apply (Hpair i j pi pj Hij Hi Hj).
  - intros e He. destruct (Hall e He) as (pi & pj & Hij & Hi & Hj & Hd & Ha).
    exists pi, pj, (distance pi pj).
    repeat (split; [assumption|]).
    split; [apply distance_euclidean | split; assumption].
Qed.

(** Three particles: the loops visit (0,1), (0,2), (1,2) in this order. *)
Lemma connectParticles_three (o : Options) (p0 p1 p2 : Particle.t) :
  connectParticles o [p0; p1; p2]
  = connectPair o [p0; p1; p2] 0 1 ++ connectPair o [p0; p1; p2] 0 2
    ++ connectPair o [p0; p1; p2] 1 2.
Proof.
  unfold connectParticles. cbn [List.length seq flat_map Nat.add Nat.sub].
  rewrite !app_nil_r. rewrite <- app_assoc. reflexivity.
Qed.

(** ** Ticks keep the collection; only a reseed replaces it *)

Section Frame.

Variable rand : nat -> R.

Lemma animate_originalRadius (wd : World) :
  map Particle.originalRadius (particles (sys (animate rand wd)))
  = map Particle.originalRadius (particles (sys wd)).
Proof.
  rewrite animate_particles. destruct (isRunning (sys wd)); [ | reflexivity].
  eapply Forall2_updated_originalRadius. apply forEachParticle_updates.
Qed.

Lemma start_originalRadius (wd : World) :
  map Particle.originalRadius (particles (sys (start rand wd)))
  = map Particle.originalRadius (particles (sys wd)).
Proof.
  unfold start. destruct (isRunning (sys wd)); [reflexivity|].
  rewrite animate_originalRadius. reflexivity.
Qed.

Lemma stop_originalRadius (wd : World) :
  map Particle.originalRadius (particles (sys (stop wd)))
  = map Particle.originalRadius (particles (sys wd)).
Proof. rewrite stop_particles. reflexivity. Qed.

Lemma dispatch_originalRadius (wd : World) (e : Event) :
  match e with
  | Resized _ _ => True
  | _ => map Particle.originalRadius (particles (sys (dispatch rand wd e)))
         = map Particle.originalRadius (particles (sys wd))
  end.
Proof.
  destruct e as [rw rh | mx my | | h | entries | ]; cbn [dispatch].
  - exact I.
  - destruct (mouseBound (host wd)); reflexivity.
  - destruct (mouseBound (host wd)); reflexivity.
  - destruct h; [rewrite stop_originalRadius | rewrite start_originalRadius]; reflexivity.
  - apply (intersection_keeps rand
             (fun w => map Particle.originalRadius (particles (sys w))));
      [apply start_originalRadius | apply stop_originalRadius | reflexivity].
  - rewrite (frame_keeps rand (fun w => map Particle.originalRadius (particles (sys w))));
      [reflexivity | apply animate_originalRadius].
Qed.

Lemma map_length_eq {A B : Type} (f : A -> B) (l l' : list A) :
  map f l = map f l' -> List.length l = List.length l'.
Proof. intros H. rewrite <- (length_map f l), H. apply length_map. Qed.

Lemma construct_length (el : Canvas) (rw rh : R) (raw : RawOptions) (h : Host) :
  List.length (particles (sys (construct rand el rw rh raw h)))
  = Z.to_nat (particleCount (resolveOptions raw)).
Proof.
  unfold construct, init.
  rewrite (map_length_eq _ _ _ (start_originalRadius _)).
  unfold bindEvents. cbn [sys]. rewrite createParticles_length. reflexivity.
Qed.

End Frame.

(** C1.  The collection [createParticles] builds has exactly [particleCount]
    particles, for every configured count (an integer, not negative): in the
    system the constructor returns, where an explicit count, [0] included,
    overrides the default of [80]; and after every reseed.  A count of [0]
    gives the empty collection. *)
Theorem seed_count (rand : nat -> R) (raw : RawOptions) :
  let n := match raw_particleCount raw with Some n => n | None => 80%Z end in
  (0 <= n)%Z ->
  (forall el rw rh h,
      Z.of_nat (List.length (particles (sys (construct rand el rw rh raw h)))) = n)
  /\ (forall wd, options (sys wd) = resolveOptions raw ->
        Z.of_nat (List.length (particles (sys (createParticles rand wd)))) = n
        /\ (n = 0%Z -> particles (sys (createParticles rand wd)) = [])).
Proof.
  intros n Hn.
  assert (Hres : particleCount (resolveOptions raw) = n)
    by apply resolveOptions_particleCount.
  split.
  - intros el rw rh h. rewrite construct_length, Hres. lia.
  - intros wd Ho.
    assert (Hlen : List.length (particles (sys (createParticles rand wd))) = Z.to_nat n).
    { rewrite createParticles_length, Ho, Hres. reflexivity. }
    split; [rewrite Hlen; lia|].
    intros H0. rewrite H0 in Hlen. apply length_zero_iff_nil. exact Hlen.
Qed.

(** C10.  A tick changes no [originalRadius] and neither adds nor removes a
    particle: the list of the particles' original radii is the same after
    [update], after [animate] and after every event other than the reseed;
    of the system's other fields a tick changes only [animationId].
    The reseed builds its collection from an empty one: nothing of the old
    collection reaches the new one. *)
Theorem tick_keeps_collection (rand : nat -> R) (wd : World) (e : Event) :
  (forall m o c p k,
      Particle.originalRadius (fst (Particle.update m o c p rand k))
      = Particle.originalRadius p)
  /\ map Particle.originalRadius (particles (sys (animate rand wd)))
     = map Particle.originalRadius (particles (sys wd))
  /\ List.length (particles (sys (animate rand wd))) = List.length (particles (sys wd))
  /\ (options (sys (animate rand wd)), canvas (sys (animate rand wd)),
      mouse (sys (animate rand wd)), isRunning (sys (animate rand wd)))
     = (options (sys wd), canvas (sys wd), mouse (sys wd), isRunning (sys wd))
  /\ match e with
     | Resized rw rh =>
       particles (sys (dispatch rand wd e))
       = fst (createLoop rand {| width := rw; height := rh |} (options (sys wd)) []
                         (draws (host wd)) 0%Z)
     | _ => map Particle.originalRadius (particles (sys (dispatch rand wd e)))
            = map Particle.originalRadius (particles (sys wd))
     end
  /\ (forall old,
        createParticles rand (mkWorld (set_particles old (sys wd)) (host wd))
        = createParticles rand wd).
Proof.
  split; [ | split; [ | split; [ | split; [ | split ] ] ] ].
  - intros m o c p k. rewrite update_eq. apply originalRadius_updateWith.
  - apply animate_originalRadius.
  - apply (map_length_eq Particle.originalRadius), animate_originalRadius.
  - rewrite animate_options, animate_canvas, animate_mouse, animate_isRunning.
    reflexivity.
  - pose proof (dispatch_originalRadius rand wd e) as H.
    destruct e; try exact H. reflexivity.
  - intros old. reflexivity.
Qed.

(** C9.  With [mouseInteraction] disabled, two runs from worlds that differ
    at most in the pointer state, over traces that differ at most in their
    pointer events, and with the same random numbers, end with the same
    particles (position, velocity, radius) and have drawn the same. *)
Theorem pointer_has_no_effect_when_disabled (rand : nat -> R) (w1 w2 : World)
        (t1 t2 : list Event) :
  mouseInteraction (options (sys w1)) = false ->
  forget_mouse w1 = forget_mouse w2 ->
  erase_pointer t1 = erase_pointer t2 ->
  particles (sys (run rand w1 t1)) = particles (sys (run rand w2 t2))
  /\ output (host (run rand w1 t1)) = output (host (run rand w2 t2)).
Proof.
  intros Hoff H Ht.
  assert (Hoff2 : mouseInteraction (options (sys w2)) = false).
  { replace (options (sys w2)) with (options (sys (forget_mouse w2))) by reflexivity.
    rewrite <- H. exact Hoff. }
  pose proof (run_erased rand t1 w1 w2 Hoff H) as H1.
  pose proof (run_erased rand t2 w2 w2 Hoff2 eq_refl) as H2.
  rewrite Ht, <- H2 in H1.
  split.
  - change (particles (sys (forget_mouse (run rand w1 t1)))
            = particles (sys (forget_mouse (run rand w2 t2)))).
    rewrite H1. reflexivity.
  - change (output (host (forget_mouse (run rand w1 t1)))
            = output (host (forget_mouse (run rand w2 t2)))).
    rewrite H1. reflexivity.
Qed.

(** The lifecycle as the code has it.  The constructor ends in [start()], so a
    constructed system is Running.  From then on the two signals act
    independently: from Stopped the system becomes Running exactly on an
    event of [starts] (the page becoming visible, or an intersection callback
    whose last entry is intersecting), whatever the other signal says; an
    event of [stops] (page hidden, or last entry not intersecting) leaves it
    Stopped with [animationId] null and no frame pending; while Stopped no
    tick is drawn until an event calls [start()]; and while Running every
    frame draws one tick and requests the next. *)
Lemma lifecycle_by_events (rand : nat -> R) (wd : World) :
  reachable rand wd ->
  (forall el rw rh raw h, isRunning (sys (construct rand el rw rh raw h)) = true)
  /\ (forall e, isRunning (sys wd) = false ->
        isRunning (sys (dispatch rand wd e)) = starts e)
  /\ (forall e, stops e = true ->
        isRunning (sys (dispatch rand wd e)) = false
        /\ animationId (sys (dispatch rand wd e)) = None
        /\ frames (host (dispatch rand wd e)) = [])
  /\ (forall trace, isRunning (sys wd) = false -> forallb quiet trace = true ->
        isRunning (sys (run rand wd trace)) = false
        /\ output (host (run rand wd trace)) = output (host wd))
  /\ (isRunning (sys wd) = true ->
      isRunning (sys (dispatch rand wd AnimationFrame)) = true
      /\ frames (host (dispatch rand wd AnimationFrame)) = [S (lastHandle (host wd))]
      /\ exists drawn,
           output (host (dispatch rand wd AnimationFrame))
           = output (host wd)
             ++ ClearRect (width (canvas (sys wd))) (height (canvas (sys wd))) :: drawn).
Proof.
  intros Hreach. pose proof (reachable_scheduled rand wd Hreach) as Hs.
  split; [ | split; [ | split; [ | split ] ] ].
  5:{ intros E. apply (frame_while_running rand wd Hs E). }
  - intros. apply construct_isRunning.
  - intros e E. apply dispatch_starts. exact E.
  - intros e He. apply dispatch_stops; assumption.
  - intros trace E Hq. apply run_quiet; assumption.
Qed.

Lemma hero_out_of_view_reachable : reachable half hero_out_of_view.
Proof.
  exists surface, 300, 150, heroOptions, 0%nat, 0%nat, false, true,
    [Intersection [false]; VisibilityChange true].
  reflexivity.
Qed.

(** ** The canvas nobody sees *)

Section Unseen.

Variable rand : nat -> R.

Lemma reachable_run (wd : World) (trace : list Event) :
  reachable rand wd -> reachable rand (run rand wd trace).
Proof.
  revert wd. induction trace as [|e rest IH]; intros wd H; [exact H|].
  cbn [run fold_left]. apply IH, reachable_dispatch, H.
Qed.

Lemma run_frames_only (n : nat) (wd : World) :
  isRunning (sys (run rand wd (repeat AnimationFrame n))) = isRunning (sys wd)
  /\ inView (host (run rand wd (repeat AnimationFrame n))) = inView (host wd)
  /\ hidden (host (run rand wd (repeat AnimationFrame n))) = hidden (host wd).
Proof.
  revert wd. induction n as [|n IH]; intros wd; [auto|].
  cbn [repeat run fold_left]. destruct (IH (dispatch rand wd AnimationFrame)) as (H1 & H2 & H3).
  unfold run in H1, H2, H3. rewrite H1, H2, H3.
  rewrite dispatch_isRunning, dispatch_inView, dispatch_hidden. auto.
Qed.

(** A system that some event started while its canvas is out of view, or
    while the page is hidden, runs a tick on every frame from then on. *)
Lemma keeps_animating (wd : World) (n : nat) :
  reachable rand wd -> isRunning (sys wd) = true ->
  let later := run rand wd (repeat AnimationFrame n) in
  isRunning (sys later) = true
  /\ inView (host later) = inView (host wd)
  /\ hidden (host later) = hidden (host wd)
  /\ exists drawn,
       output (host (dispatch rand later AnimationFrame))
       = output (host later)
         ++ ClearRect (width (canvas (sys later))) (height (canvas (sys later)))
         :: drawn.
Proof.
  intros Hr E later.
  destruct (run_frames_only n wd) as (H1 & H2 & H3). fold later in H1, H2, H3.
  rewrite E in H1.
  split; [exact H1 | split; [exact H2 | split; [exact H3 | ] ] ].
  assert (Hs : scheduled later) by (apply reachable_scheduled with rand, reachable_run, Hr).
  destruct (frame_while_running rand later Hs H1) as (_ & _ & _ & Hout). exact Hout.
Qed.

Lemma started_by_visibility (wd : World) :
  reachable rand wd ->
  let shown := dispatch rand wd (VisibilityChange false) in
  reachable rand shown
  /\ isRunning (sys shown) = true
  /\ inView (host shown) = inView (host wd)
  /\ hidden (host shown) = false
  /\ (exists id, animationId (sys shown) = Some id /\ frames (host shown) = [id])
  /\ (isRunning (sys wd) = false ->
      exists drawn,
        output (host shown)
        = output (host wd)
          ++ ClearRect (width (canvas (sys wd))) (height (canvas (sys wd))) :: drawn).
Proof.
  intros Hr shown.
  assert (Hrs : reachable rand shown) by (apply reachable_dispatch, Hr).
  assert (E : isRunning (sys shown) = true)
    by (unfold shown; rewrite dispatch_isRunning; reflexivity).
  split; [exact Hrs | split; [exact E | split; [ | split; [ | split ] ] ] ].
  - unfold shown. rewrite dispatch_inView. reflexivity.
  - unfold shown. rewrite dispatch_hidden. reflexivity.
  - pose proof (reachable_scheduled rand shown Hrs) as Hs. unfold scheduled in Hs.
    rewrite E in Hs. destruct Hs as (id & _ & Ha & Hf). exists id. auto.
  - intros E0. unfold shown. cbn [dispatch]. unfold start.
    cbn [sys host]. rewrite E0. rewrite animate_output.
    cbn [sys host isRunning set_isRunning canvas output set_hidden]. eauto.
Qed.

Lemma started_by_intersection (wd : World) :
  reachable rand wd ->
  let seen := dispatch rand wd (Intersection [true]) in
  reachable rand seen
  /\ isRunning (sys seen) = true
  /\ hidden (host seen) = hidden (host wd)
  /\ inView (host seen) = true.
Proof.
  intros Hr seen.
  split; [apply reachable_dispatch, Hr | ].
  unfold seen. rewrite dispatch_isRunning, dispatch_hidden, dispatch_inView. auto.
Qed.

(** A stopped system whose canvas is out of view and whose page is hidden. *)
Lemma out_of_view_and_hidden :
  let wd := run rand (construct rand surface 300 150 heroOptions (page 0 0 false true))
                [Intersection [false]; VisibilityChange true] in
  reachable rand wd /\ isRunning (sys wd) = false
  /\ inView (host wd) = false /\ hidden (host wd) = true.
Proof.
  intros wd.
  split.
  - exists surface, 300, 150, heroOptions, 0%nat, 0%nat, false, true,
      [Intersection [false]; VisibilityChange true]. reflexivity.
  - unfold wd, run. cbn [fold_left].
    rewrite dispatch_isRunning, dispatch_inView, dispatch_hidden, dispatch_inView.
    auto.
Qed.

End Unseen.

(** C2: the code animates a canvas nobody sees.  Each of the two listeners
    calls [start()] on its own signal without consulting the other one (lines
    87-93 and 96-104), although their comments say "pause when not visible"
    and "only animate when visible".  So in every reachable state whose canvas
    is out of view, the page becoming visible leaves the system Running with
    the canvas still out of view: a frame is pending, a tick is drawn at once
    if the system was stopped, and every later frame draws another tick.  In
    the same way an intersecting entry starts the system while the page is
    hidden.  The lifecycle of the specification does not hold of the code. *)
Theorem animates_out_of_view (rand : nat -> R) (wd : World) :
  reachable rand wd ->
  (inView (host wd) = false ->
   let shown := dispatch rand wd (VisibilityChange false) in
   isRunning (sys shown) = true
   /\ inView (host shown) = false
   /\ hidden (host shown) = false
   /\ (exists id, animationId (sys shown) = Some id /\ frames (host shown) = [id])
   /\ (isRunning (sys wd) = false ->
       exists drawn,
         output (host shown)
         = output (host wd)
           ++ ClearRect (width (canvas (sys wd))) (height (canvas (sys wd))) :: drawn)
   /\ (forall n,
         let later := run rand shown (repeat AnimationFrame n) in
         isRunning (sys later) = true
         /\ inView (host later) = false
         /\ exists drawn,
              output (host (dispatch rand later AnimationFrame))
              = output (host later)
                ++ ClearRect (width (canvas (sys later))) (height (canvas (sys later)))
                :: drawn))
  /\ (hidden (host wd) = true ->
      let seen := dispatch rand wd (Intersection [true]) in
      isRunning (sys seen) = true
      /\ hidden (host seen) = true
      /\ (forall n,
            let later := run rand seen (repeat AnimationFrame n) in
            isRunning (sys later) = true
            /\ hidden (host later) = true
            /\ exists drawn,
                 output (host (dispatch rand later AnimationFrame))
                 = output (host later)
                   ++ ClearRect (width (canvas (sys later)))
                                (height (canvas (sys later)))
                   :: drawn))
  /\ ~ lifecycle_as_specified rand.
Proof.
  intros Hr. split; [ | split ].
  - intros Hview shown.
    destruct (started_by_visibility rand wd Hr) as (Hrs & E & Hv & Hh & Hid & Hout).
    fold shown in Hrs, E, Hv, Hh, Hid, Hout. rewrite Hview in Hv.
    split; [exact E | split; [exact Hv | split; [exact Hh | split; [exact Hid | ] ] ] ].
    split; [exact Hout | ].
    intros n later.
    destruct (keeps_animating rand shown n Hrs E) as (H1 & H2 & _ & H4).
    fold later in H1, H2, H4. rewrite Hv in H2. auto.
  - intros Hhid seen.
    destruct (started_by_intersection rand wd Hr) as (Hrs & E & Hh & _).
    fold seen in Hrs, E, Hh. rewrite Hhid in Hh.
    split; [exact E | split; [exact Hh | ] ].
    intros n later.
    destruct (keeps_animating rand seen n Hrs E) as (H1 & _ & H3 & H4).
    fold later in H1, H3, H4. rewrite Hh in H3. auto.
  - intros Hspec.
    destruct (out_of_view_and_hidden rand) as (Hr0 & E0 & Hv0 & _).
    set (w0 := run rand (construct rand surface 300 150 heroOptions (page 0 0 false true))
                   [Intersection [false]; VisibilityChange true]) in *.
    destruct (started_by_visibility rand w0 Hr0) as (_ & E & Hv & _).
    destruct (Hspec w0 (VisibilityChange false) Hr0 E0) as [Hto _].
    destruct (Hto E) as [Hin _]. rewrite Hv, Hv0 in Hin. discriminate.
Qed.

Lemma animates_out_of_view_witness :
  isRunning (sys (dispatch half hero_out_of_view (VisibilityChange false))) = true
  /\ inView (host (dispatch half hero_out_of_view (VisibilityChange false))) = false
  /\ isRunning (sys (dispatch half hero_out_of_view (Intersection [true]))) = true
  /\ hidden (host (dispatch half hero_out_of_view (Intersection [true]))) = true.
Proof.
  destruct (out_of_view_and_hidden half) as (_ & _ & Hv & Hh).
  destruct (animates_out_of_view half hero_out_of_view hero_out_of_view_reachable)
    as (Hvis & Hint & _).
  destruct (Hvis Hv) as (H1 & H2 & _).
  destruct (Hint Hh) as (H3 & H4 & _).
  auto.
Defined.

(** ** Three collinear particles *)

Lemma distance_on_a_line (a b : R) :
  a <= b -> distance (at_rest a 0) (at_rest b 0) = b - a.
Proof.
  intros Hab. unfold distance, at_rest. cbn [Particle.x Particle.y].
  apply sqrt_lem_1; nra.
Qed.

Lemma three_edges (o : Options) (p0 p1 p2 : Particle.t) :
  distance p0 p1 < lineDistance o -> distance p0 p2 < lineDistance o ->
  distance p1 p2 < lineDistance o ->
  map summary (connectParticles o [p0; p1; p2])
  = [ (0%nat, 1%nat, (1 - distance p0 p1 / lineDistance o) * 0.8);
      (0%nat, 2%nat, (1 - distance p0 p2 / lineDistance o) * 0.8);
      (1%nat, 2%nat, (1 - distance p1 p2 / lineDistance o) * 0.8) ].
Proof.
  intros H01 H02 H12. rewrite connectParticles_three.
  rewrite (connectPair_near o [p0; p1; p2] 0 1 p0 p1 eq_refl eq_refl H01).
  rewrite (connectPair_near o [p0; p1; p2] 0 2 p0 p2 eq_refl eq_refl H02).
  rewrite (connectPair_near o [p0; p1; p2] 1 2 p1 p2 eq_refl eq_refl H12).
  reflexivity.
Qed.

Lemma no_edges (o : Options) (p0 p1 p2 : Particle.t) :
  lineDistance o <= distance p0 p1 -> lineDistance o <= distance p0 p2 ->
  lineDistance o <= distance p1 p2 ->
  connectParticles o [p0; p1; p2] = [].
Proof.
  intros H01 H02 H12. rewrite connectParticles_three.
  rewrite (connectPair_far o [p0; p1; p2] 0 1 p0 p1 eq_refl eq_refl H01).
  rewrite (connectPair_far o [p0; p1; p2] 0 2 p0 p2 eq_refl eq_refl H02).
  rewrite (connectPair_far o [p0; p1; p2] 1 2 p1 p2 eq_refl eq_refl H12).
  reflexivity.
Qed.

(** C3, as the code has it.  Three particles whose pairwise distances are
    50, 90 and 140, in any order of the pairs: with [lineDistance = 150] the
    edges are those of the pairs (0,1), (0,2), (1,2), each with alpha
    [(1 - d / 150) * 0.8] for its distance [d]; for the distances 50, 90 and
    140 these are 8/15, 8/25 and 4/75, which round to 0.533, 0.320 and 0.053.
    With [lineDistance = 40] there is no edge. *)
Theorem three_collinear_particles (o : Options) (p0 p1 p2 : Particle.t) :
  Permutation [distance p0 p1; distance p0 p2; distance p1 p2] [50; 90; 140] ->
  (lineDistance o = 150 ->
   map summary (connectParticles o [p0; p1; p2])
   = [ (0%nat, 1%nat, (1 - distance p0 p1 / 150) * 0.8);
       (0%nat, 2%nat, (1 - distance p0 p2 / 150) * 0.8);
       (1%nat, 2%nat, (1 - distance p1 p2 / 150) * 0.8) ]
   /\ Permutation (map e_alpha (connectParticles o [p0; p1; p2])) [8/15; 8/25; 4/75]
   /\ rounds3 (8/15) 0.533 /\ rounds3 (8/25) 0.320 /\ rounds3 (4/75) 0.053)
  /\ (lineDistance o = 40 -> connectParticles o [p0; p1; p2] = []).
Proof.
  intros Hperm.
  assert (Hin : forall d, In d [distance p0 p1; distance p0 p2; distance p1 p2] ->
                          d = 50 \/ d = 90 \/ d = 140).
  { intros d Hd. apply (Permutation_in _ Hperm) in Hd. cbn in Hd.
    destruct Hd as [<- | [<- | [<- | []]]]; auto. }
  pose proof (Hin _ (or_introl eq_refl)) as H01.
  pose proof (Hin _ (or_intror (or_introl eq_refl))) as H02.
  pose proof (Hin _ (or_intror (or_intror (or_introl eq_refl)))) as H12.
  split.
  - intros Hl.
    assert (Hsum : map summary (connectParticles o [p0; p1; p2])
                   = [ (0%nat, 1%nat, (1 - distance p0 p1 / 150) * 0.8);
                       (0%nat, 2%nat, (1 - distance p0 p2 / 150) * 0.8);
                       (1%nat, 2%nat, (1 - distance p1 p2 / 150) * 0.8) ]).
    { rewrite <- Hl. apply three_edges; rewrite Hl; lra. }
    split; [exact Hsum | split ].
    + replace (map e_alpha (connectParticles o [p0; p1; p2]))
        with (map (fun d => (1 - d / 150) * 0.8)
                  [distance p0 p1; distance p0 p2; distance p1 p2]).
      * replace [8/15; 8/25; 4/75]
          with (map (fun d => (1 - d / 150) * 0.8) [50; 90; 140]).
        -- apply Permutation_map. exact Hperm.
        -- cbn [map].
           replace ((1 - 50 / 150) * 0.8) with (8 / 15) by lra.
           replace ((1 - 90 / 150) * 0.8) with (8 / 25) by lra.
           replace ((1 - 140 / 150) * 0.8) with (4 / 75) by lra.
           reflexivity.
      * replace (map e_alpha (connectParticles o [p0; p1; p2]))
          with (map snd (map summary (connectParticles o [p0; p1; p2])))
          by (rewrite map_map; reflexivity).
        rewrite Hsum. reflexivity.
    + unfold rounds3. repeat split; lra.
  - intros Hl. apply no_edges; rewrite Hl; lra.
Qed.

Lemma collinear_distances :
  distance (at_rest 0 0) (at_rest 50 0) = 50
  /\ distance (at_rest 0 0) (at_rest 140 0) = 140
  /\ distance (at_rest 50 0) (at_rest 140 0) = 90.
Proof.
  rewrite !distance_on_a_line by lra. repeat split; lra.
Qed.

Lemma three_collinear_particles_witness :
  map summary (connectParticles (resolveOptions ctaOptions) collinear)
  = [ (0%nat, 1%nat, (1 - distance (at_rest 0 0) (at_rest 50 0) / 150) * 0.8);
      (0%nat, 2%nat, (1 - distance (at_rest 0 0) (at_rest 140 0) / 150) * 0.8);
      (1%nat, 2%nat, (1 - distance (at_rest 50 0) (at_rest 140 0) / 150) * 0.8) ].
Proof.
  apply (three_collinear_particles (resolveOptions ctaOptions)
           (at_rest 0 0) (at_rest 50 0) (at_rest 140 0)).
  - destruct collinear_distances as (-> & -> & ->). apply perm_skip, perm_swap.
  - reflexivity.
Defined.

(** C3 as stated fails: at the distances 50 and 90 the alphas are 8/15 and
    8/25, which do not round to 0.747 and 0.520. *)
Lemma three_collinear_counterexample :
  map summary (connectParticles (resolveOptions ctaOptions) collinear)
  = [ (0%nat, 1%nat, 8/15); (0%nat, 2%nat, 4/75); (1%nat, 2%nat, 8/25) ]
  /\ lineDistance (resolveOptions ctaOptions) = 150
  /\ distance (at_rest 0 0) (at_rest 50 0) = 50
  /\ distance (at_rest 50 0) (at_rest 140 0) = 90
  /\ ~ rounds3 (8/15) 0.747 /\ ~ rounds3 (8/25) 0.520.
Proof.
  destruct collinear_distances as (H01 & H02 & H12).
  split; [ | split; [reflexivity | split; [exact H01 | split; [exact H12 | ] ] ] ].
  - unfold collinear. rewrite three_edges.
    + rewrite H01, H02, H12.
      cbn [lineDistance resolveOptions ctaOptions spread raw_lineDistance].
      replace ((1 - 50 / 150) * 0.8) with (8 / 15) by lra.
      replace ((1 - 90 / 150) * 0.8) with (8 / 25) by lra.
      replace ((1 - 140 / 150) * 0.8) with (4 / 75) by lra.
      reflexivity.
    + rewrite H01. cbn. lra.
    + rewrite H02. cbn. lra.
    + rewrite H12. cbn. lra.
  - unfold rounds3. split; intros [H1 H2]; lra.
Qed.

(** ** The constructor and the handle of a missing or invalid canvas *)

Section HandleFacts.

Variable rand : nat -> R.

Lemma andThen_returns {A B : Type} (c : Handle.M A) (f : A -> Handle.M B)
      (st st' : Handle.State) (a : A) :
  c st = Handle.Returns a st' -> Handle.andThen c f st = f a st'.
Proof. intros H. unfold Handle.andThen. rewrite H. reflexivity. Qed.

(** A loop whose condition fails at once makes no particle. *)
Lemma createLoop_none (c : Canvas) (o : Options) (k : nat) :
  (0 <? particleCount o)%Z = false -> createLoop rand c o [] k 0%Z = ([], k).
Proof. intros H. rewrite createLoop_equation, H. reflexivity. Qed.

(** *** On a found canvas with a 2D context the methods are those of
    [ParticleSystem] *)

Lemma resize_ofWorld (l : bool) (rw rh : R) (wd : World) :
  Handle.resize rw rh (Handle.ofWorld l wd)
  = Handle.Returns tt (Handle.ofWorld l (resize rw rh wd)).
Proof. reflexivity. Qed.

Lemma createParticles_ofWorld (l : bool) (wd : World) :
  Handle.createParticles rand (Handle.ofWorld l wd)
  = Handle.Returns tt (Handle.ofWorld l (createParticles rand wd)).
Proof.
  destruct wd as [ [cv ps aid running o m] [k fs lh out hid view mb] ].
  unfold Handle.createParticles, createParticles, Handle.ofWorld, Handle.andThen,
    Handle.assign, Handle.getThis, Handle.getHost, Handle.member, Handle.onHost,
    Handle.pure.
  cbn [Handle.this Handle.host Handle.listening Handle.options Handle.canvas
       Handle.set_particles Handle.size Handle.ctx Handle.particles Handle.animationId
       Handle.isRunning Handle.mouse sys host canvas options particles animationId
       isRunning mouse set_particles set_draws draws frames lastHandle output hidden
       inView mouseBound].
  destruct (0 <? particleCount o)%Z eqn:E.
  - reflexivity.
  - rewrite (createLoop_none cv o k E). reflexivity.
Qed.

Lemma bindEvents_ofWorld (l : bool) (wd : World) :
  Handle.bindEvents (Handle.ofWorld l wd)
  = Handle.Returns tt (Handle.ofWorld true (bindEvents wd)).
Proof.
  destruct wd as [ [cv ps aid running o m] h ].
  unfold Handle.bindEvents, bindEvents, Handle.ofWorld, Handle.andThen,
    Handle.addListener, Handle.getThis, Handle.member, Handle.onHost, Handle.pure.
  cbn [Handle.this Handle.host Handle.listening Handle.options Handle.canvas
       sys host canvas options particles animationId isRunning mouse].
  destruct (mouseInteraction o); reflexivity.
Qed.

Lemma animate_ofWorld (l : bool) (wd : World) :
  Handle.animate rand (Handle.ofWorld l wd)
  = Handle.Returns tt (Handle.ofWorld l (animate rand wd)).
Proof.
  destruct wd as [ [cv ps aid running o m] [k fs lh out hid view mb] ].
  unfold Handle.animate, animate, Handle.ofWorld, Handle.andThen,
    Handle.assign, Handle.getThis, Handle.getHost, Handle.member, Handle.onHost,
    Handle.pure, requestAnimationFrame.
  cbn [Handle.this Handle.host Handle.listening Handle.options Handle.canvas
       Handle.set_particles Handle.set_animationId Handle.size Handle.ctx
       Handle.particles Handle.animationId Handle.isRunning Handle.mouse Handle.truthy
       sys host canvas options particles animationId isRunning mouse
       set_particles set_animationId set_draws set_output draws frames lastHandle
       output hidden inView mouseBound fst snd].
  destruct running; cbn [negb]; [ | reflexivity].
  destruct ps as [|p ps].
  - cbn. rewrite ?app_nil_r. reflexivity.
  - cbn -[forEachParticle connectParticles]. rewrite <- ?app_assoc. reflexivity.
Qed.

Lemma start_ofWorld (l : bool) (wd : World) :
  Handle.start rand (Handle.ofWorld l wd)
  = Handle.Returns tt (Handle.ofWorld l (start rand wd)).
Proof.
  unfold Handle.start, start.
  unfold Handle.andThen at 1. unfold Handle.getThis at 1.
  cbn [Handle.this Handle.ofWorld Handle.isRunning Handle.truthy].
  destruct (isRunning (sys wd)) eqn:E.
  - reflexivity.
  - rewrite <- animate_ofWorld. reflexivity.
Qed.

Lemma stop_ofWorld (l : bool) (wd : World) :
  Handle.stop (Handle.ofWorld l wd) = Handle.Returns tt (Handle.ofWorld l (stop wd)).
Proof.
  destruct wd as [ [cv ps aid running o m] h ].
  unfold Handle.stop, stop, Handle.ofWorld, Handle.andThen, Handle.assign,
    Handle.getThis, Handle.onHost, Handle.pure.
  cbn [Handle.this Handle.host Handle.listening Handle.animationId Handle.set_isRunning
       Handle.set_animationId Handle.canvas Handle.ctx Handle.particles Handle.isRunning
       Handle.options Handle.mouse
       sys host canvas options particles animationId isRunning mouse set_isRunning
       set_animationId].
  destruct aid as [id|]; [ | reflexivity].
  destruct (Nat.eqb id 0); reflexivity.
Qed.

(** The constructor on a canvas with a 2D context is [construct]. *)
Lemma new_found (c : Canvas) (rw rh : R) (raw : RawOptions) (h : Host) :
  new rand (Some (Handle.mkElement Handle.CanvasWith2d c)) rw rh raw h
  = Handle.Returns tt (Handle.ofWorld true (construct rand c rw rh raw h)).
Proof.
  unfold new, Handle.construct, construct, init.
  set (wd0 := mkWorld (mk c [] None false (resolveOptions raw)
                          (Mouse.mk None None (mouseRadius (resolveOptions raw)))) h).
  change (Handle.init rand rw rh (Handle.ofWorld false wd0)
          = Handle.Returns tt
              (Handle.ofWorld true
                 (start rand (bindEvents (createParticles rand (resize rw rh wd0)))))).
  unfold Handle.init.
  rewrite (andThen_returns _ _ _ _ _ (resize_ofWorld false rw rh wd0)).
  rewrite (andThen_returns _ _ _ _ _ (createParticles_ofWorld false _)).
  rewrite (andThen_returns _ _ _ _ _ (bindEvents_ofWorld false _)).
  apply start_ofWorld.
Qed.

(** *** The handle of a missing canvas *)

Lemma inert_dormant (h : Host) : dormant h (inert h).
Proof. unfold dormant, inert. cbn. auto. Qed.

Lemma stop_dormant (h : Host) (st : Handle.State) :
  dormant h st ->
  Handle.threw (Handle.stop st) = false /\ dormant h (Handle.after (Handle.stop st)).
Proof.
  intros (Hh & Hl & Hc & Hx & Ha).
  destruct st as [ [cv cx ps aid running o m] hh l]. cbn in Hh, Hl, Hc, Hx, Ha. subst.
  unfold dormant. cbn. auto 10.
Qed.

Lemma resize_dormant (h : Host) (rw rh : R) (st : Handle.State) :
  dormant h st ->
  Handle.resize rw rh st = Handle.ThrowsTypeError st.
Proof.
  intros (Hh & Hl & Hc & Hx & Ha).
  destruct st as [ [cv cx ps aid running o m] hh l]. cbn in Hh, Hl, Hc, Hx, Ha. subst.
  reflexivity.
Qed.

Lemma start_dormant (h : Host) (st : Handle.State) :
  dormant h st ->
  Handle.threw (Handle.start rand st)
  = negb (Handle.truthy (Handle.isRunning (Handle.this st)))
  /\ dormant h (Handle.after (Handle.start rand st)).
Proof.
  intros (Hh & Hl & Hc & Hx & Ha).
  destruct st as [ [cv cx ps aid running o m] hh l]. cbn in Hh, Hl, Hc, Hx, Ha. subst.
  unfold dormant. destruct running as [ | |[|] ]; cbn; auto 10.
Qed.

Lemma call_dormant (h : Host) (c : Handle.Call) (st : Handle.State) :
  dormant h st -> dormant h (Handle.after (Handle.call rand c st)).
Proof.
  intros H. destruct c as [ | | rw rh]; cbn [Handle.call].
  - apply start_dormant, H.
  - apply stop_dormant, H.
  - rewrite (resize_dormant h rw rh st H). exact H.
Qed.

Lemma calls_dormant (h : Host) (cs : list Handle.Call) (st : Handle.State) :
  dormant h st -> dormant h (Handle.calls rand cs st).
Proof.
  revert st. induction cs as [|c cs IH]; intros st H; [exact H|].
  cbn [Handle.calls fold_left]. apply IH, call_dormant, H.
Qed.

End HandleFacts.

Section InvalidCanvas.

Variable rand : nat -> R.

(** An element that is not a canvas: line 14 raises before anything is done. *)
Lemma new_not_a_canvas (c : Canvas) (rw rh : R) (raw : RawOptions) (h : Host) :
  new rand (Some (Handle.mkElement Handle.NotACanvas c)) rw rh raw h
  = Handle.ThrowsTypeError
      (Handle.mkState
         (Handle.set_canvas (Handle.Val (Handle.mkElement Handle.NotACanvas c))
                            Handle.blank)
         h false).
Proof. reflexivity. Qed.

(** A canvas without 2D context: [init()] runs as far as the first
    [animate()], which raises at line 126. *)
Lemma new_without_2d (c : Canvas) (rw rh : R) (raw : RawOptions) (h : Host) :
  new rand (Some (Handle.mkElement Handle.CanvasWithout2d c)) rw rh raw h
  = Handle.ThrowsTypeError
      (Handle.mkState
         (Handle.mkObj
            (Handle.Val (Handle.mkElement Handle.CanvasWithout2d
                                          {| width := rw; height := rh |}))
            Handle.Null
            (Handle.Val (fst (createLoop rand {| width := rw; height := rh |}
                                         (resolveOptions raw) [] (draws h) 0%Z)))
            Handle.Null
            (Handle.Val true)
            (Handle.Val (resolveOptions raw))
            (Handle.Val (Mouse.mk None None (mouseRadius (resolveOptions raw)))))
         (set_mouseBound (mouseInteraction (resolveOptions raw))
            (set_draws (snd (createLoop rand {| width := rw; height := rh |}
                                        (resolveOptions raw) [] (draws h) 0%Z)) h))
         true).
Proof.
  destruct h as [k fs lh out hid view mb].
  unfold new, Handle.construct, Handle.init, Handle.resize, Handle.createParticles,
    Handle.bindEvents, Handle.start, Handle.animate, Handle.getContext,
    Handle.andThen, Handle.assign, Handle.getThis, Handle.getHost, Handle.member,
    Handle.onHost, Handle.addListener, Handle.pure, Handle.throw.
  generalize (resolveOptions raw) as o. intros o.
  cbn -[createLoop].
  destruct (0 <? particleCount o)%Z eqn:E.
  - cbn -[createLoop]. destruct (mouseInteraction o); reflexivity.
  - cbn -[createLoop]. rewrite (createLoop_none rand _ o k E).
    destruct (mouseInteraction o); reflexivity.
Qed.

End InvalidCanvas.

(** C4, as the code has it.  With the canvas missing the constructor returns
    without raising and touches nothing on the page.  On the object it
    returns, after any calls of [start()], [stop()] and [resize()], the page
    is still untouched and no listener is registered; [stop()] returns
    normally, but [resize()] raises a TypeError, and so does [start()] unless
    [isRunning] is already set.  With an invalid reference the constructor
    itself raises a TypeError: for an element that is not a canvas before
    anything is done; for a canvas without a 2D context after the particles
    are seeded, the listeners registered and [isRunning] set, with nothing
    drawn and no frame requested.  For a canvas with a 2D context the
    constructor returns the system of [ParticleSystem.construct]. *)
Theorem missing_or_invalid_canvas (rand : nat -> R) (rw rh : R) (raw : RawOptions)
        (h : Host) (c : Canvas) (cs : list Handle.Call) :
  new rand None rw rh raw h = Handle.Returns tt (inert h)
  /\ (let st := Handle.calls rand cs (inert h) in
      Handle.host st = h /\ Handle.listening st = false
      /\ Handle.threw (Handle.stop st) = false
      /\ Handle.threw (Handle.resize rw rh st) = true
      /\ Handle.threw (Handle.start rand st)
         = negb (Handle.truthy (Handle.isRunning (Handle.this st))))
  /\ new rand (Some (Handle.mkElement Handle.NotACanvas c)) rw rh raw h
     = Handle.ThrowsTypeError
         (Handle.mkState
            (Handle.set_canvas (Handle.Val (Handle.mkElement Handle.NotACanvas c))
                               Handle.blank)
            h false)
  /\ (let r := new rand (Some (Handle.mkElement Handle.CanvasWithout2d c))
                    rw rh raw h in
      Handle.threw r = true
      /\ Handle.listening (Handle.after r) = true
      /\ Handle.isRunning (Handle.this (Handle.after r)) = Handle.Val true
      /\ Handle.animationId (Handle.this (Handle.after r)) = Handle.Null
      /\ Handle.particles (Handle.this (Handle.after r))
         = Handle.Val (fst (createLoop rand {| width := rw; height := rh |}
                                       (resolveOptions raw) [] (draws h) 0%Z))
      /\ output (Handle.host (Handle.after r)) = output h
      /\ frames (Handle.host (Handle.after r)) = frames h)
  /\ new rand (Some (Handle.mkElement Handle.CanvasWith2d c)) rw rh raw h
     = Handle.Returns tt (Handle.ofWorld true (construct rand c rw rh raw h)).
Proof.
  split; [reflexivity | split; [ | split; [apply new_not_a_canvas | split ] ] ].
  - cbn zeta. pose proof (calls_dormant rand h cs _ (inert_dormant h)) as Hd.
    destruct (stop_dormant h _ Hd) as [Hstop _].
    destruct (start_dormant rand h _ Hd) as [Hstart _].
    pose proof (resize_dormant h rw rh _ Hd) as Hresize.
    destruct Hd as (Hh & Hl & _).
    split; [exact Hh | split; [exact Hl | split; [exact Hstop | split; [ | exact Hstart] ] ] ].
    rewrite Hresize. reflexivity.
  - cbn zeta. rewrite new_without_2d. cbn. auto 10.
  - apply new_found.
Qed.

(** C4 as stated fails.  On the object the constructor returns for a missing
    canvas, the first [start()] and every [resize()] raise a TypeError; and
    for an element that is not a canvas, or a canvas without a 2D context,
    the constructor raises one itself. *)
Lemma missing_or_invalid_counterexample :
  Handle.start half (inert (page 0 0 false false))
  = Handle.ThrowsTypeError
      (Handle.mkState
         (Handle.set_isRunning (Handle.Val true)
                               (Handle.set_canvas Handle.Null Handle.blank))
         (page 0 0 false false) false)
  /\ Handle.resize 300 150 (inert (page 0 0 false false))
     = Handle.ThrowsTypeError (inert (page 0 0 false false))
  /\ Handle.threw (new half (Some (Handle.mkElement Handle.NotACanvas surface))
                        300 150 heroOptions (page 0 0 false false)) = true
  /\ Handle.threw (new half (Some (Handle.mkElement Handle.CanvasWithout2d surface))
                        300 150 heroOptions (page 0 0 false false)) = true.
Proof.
  split; [reflexivity | split; [reflexivity | split; [reflexivity | ] ] ].
  rewrite new_without_2d. reflexivity.
Qed.

(** ** The radius after the pointer has left *)

Section Radius.

Variable rand : nat -> R.

Lemma Forall2_updated_radius (m : Mouse.t) (o : Options) (c : Canvas)
      (ps qs : list Particle.t) :
  Mouse.x m = None \/ mouseInteraction o = false ->
  Forall2 (updated_from m o c) ps qs ->
  map Particle.radius qs = map Particle.radius ps.
Proof.
  intros Hm. induction 1 as [|p q ps qs [r1 [r2 Hq]] _ IH]; [reflexivity|].
  cbn. rewrite IH, Hq, radius_kept_when_pointer_absent by exact Hm. reflexivity.
Qed.

(** A tick without a pointer leaves every radius as it was, restored or not. *)
Lemma animate_keeps_radius_without_pointer (wd : World) :
  Mouse.x (mouse (sys wd)) = None ->
  map Particle.radius (particles (sys (animate rand wd)))
  = map Particle.radius (particles (sys wd)).
Proof.
  intros Hm. rewrite animate_particles. destruct (isRunning (sys wd)); [ | reflexivity].
  eapply Forall2_updated_radius; [left; exact Hm | apply forEachParticle_updates].
Qed.

(** After [mouseleave] the pointer is absent. *)
Lemma mouseleave_clears_pointer (wd : World) :
  mouseBound (host wd) = true ->
  Mouse.x (mouse (sys (dispatch rand wd MouseLeave))) = None.
Proof. intros H. cbn [dispatch]. rewrite H. reflexivity. Qed.

End Radius.

(** C5 fails on the code.  A particle at distance 100 from the pointer of the
    hero system ([mouseRadius = 250]) is inflated to 1.6 times its original
    radius; the pointer then leaves the canvas; the next step leaves the
    radius at 1.6 although no pointer is present. *)
Theorem inflated_radius_survives_pointer_leave :
  let o := resolveOptions heroOptions in
  let near := Mouse.mk (Some 0) (Some 0) (mouseRadius o) in
  let gone := Mouse.mk None None (mouseRadius o) in
  let p1 := fst (Particle.update near o surface (at_rest 100 0) half 0%nat) in
  let p2 := fst (Particle.update gone o surface p1 half 2%nat) in
  mouseInteraction o = true
  /\ Particle.radius p1 = 1.6
  /\ Mouse.x gone = None
  /\ Particle.radius p2 = 1.6
  /\ Particle.originalRadius p2 = 1.
Proof.
  intros o near gone p1 p2.
  assert (Hd : sqrt ((100 - 0) * (100 - 0) + (0 - 0) * (0 - 0)) = 100)
    by (apply sqrt_lem_1; lra).
  assert (Hr1 : Particle.radius p1 = 1.6).
  { unfold p1. rewrite update_eq. cbn [fst]. rewrite radius_updateWith.
    rewrite (mouseInteract_near near o (at_rest 100 0) 0 0 eq_refl eq_refl eq_refl).
    - cbn [Particle.radius Particle.x Particle.y Particle.originalRadius at_rest
           Mouse.radius near]. rewrite Hd. cbn. lra.
    - cbn [Particle.x Particle.y at_rest Mouse.radius near]. rewrite Hd. cbn. lra. }
  assert (Hr2 : Particle.radius p2 = 1.6).
  { unfold p2. rewrite update_eq. cbn [fst].
    rewrite radius_kept_when_pointer_absent by (left; reflexivity). exact Hr1. }
  split; [reflexivity | split; [exact Hr1 | split; [reflexivity | split; [exact Hr2|] ] ] ].
  unfold p2, p1. rewrite !update_eq. cbn [fst].
  rewrite !originalRadius_updateWith. reflexivity.
Qed.

(** ** The theorems at concrete inputs *)

Lemma construct_options (rand : nat -> R) (el : Canvas) (rw rh : R)
      (raw : RawOptions) (h : Host) :
  options (sys (construct rand el rw rh raw h)) = resolveOptions raw.
Proof. unfold construct, init. rewrite start_options. reflexivity. Qed.

Lemma seed_count_witness :
  Z.of_nat (List.length
              (particles (sys (construct half surface 300 150 heroOptions
                                         (page 0 0 false true))))) = 100%Z
  /\ Z.of_nat (List.length
                 (particles (sys (construct half surface 300 150 noParticles
                                            (page 0 0 false true))))) = 0%Z.
Proof.
  split.
  - destruct (seed_count half heroOptions) as [H _]; [cbn; lia | apply H].
  - destruct (seed_count half noParticles) as [H _]; [cbn; lia | apply H].
Defined.

Lemma particles_in_bounds_after_step_witness :
  Forall (fun p =>
            0 <= Particle.x p <= 300 /\ 0 <= Particle.y p <= 150 /\
            Rabs (Particle.vx p) <= 2 * 0.3 /\ Rabs (Particle.vy p) <= 2 * 0.3)
         (fst (fst (forEachParticle (Mouse.mk (Some 10) (Some 20) 250)
                                    (resolveOptions heroOptions) surface collinear
                                    half 0%nat))).
Proof.
  apply (particles_in_bounds_after_step (Mouse.mk (Some 10) (Some 20) 250)
           (resolveOptions heroOptions) surface half 0%nat collinear); cbn; lra.
Defined.


Lemma pointer_has_no_effect_when_disabled_witness :
  particles (sys (run half (construct half surface 300 150 ctaOptions (page 0 0 false true))
                      [MouseMove 10 20; AnimationFrame; AnimationFrame]))
  = particles (sys (run half (construct half surface 300 150 ctaOptions (page 0 0 false true))
                        [AnimationFrame; MouseLeave; AnimationFrame; MouseMove 5 5])).
Proof.
  apply (pointer_has_no_effect_when_disabled half
           (construct half surface 300 150 ctaOptions (page 0 0 false true))
           (construct half surface 300 150 ctaOptions (page 0 0 false true))
           [MouseMove 10 20; AnimationFrame; AnimationFrame]
           [AnimationFrame; MouseLeave; AnimationFrame; MouseMove 5 5]).
  - rewrite construct_options. reflexivity.
  - reflexivity.
  - reflexivity.
Defined.

(** ** The alphas of the three collinear particles in binary64

    The same arithmetic as lines 148-150, on IEEE 754 doubles as JavaScript
    evaluates it: the results round to the same three decimals as the real
    numbers above. *)

Module Binary64Facts.

Import Floats Binary64.
#[local] Set Warnings "-inexact-float".

Lemma binary64_alpha_50 : within 0.5325 (alpha 50 150) 0.5335 = true.
Proof. vm_compute. reflexivity. Qed.

Lemma binary64_alpha_90 : within 0.3195 (alpha 90 150) 0.3205 = true.
Proof. vm_compute. reflexivity. Qed.

Lemma binary64_alpha_140 : within 0.0525 (alpha 140 150) 0.0535 = true.
Proof. vm_compute. reflexivity. Qed.

Lemma binary64_alpha_50_is_not_0747 : within 0.7465 (alpha 50 150) 0.7475 = false.
Proof. vm_compute. reflexivity. Qed.

Lemma binary64_alpha_90_is_not_0520 : within 0.5195 (alpha 90 150) 0.5205 = false.
Proof. vm_compute. reflexivity. Qed.

Lemma exact_3 : exact 3 = 3%R.
Proof.
  unfold exact.
  replace (Prim2SF 3) with (S754_finite false 6755399441055744 (-51))
    by (vm_compute; reflexivity).
  cbn [Z.leb Z.compare Z.opp Z.pow Z.pow_pos Pos.iter Z.mul Pos.mul Pos.add Pos.succ].
  lra.
Qed.

Lemma exact_5 : exact 5 = 5%R.
Proof.
  unfold exact.
  replace (Prim2SF 5) with (S754_finite false 5629499534213120 (-50))
    by (vm_compute; reflexivity).
  cbn [Z.leb Z.compare Z.opp Z.pow Z.pow_pos Pos.iter Z.mul Pos.mul Pos.add Pos.succ].
  lra.
Qed.

Lemma exact_0 : exact 0 = 0%R.
Proof. unfold exact. replace (Prim2SF 0) with (S754_zero false) by reflexivity. reflexivity. Qed.

Lemma exact_below4 : (0 <= exact below4 < 4)%R.
Proof.
  unfold exact.
  replace (Prim2SF below4) with (S754_finite false 9007199254740991 (-51))
    by (vm_compute; reflexivity).
  cbn [Z.leb Z.compare Z.opp Z.pow Z.pow_pos Pos.iter Z.mul Pos.mul Pos.add Pos.succ].
  lra.
Qed.

(** C7 on the doubles the code computes with.  The particles [(3, y)], with
    [y] the double just below 4, and [(0, 0)] are less than 5 apart, but the
    distance of lines 143-145 rounds to 5: with [lineDistance = 5] the pair
    gets no edge.  And the distances 10 and the double just above 10, both
    below a [lineDistance] of 150, get the same alpha. *)
Lemma rounding_counterexample :
  (R_sqrt.sqrt ((exact 3 - exact 0) ^ 2 + (exact below4 - exact 0) ^ 2) < exact 5)%R
  /\ connected 3 below4 0 0 5 = false
  /\ PrimFloat.ltb 10 above10 = true
  /\ PrimFloat.ltb above10 150 = true
  /\ PrimFloat.eqb (alpha 10 150) (alpha above10 150) = true.
Proof.
  split; [ | repeat split; vm_compute; reflexivity].
  rewrite exact_3, exact_0, exact_5. pose proof exact_below4 as Hy.
  replace 5%R with (R_sqrt.sqrt 25%R) by (apply sqrt_lem_1; lra).
  apply sqrt_lt_1_alt. nra.
Qed.

End Binary64Facts.

(** * Further properties *)

(** ** What the constructor of [Particle] establishes *)

Section Seeded.

Variable rand : nat -> R.
Hypothesis rand_unit : unit_interval rand.

Lemma new_eq (c : Canvas) (o : Options) (k : nat) :
  Particle.new c o rand k
  = (Particle.mk (rand k * width c) (rand (S k) * height c)
                 ((rand (S (S k)) - 0.5) * speed o)
                 ((rand (S (S (S k))) - 0.5) * speed o)
                 (rand (S (S (S (S k)))) * particleRadius o + 1)
                 (rand (S (S (S (S k)))) * particleRadius o + 1),
     S (S (S (S (S k))))).
Proof. reflexivity. Qed.

Lemma new_seeded (c : Canvas) (o : Options) (k : nat) :
  0 <= width c -> 0 <= height c -> 0 <= speed o -> 0 <= particleRadius o ->
  seeded o c (fst (Particle.new c o rand k)).
Proof.
  intros Hw Hh Hs Hr. rewrite new_eq. unfold seeded.
  cbn [fst Particle.x Particle.y Particle.vx Particle.vy Particle.radius
       Particle.originalRadius].
  pose proof (rand_unit k). pose proof (rand_unit (S k)).
  pose proof (rand_unit (S (S k))). pose proof (rand_unit (S (S (S k)))).
  pose proof (rand_unit (S (S (S (S k))))).
  repeat split; try apply Rabs_le; try split; nra.
Qed.

Lemma createLoop_Forall (P : Particle.t -> Prop) (c : Canvas) (o : Options)
      (acc : list Particle.t) (k : nat) (i : Z) :
  (forall k', P (fst (Particle.new c o rand k'))) ->
  Forall P acc -> Forall P (fst (createLoop rand c o acc k i)).
Proof.
  intros Hnew.
  functional induction (createLoop rand c o acc k i) as [acc k i Hlt IH | acc k i Hge];
    intros Hacc.
  - apply IH. apply Forall_app. split; [exact Hacc | constructor; [apply Hnew | constructor]].
  - exact Hacc.
Qed.

End Seeded.

(** ** Properties kept from the constructor on *)

Section Invariants.

Variable rand : nat -> R.

Variable Q : Canvas -> Options -> list Particle.t -> Prop.

(** [Q] survives the [forEach] of a tick, whatever the pointer. *)
Hypothesis Q_tick : forall c o ps m k,
    Q c o ps -> Q c o (fst (fst (forEachParticle m o c ps rand k))).

(** What [Q] needs of the options and of a new canvas size. *)
Variable good : Options -> Prop.
Variable ok : R -> R -> Prop.

(** [Q] holds of a fresh collection in a canvas of the new size. *)
Hypothesis Q_reseed : forall o rw rh k,
    good o -> ok rw rh ->
    Q {| width := rw; height := rh |} o
      (fst (createLoop rand {| width := rw; height := rh |} o [] k 0%Z)).

Lemma animate_holds (wd : World) : holds Q wd -> holds Q (animate rand wd).
Proof.
  unfold holds. rewrite animate_canvas, animate_options, animate_particles.
  destruct (isRunning (sys wd)); [apply Q_tick | trivial].
Qed.

Lemma start_holds (wd : World) : holds Q wd -> holds Q (start rand wd).
Proof.
  intros H. unfold start. destruct (isRunning (sys wd)); [exact H|].
  apply animate_holds. exact H.
Qed.

Lemma stop_holds (wd : World) : holds Q wd -> holds Q (stop wd).
Proof.
  unfold holds. rewrite stop_canvas, stop_options, stop_particles. trivial.
Qed.

Lemma dispatch_holds (wd : World) (e : Event) :
  good (options (sys wd)) -> sized ok e -> holds Q wd -> holds Q (dispatch rand wd e).
Proof.
  intros Hgood He H. destruct e as [rw rh | mx my | | h | entries | ]; cbn [dispatch].
  - cbn in He. unfold holds, createParticles, resize.
    cbn [sys host canvas options particles set_particles set_canvas].
    apply Q_reseed; assumption.
  - destruct (mouseBound (host wd)); exact H.
  - destruct (mouseBound (host wd)); exact H.
  - destruct h; [apply stop_holds | apply start_holds]; exact H.
  - clear He Hgood. revert wd H. induction entries as [|b rest IH]; intros wd H; [exact H|].
    cbn [fold_left]. apply IH. unfold onIntersection.
    destruct b; [apply start_holds | apply stop_holds]; exact H.
  - assert (H0 : holds Q (mkWorld (sys wd) (set_frames [] (host wd)))) by exact H.
    revert H0. generalize (mkWorld (sys wd) (set_frames [] (host wd))).
    induction (frames (host wd)) as [|cb rest IH]; intros w Hw; [exact Hw|].
    cbn [fold_left]. apply IH. apply animate_holds. exact Hw.
Qed.

Lemma run_holds (trace : list Event) (wd : World) :
  good (options (sys wd)) -> Forall (sized ok) trace -> holds Q wd ->
  holds Q (run rand wd trace).
Proof.
  revert wd. induction trace as [|e rest IH]; intros wd Hgood Hs H; [exact H|].
  inversion Hs as [|e' rest' He Hrest]; subst.
  cbn [run fold_left]. apply IH; [ | exact Hrest | ].
  - rewrite dispatch_options. exact Hgood.
  - apply dispatch_holds; assumption.
Qed.

Lemma construct_holds (el : Canvas) (rw rh : R) (raw : RawOptions) (h : Host) :
  good (resolveOptions raw) -> ok rw rh ->
  holds Q (construct rand el rw rh raw h).
Proof.
  intros Hgood Hsize. unfold construct, init. apply start_holds.
  unfold holds, bindEvents, createParticles, resize.
  cbn [sys host canvas options particles set_particles set_canvas].
  apply Q_reseed; assumption.
Qed.

(** From the constructor on, through every trace of events. *)
Lemma always_holds (el : Canvas) (rw rh : R) (raw : RawOptions) (h : Host)
      (trace : list Event) :
  good (resolveOptions raw) -> ok rw rh -> Forall (sized ok) trace ->
  holds Q (run rand (construct rand el rw rh raw h) trace).
Proof.
  intros Hgood Hsize Hs. apply run_holds; [ | exact Hs | now apply construct_holds].
  unfold construct, init. rewrite start_options. exact Hgood.
Qed.

End Invariants.

(** A seeded particle is within the bounds of a tick. *)
Lemma seeded_in_bounds (o : Options) (c : Canvas) (p : Particle.t) :
  0 <= speed o -> seeded o c p -> in_bounds o c p.
Proof.
  unfold seeded, in_bounds. intros Hs (Hx & Hy & Hvx & Hvy & _).
  repeat split; try tauto; lra.
Qed.

Lemma seeded_radius_ok (o : Options) (c : Canvas) (p : Particle.t) :
  seeded o c p -> radius_ok o p.
Proof.
  unfold seeded, radius_ok. intros (_ & _ & _ & _ & Hr & ->). lra.
Qed.

(** [update()] keeps the radius between the original radius and its double. *)
Lemma mouseInteract_radius_ok (m : Mouse.t) (o : Options) (p : Particle.t) :
  radius_ok o p -> radius_ok o (Particle.mouseInteract m o p).
Proof.
  unfold radius_ok, Particle.mouseInteract. intros [Ho Hr].
  destruct (Mouse.x m) as [mx|]; [ | tauto].
  destruct (mouseInteraction o); [ | tauto].
  match goal with |- context [Rltb ?d ?r] => destruct (Rltb d r) eqn:Hd end;
    cbn [Particle.radius Particle.originalRadius].
  - apply Rltb_true in Hd.
    match type of Hd with ?d < ?r =>
      pose proof (force_range d r (sqrt_pos _) Hd) as Hf end.
    split; [exact Ho | nra].
  - split; [exact Ho | lra].
Qed.

Lemma updateWith_radius_ok (r1 r2 : R) (m : Mouse.t) (o : Options) (c : Canvas)
      (p : Particle.t) :
  radius_ok o p -> radius_ok o (Particle.updateWith r1 r2 m o c p).
Proof.
  intros H. apply (mouseInteract_radius_ok m) in H. unfold radius_ok in *.
  rewrite radius_updateWith, originalRadius_updateWith.
  rewrite originalRadius_mouseInteract in H. exact H.
Qed.

Lemma Forall_updated (P : Particle.t -> Prop) (m : Mouse.t) (o : Options) (c : Canvas)
      (ps qs : list Particle.t) :
  (forall r1 r2 p, P p -> P (Particle.updateWith r1 r2 m o c p)) ->
  Forall2 (updated_from m o c) ps qs -> Forall P ps -> Forall P qs.
Proof.
  intros Hstep H. induction H as [|p q ps qs [r1 [r2 Hq]] _ IH]; intros Hps;
    [constructor|].
  inversion Hps; subst. constructor; [apply Hstep; assumption | apply IH; assumption].
Qed.

(** X1.  Every particle [createParticles] makes lies in the canvas, has
    velocity components within half of [speed], a radius between 1 and
    [particleRadius + 1] and its original radius equal to it; five random
    numbers are drawn per particle.  [Math.random()] is in [0, 1); the canvas
    size, [speed] and [particleRadius] are not negative. *)
Theorem seeded_collection (rand : nat -> R) (wd : World) :
  unit_interval rand ->
  0 <= width (canvas (sys wd)) -> 0 <= height (canvas (sys wd)) ->
  0 <= speed (options (sys wd)) -> 0 <= particleRadius (options (sys wd)) ->
  Forall (fun p =>
            0 <= Particle.x p <= width (canvas (sys wd))
            /\ 0 <= Particle.y p <= height (canvas (sys wd))
            /\ Rabs (Particle.vx p) <= speed (options (sys wd)) / 2
            /\ Rabs (Particle.vy p) <= speed (options (sys wd)) / 2
            /\ 1 <= Particle.radius p <= particleRadius (options (sys wd)) + 1
            /\ Particle.originalRadius p = Particle.radius p)
         (particles (sys (createParticles rand wd)))
  /\ draws (host (createParticles rand wd))
     = (draws (host wd)
        + 5 * List.length (particles (sys (createParticles rand wd))))%nat.
Proof.
  intros Hrand Hw Hh Hs Hr. split.
  - unfold createParticles. cbn [sys particles set_particles].
    apply (createLoop_Forall rand (seeded (options (sys wd)) (canvas (sys wd))));
      [ | constructor].
    intros k'. apply new_seeded; assumption.
  - rewrite createParticles_length. unfold createParticles.
    cbn [host draws set_draws]. rewrite createLoop_draws. f_equal. f_equal. f_equal. lia.
Qed.

Section Always.

Variable rand : nat -> R.

Lemma bounded_tick (c : Canvas) (o : Options) (ps : list Particle.t) (m : Mouse.t)
      (k : nat) :
  bounded c o ps -> bounded c o (fst (fst (forEachParticle m o c ps rand k))).
Proof.
  intros (Hs & Hw & Hh & _). repeat split; try assumption.
  pose proof (forEachParticle_updates m o c rand ps k) as H.
  induction H as [|p q ps' qs [r1 [r2 Hq]] _ IH]; constructor; [ | exact IH].
  subst q. now apply updateWith_in_bounds.
Qed.

Lemma bounded_reseed (Hrand : unit_interval rand) (o : Options) (rw rh : R) (k : nat) :
  0 <= speed o -> nonneg_size rw rh ->
  bounded {| width := rw; height := rh |} o
          (fst (createLoop rand {| width := rw; height := rh |} o [] k 0%Z)).
Proof.
  intros Hs [Hw Hh]. repeat split; try assumption.
  apply createLoop_Forall; [ | constructor].
  intros k'. rewrite (new_eq rand). unfold in_bounds.
  cbn [fst Particle.x Particle.y Particle.vx Particle.vy width height].
  pose proof (Hrand k'). pose proof (Hrand (S k')).
  pose proof (Hrand (S (S k'))). pose proof (Hrand (S (S (S k')))).
  repeat split; try apply Rabs_le; try split; nra.
Qed.

End Always.

(** X2.  From the constructor on and after every event, every particle is
    inside the canvas and both velocity components are within [2 * speed]:
    the seeding and every tick keep the bounds.  [Math.random()] is in
    [0, 1); [speed] and every canvas size are not negative. *)
Theorem particles_always_in_bounds (rand : nat -> R) (el : Canvas) (rw rh : R)
        (raw : RawOptions) (h : Host) (trace : list Event) :
  unit_interval rand ->
  0 <= speed (resolveOptions raw) -> nonneg_size rw rh ->
  Forall (sized nonneg_size) trace ->
  let wd := run rand (construct rand el rw rh raw h) trace in
  Forall (fun p =>
            0 <= Particle.x p <= width (canvas (sys wd))
            /\ 0 <= Particle.y p <= height (canvas (sys wd))
            /\ Rabs (Particle.vx p) <= 2 * speed (options (sys wd))
            /\ Rabs (Particle.vy p) <= 2 * speed (options (sys wd)))
         (particles (sys wd)).
Proof.
  intros Hrand Hs Hsize Htrace wd.
  pose proof (always_holds rand bounded (bounded_tick rand)
                (fun o => 0 <= speed o) nonneg_size (bounded_reseed rand Hrand)
                el rw rh raw h trace Hs Hsize Htrace) as H.
  destruct H as (_ & _ & _ & H). exact H.
Qed.

(** X3.  From the constructor on and after every event, every particle has
    an original radius between 1 and [particleRadius + 1] and a radius between
    its original radius and twice that.  [Math.random()] is in [0, 1) and
    [particleRadius] is not negative. *)
Theorem radius_always_bounded (rand : nat -> R) (el : Canvas) (rw rh : R)
        (raw : RawOptions) (h : Host) (trace : list Event) :
  unit_interval rand ->
  0 <= particleRadius (resolveOptions raw) ->
  let wd := run rand (construct rand el rw rh raw h) trace in
  Forall (fun p =>
            1 <= Particle.originalRadius p <= particleRadius (options (sys wd)) + 1
            /\ Particle.originalRadius p <= Particle.radius p
               <= 2 * Particle.originalRadius p)
         (particles (sys wd)).
Proof.
  intros Hrand Hr wd.
  apply (always_holds rand radii_ok) with (good := fun o => 0 <= particleRadius o)
                                          (ok := fun _ _ => True).
  - intros c o ps m k H. unfold radii_ok in *.
    apply (Forall_updated (radius_ok o) m o c ps);
      [ intros r1 r2 p; apply updateWith_radius_ok
      | apply forEachParticle_updates | exact H ].
  - intros o rw' rh' k Ho _. unfold radii_ok.
    apply createLoop_Forall; [ | constructor].
    intros k'. rewrite (new_eq rand). unfold radius_ok.
    cbn [fst Particle.radius Particle.originalRadius].
    pose proof (Hrand (S (S (S (S k'))))). split; nra.
  - exact Hr.
  - exact I.
  - clear. induction trace as [|e rest IH]; constructor; [ | exact IH].
    destruct e; exact I.
Qed.

(** X4.  With [mouseInteraction] disabled, from the constructor on and after
    every event, the radius of every particle is its original radius. *)
Theorem radius_is_original_when_disabled (rand : nat -> R) (el : Canvas) (rw rh : R)
        (raw : RawOptions) (h : Host) (trace : list Event) :
  mouseInteraction (resolveOptions raw) = false ->
  Forall (fun p => Particle.radius p = Particle.originalRadius p)
         (particles (sys (run rand (construct rand el rw rh raw h) trace))).
Proof.
  intros Hoff.
  refine (proj2 (always_holds rand radii_original _ (fun o => mouseInteraction o = false)
                              (fun _ _ => True) _ el rw rh raw h trace Hoff I _)).
  - intros c o ps m k [Ho H]. split; [exact Ho|].
    apply (Forall_updated _ m o c ps) with (3 := H);
      [ | apply forEachParticle_updates ].
    intros r1 r2 p Hp.
    rewrite radius_kept_when_pointer_absent, originalRadius_updateWith
      by (right; exact Ho).
    exact Hp.
  - intros o rw' rh' k Ho _. split; [exact Ho|].
    apply createLoop_Forall; [ | constructor].
    intros k'. reflexivity.
  - clear. induction trace as [|e rest IH]; constructor; [ | exact IH].
    destruct e; exact I.
Qed.

(** ** What a tick draws *)

(** One step of the [forEach]. *)
Lemma forEachParticle_cons (m : Mouse.t) (o : Options) (c : Canvas)
      (rand : nat -> R) (p : Particle.t) (rest : list Particle.t) (k : nat) :
  forEachParticle m o c (p :: rest) rand k
  = let p' := Particle.updateWith (rand k) (rand (S k)) m o c p in
    let r := forEachParticle m o c rest rand (S (S k)) in
    (p' :: fst (fst r), Particle.draw o p' ++ snd (fst r), snd r).
Proof.
  cbn [forEachParticle]. unfold bind, ret. rewrite update_eq.
  destruct (forEachParticle m o c rest rand (S (S k))) as [r k']. reflexivity.
Qed.

(** The discs drawn are those of the updated particles, in order. *)
Lemma forEachParticle_drawn (m : Mouse.t) (o : Options) (c : Canvas)
      (rand : nat -> R) (ps : list Particle.t) (k : nat) :
  snd (fst (forEachParticle m o c ps rand k))
  = flat_map (Particle.draw o) (fst (fst (forEachParticle m o c ps rand k))).
Proof.
  revert k. induction ps as [|p rest IH]; intros k; [reflexivity|].
  rewrite forEachParticle_cons. cbn [fst snd flat_map]. rewrite IH. reflexivity.
Qed.

Lemma flat_map_draw (o : Options) (ps : list Particle.t) :
  flat_map (Particle.draw o) ps
  = if not_false (showParticles o) then map (disc o) ps else [].
Proof.
  unfold Particle.draw. destruct (not_false (showParticles o)).
  - induction ps as [|p rest IH]; [reflexivity|]. cbn [flat_map map app].
    rewrite IH. reflexivity.
  - induction ps as [|p rest IH]; [reflexivity|]. cbn [flat_map app]. exact IH.
Qed.

(** X5.  A tick of a running system appends to the drawing calls, in this
    order: the clear of the whole canvas; one disc per particle, at its
    position and radius after the update, unless [showParticles] is [false]
    (then none); one line per edge of the updated positions.  With no particle
    the tick draws the clear only. *)
Theorem tick_drawing (rand : nat -> R) (wd : World) :
  isRunning (sys wd) = true ->
  let o := options (sys wd) in
  let after := particles (sys (animate rand wd)) in
  output (host (animate rand wd))
  = output (host wd)
    ++ ClearRect (width (canvas (sys wd))) (height (canvas (sys wd)))
    :: (if not_false (showParticles o) then map (disc o) after else [])
    ++ map stroke (connectParticles o after)
  /\ (particles (sys wd) = [] ->
      output (host (animate rand wd))
      = output (host wd)
        ++ [ClearRect (width (canvas (sys wd))) (height (canvas (sys wd)))]).
Proof.
  intros E o after.
  assert (Hout : output (host (animate rand wd))
                 = output (host wd)
                   ++ ClearRect (width (canvas (sys wd))) (height (canvas (sys wd)))
                   :: (if not_false (showParticles o) then map (disc o) after else [])
                   ++ map stroke (connectParticles o after)).
  { unfold after. rewrite animate_output, animate_particles, E.
    rewrite forEachParticle_drawn, flat_map_draw. reflexivity. }
  split; [exact Hout|].
  intros Hnil. rewrite Hout.
  assert (Hafter : after = []).
  { unfold after. rewrite animate_particles, E, Hnil. reflexivity. }
  rewrite Hafter. destruct (not_false (showParticles o)); reflexivity.
Qed.

(** ** The edges of [connectParticles]: alpha, width, number *)

Lemma connectPair_length (o : Options) (ps : list Particle.t) (i j : nat) :
  (List.length (connectPair o ps i j) <= 1)%nat.
Proof.
  unfold connectPair.
  destruct (nth_error ps i); [ | cbn; lia].
  destruct (nth_error ps j); [ | cbn; lia].
  destruct (Rltb _ _); cbn; lia.
Qed.

Lemma inner_loop_length (o : Options) (ps : list Particle.t) (i a len : nat) :
  (List.length (flat_map (connectPair o ps i) (seq a len)) <= len)%nat.
Proof.
  revert a. induction len as [|len IH]; intros a; [cbn; lia|].
  cbn [seq flat_map]. rewrite length_app.
  pose proof (connectPair_length o ps i a). specialize (IH (S a)). lia.
Qed.

Lemma outer_loop_length (o : Options) (ps : list Particle.t) (n k : nat) :
  (k <= n)%nat ->
  (2 * List.length
         (flat_map (fun i => flat_map (connectPair o ps i) (seq (i + 1) (n - (i + 1))))
                   (seq (n - k) k))
   <= k * (k - 1))%nat.
Proof.
  induction k as [|k IH]; intros Hk; [cbn; lia|].
  cbn [seq flat_map]. rewrite length_app.
  pose proof (inner_loop_length o ps (n - S k) (n - S k + 1) (n - (n - S k + 1))).
  replace (S (n - S k)) with (n - k)%nat by lia.
  specialize (IH ltac:(lia)).
  replace (S k - 1)%nat with k by lia.
  assert (Hk1 : (k * (k - 1) + 2 * k = S k * k)%nat) by (destruct k; cbn; lia).
  lia.
Qed.

Lemma or_num_nonzero (v : option R) (d : R) : d <> 0 -> or_num v d <> 0.
Proof.
  intros Hd. unfold or_num. destruct v as [n|]; [ | exact Hd].
  destruct (Req_dec_T n 0); assumption.
Qed.

(** X6.  Every edge [connectParticles] draws has an alpha in (0, 0.8] and a
    line width that is not zero (an absent or zero [lineWidth] gives 1.5);
    [n] particles give at most [n (n - 1) / 2] edges; and with a
    [lineDistance] of zero or less no edge is drawn at all. *)
Theorem edges_faint_and_few (o : Options) (ps : list Particle.t) :
  (forall e, In e (connectParticles o ps) ->
             0 < e_alpha e <= 0.8 /\ e_lineWidth e <> 0
             /\ (lineWidth o = None \/ lineWidth o = Some 0 -> e_lineWidth e = 1.5))
  /\ (2 * List.length (connectParticles o ps)
      <= List.length ps * (List.length ps - 1))%nat
  /\ (lineDistance o <= 0 -> connectParticles o ps = []).
Proof.
  split; [ | split ].
  - intros e He. apply in_connectParticles in He. destruct He as (i & j & _ & He).
    apply in_connectPair in He. destruct He as (pi & pj & _ & _ & Hd & ->).
    unfold edge_of. cbn [e_alpha e_lineWidth].
    pose proof (distance_nonneg pi pj) as H0.
    assert (Hl : 0 < lineDistance o) by lra.
    assert (Hq : 0 <= distance pi pj / lineDistance o < 1).
    { split.
      - apply Rmult_le_pos; [exact H0 | left; apply Rinv_0_lt_compat; exact Hl].
      - apply Rmult_lt_reg_r with (lineDistance o); [exact Hl|].
        unfold Rdiv. rewrite Rmult_assoc, Rinv_l by lra. lra. }
    split; [lra | split].
    + apply or_num_nonzero. lra.
    + intros [-> | ->]; cbn [or_num]; [reflexivity|].
      destruct (Req_dec_T 0 0); [reflexivity | contradiction].
  - unfold connectParticles.
    pose proof (outer_loop_length o ps (List.length ps) (List.length ps) (le_n _)) as H.
    rewrite Nat.sub_diag in H. exact H.
  - intros Hl. destruct (connectParticles o ps) as [|e rest] eqn:E; [reflexivity|].
    assert (He : In e (connectParticles o ps)) by (rewrite E; left; reflexivity).
    apply in_connectParticles in He. destruct He as (i & j & _ & He).
    apply in_connectPair in He. destruct He as (pi & pj & _ & _ & Hd & _).
    pose proof (distance_nonneg pi pj). lra.
Qed.

(** ** How far a particle moves in a tick *)

Lemma Rabs_le_between (a b : R) : Rabs a <= b -> - b <= a <= b.
Proof.
  unfold Rabs. destruct (Rcase_abs a); lra.
Qed.

(** The pointer leaves the position alone and pushes each velocity
    component by at most 0.5. *)
Lemma mouseInteract_push (m : Mouse.t) (o : Options) (p : Particle.t) :
  Particle.x (Particle.mouseInteract m o p) = Particle.x p
  /\ Particle.y (Particle.mouseInteract m o p) = Particle.y p
  /\ Rabs (Particle.vx (Particle.mouseInteract m o p) - Particle.vx p) <= 0.5
  /\ Rabs (Particle.vy (Particle.mouseInteract m o p) - Particle.vy p) <= 0.5.
Proof.
  assert (Hz : Rabs 0 <= 0.5) by (rewrite Rabs_R0; lra).
  unfold Particle.mouseInteract.
  destruct (Mouse.x m) as [mx|];
    [ | rewrite !Rminus_diag; auto].
  destruct (mouseInteraction o); [ | rewrite !Rminus_diag; auto].
  match goal with |- context [Rltb ?d ?r] => destruct (Rltb d r) eqn:Hd end;
    cbn [Particle.x Particle.y Particle.vx Particle.vy];
    [ | rewrite !Rminus_diag; auto].
  apply Rltb_true in Hd.
  match type of Hd with ?d < ?r =>
    pose proof (force_range d r (sqrt_pos _) Hd) as Hf;
    set (force := (r - d) / r) in *
  end.
  match goal with |- context [cos ?a] =>
    pose proof (COS_bound a) as Hc; pose proof (SIN_bound a) as Hs;
    set (cs := cos a) in *; set (sn := sin a) in *
  end.
  repeat split; try reflexivity; apply Rabs_le; split; nra.
Qed.

(** X7.  A particle that is inside the canvas with velocity components
    within [2 * speed] moves by at most [2 * speed + 0.5] along each axis in
    one [update()], whatever the pointer and the random numbers. *)
Theorem step_is_short (m : Mouse.t) (o : Options) (c : Canvas) (p : Particle.t)
        (rand : nat -> R) (k : nat) :
  0 <= Particle.x p <= width c -> 0 <= Particle.y p <= height c ->
  Rabs (Particle.vx p) <= 2 * speed o -> Rabs (Particle.vy p) <= 2 * speed o ->
  Rabs (Particle.x (fst (Particle.update m o c p rand k)) - Particle.x p)
  <= 2 * speed o + 0.5
  /\ Rabs (Particle.y (fst (Particle.update m o c p rand k)) - Particle.y p)
     <= 2 * speed o + 0.5.
Proof.
  intros Hx Hy Hvx Hvy. rewrite update_eq. cbn [fst].
  destruct (mouseInteract_push m o p) as (Hqx & Hqy & Hpx & Hpy).
  unfold Particle.updateWith, Particle.boundary, Particle.bounceY, Particle.bounceX,
    Particle.clampVelocity, Particle.addJitter, Particle.applyVelocity.
  cbn [Particle.x Particle.y Particle.vx Particle.vy].
  rewrite Hqx, Hqy.
  set (qx := Particle.vx (Particle.mouseInteract m o p)) in *.
  set (qy := Particle.vy (Particle.mouseInteract m o p)) in *.
  apply Rabs_le_between in Hvx. apply Rabs_le_between in Hvy.
  apply Rabs_le_between in Hpx. apply Rabs_le_between in Hpy.
  destruct (Rltb (Particle.x p + qx) 0 || Rltb (width c) (Particle.x p + qx)) eqn:Ex;
    cbn [Particle.x Particle.y Particle.vx Particle.vy];
    destruct (Rltb (Particle.y p + qy) 0 || Rltb (height c) (Particle.y p + qy)) eqn:Ey;
    cbn [Particle.x Particle.y Particle.vx Particle.vy];
    split; apply Rabs_le; unfold Rmax, Rmin;
    repeat match goal with
           | |- context [Rle_dec ?a ?b] =>
             lazymatch b with
             | context [Rle_dec] => fail
             | _ => destruct (Rle_dec a b)
             end
           end; lra.
Qed.

(** ** One animation loop *)

(** X8.  In every world a page can be in, at most one frame callback is
    pending: one, whose handle is [animationId] and is not zero, exactly when
    the system is running, however often [start()] was called. *)
Theorem one_frame_pending (rand : nat -> R) (wd : World) :
  reachable rand wd ->
  (List.length (frames (host wd)) <= 1)%nat
  /\ (isRunning (sys wd) = true <-> frames (host wd) <> [])
  /\ (forall id, In id (frames (host wd)) -> animationId (sys wd) = Some id /\ id <> 0%nat)
  /\ (isRunning (sys wd) = false -> animationId (sys wd) = None).
Proof.
  intros Hr. pose proof (reachable_scheduled rand wd Hr) as H. unfold scheduled in H.
  destruct (isRunning (sys wd)).
  - destruct H as (id & Hid & Ha & Hf). rewrite Hf, Ha.
    split; [cbn; lia | split; [ | split ] ].
    + split; [discriminate | reflexivity].
    + intros id' [<- | []]. auto.
    + discriminate.
  - destruct H as (Ha & Hf). rewrite Hf, Ha.
    split; [cbn; lia | split; [ | split ] ].
    + split; [discriminate | intros Hne; now contradiction Hne].
    + intros id' [].
    + reflexivity.
Qed.

(** ** The pointer state and the options along a run *)

Section Pointer.

Variable rand : nat -> R.

Lemma dispatch_mouse (wd : World) (e : Event) :
  mouse (sys (dispatch rand wd e))
  = match e with
    | MouseMove mx my =>
      if mouseBound (host wd)
      then Mouse.mk (Some mx) (Some my) (Mouse.radius (mouse (sys wd)))
      else mouse (sys wd)
    | MouseLeave =>
      if mouseBound (host wd)
      then Mouse.mk None None (Mouse.radius (mouse (sys wd)))
      else mouse (sys wd)
    | _ => mouse (sys wd)
    end.
Proof.
  destruct e as [rw rh | mx my | | h | entries | ]; cbn [dispatch].
  - reflexivity.
  - destruct (mouseBound (host wd)); reflexivity.
  - destruct (mouseBound (host wd)); reflexivity.
  - destruct h; [rewrite stop_mouse | rewrite start_mouse]; reflexivity.
  - apply (intersection_keeps rand (fun w => mouse (sys w)));
      [apply start_mouse | apply stop_mouse | reflexivity].
  - rewrite (frame_keeps rand (fun w => mouse (sys w))); [reflexivity|].
    intros w. apply animate_mouse.
Qed.

Lemma dispatch_pointer_ok (wd : World) (e : Event) :
  pointer_ok wd -> pointer_ok (dispatch rand wd e).
Proof.
  unfold pointer_ok. intros (Hb & Hxy & Hoff).
  rewrite dispatch_mouseBound, dispatch_options, dispatch_mouse.
  split; [exact Hb|].
  destruct e as [rw rh | mx my | | h | entries | ]; try (split; assumption);
    destruct (mouseBound (host wd)) eqn:E; try (split; assumption);
    cbn [Mouse.x Mouse.y]; split; try tauto; try discriminate;
    split; discriminate.
Qed.

Lemma run_pointer_ok (trace : list Event) (wd : World) :
  pointer_ok wd -> pointer_ok (run rand wd trace).
Proof.
  revert wd. induction trace as [|e rest IH]; intros wd H; [exact H|].
  cbn [run fold_left]. apply IH, dispatch_pointer_ok, H.
Qed.

Lemma construct_pointer_ok (el : Canvas) (rw rh : R) (raw : RawOptions) (h : Host) :
  pointer_ok (construct rand el rw rh raw h).
Proof.
  unfold pointer_ok, construct, init.
  rewrite start_mouseBound, start_options, start_mouse. cbn. tauto.
Qed.

Lemma run_options (trace : list Event) (wd : World) :
  options (sys (run rand wd trace)) = options (sys wd).
Proof.
  revert wd. induction trace as [|e rest IH]; intros wd; [reflexivity|].
  cbn [run fold_left]. fold (run rand (dispatch rand wd e) rest).
  rewrite IH. apply dispatch_options.
Qed.

End Pointer.

(** X9.  From the constructor on and after every event: the options are the
    resolved ones, unchanged; [mouse.radius] is [mouseRadius]; the two pointer
    coordinates are both null or both numbers; and with [mouseInteraction]
    disabled they are null, whatever mouse events arrive. *)
Theorem pointer_state_along_a_run (rand : nat -> R) (el : Canvas) (rw rh : R)
        (raw : RawOptions) (h : Host) (trace : list Event) :
  let wd := run rand (construct rand el rw rh raw h) trace in
  options (sys wd) = resolveOptions raw
  /\ Mouse.radius (mouse (sys wd)) = mouseRadius (resolveOptions raw)
  /\ (Mouse.x (mouse (sys wd)) = None <-> Mouse.y (mouse (sys wd)) = None)
  /\ (mouseInteraction (resolveOptions raw) = false ->
      Mouse.x (mouse (sys wd)) = None /\ Mouse.y (mouse (sys wd)) = None).
Proof.
  intros wd.
  assert (Ho : options (sys wd) = resolveOptions raw).
  { unfold wd. rewrite run_options. apply construct_options. }
  pose proof (run_pointer_ok rand trace _ (construct_pointer_ok rand el rw rh raw h))
    as (Hb & Hxy & Hoff).
  fold wd in Hb, Hxy, Hoff.
  split; [exact Ho | split; [ | split; [exact Hxy | ] ] ].
  - rewrite <- Ho. unfold wd. apply run_mouse_radius, construct_mouse_radius.
  - intros Hdis. apply Hoff. rewrite Hb, Ho. exact Hdis.
Qed.

(** ** The [strokeStyle] of an edge: the pattern of line 150 *)

Section ColorFacts.

Import Color.

Lemma list_ascii_of_string_app (a b : string) :
  list_ascii_of_string (a ++ b) = list_ascii_of_string a ++ list_ascii_of_string b.
Proof.
  induction a as [|x a IH]; [reflexivity|]. cbn. rewrite IH. reflexivity.
Qed.

Lemma string_of_list_ascii_app (a b : list ascii) :
  string_of_list_ascii (a ++ b)
  = (string_of_list_ascii a ++ string_of_list_ascii b)%string.
Proof.
  induction a as [|x a IH]; [reflexivity|]. cbn. rewrite IH. reflexivity.
Qed.

(** [\)$] matches exactly the text [")"]. *)
Lemma closing_paren (s : list ascii) :
  matchHere [Lit ")"; EndOfInput] s = if list_eq_dec ascii_dec s [")"%char] then Some [] else None.
Proof.
  destruct s as [|x [|y s]]; cbn [matchHere].
  - destruct (list_eq_dec ascii_dec [] [")"%char]); [discriminate | reflexivity].
  - destruct (Ascii.eqb_spec x ")"%char) as [-> | Hne].
    + destruct (list_eq_dec ascii_dec [")"%char] [")"%char]); [reflexivity | contradiction].
    + destruct (list_eq_dec ascii_dec [x] [")"%char]) as [E|]; [ | reflexivity].
      injection E as ->. contradiction.
  - destruct (list_eq_dec ascii_dec (x :: y :: s) [")"%char]); [discriminate|].
    destruct (Ascii.eqb x ")"%char); reflexivity.
Qed.

(** The pattern matches at the start of [s] exactly when [s] is a non-empty
    run of digits and dots followed by [")"]; the match is then all of [s]. *)
Lemma alphaPattern_matches (s : list ascii) (rest : list ascii) :
  matchHere alphaPattern s = Some rest <->
  rest = [] /\ exists run, run <> [] /\ forallb digitOrDot run = true
                           /\ s = run ++ [")"%char].
Proof.
  change (matchHere alphaPattern s)
    with (oneOrMore digitOrDot (matchHere [Lit ")"%char; EndOfInput]) s).
  revert rest. induction s as [|x s IH]; intros rest; cbn [oneOrMore].
  - split; [discriminate|]. intros (_ & run & Hne & _ & Hs).
    destruct run; discriminate.
  - destruct (digitOrDot x) eqn:Hx.
    + destruct (oneOrMore digitOrDot (matchHere [Lit ")"%char; EndOfInput]) s) as [r|] eqn:E.
      * destruct (proj1 (IH r) eq_refl) as (-> & run & Hne & Hall & ->).
        split.
        -- intros [= <-]. split; [reflexivity|]. exists (x :: run).
           split; [discriminate | split; [cbn; rewrite Hx, Hall; reflexivity | reflexivity] ].
        -- intros (-> & _). reflexivity.
      * rewrite closing_paren.
        destruct (list_eq_dec ascii_dec s [")"%char]) as [-> | Hs].
        -- split.
           ++ intros [= <-]. split; [reflexivity|]. exists [x].
              split; [discriminate | split; [cbn; rewrite Hx; reflexivity | reflexivity] ].
           ++ intros (-> & _). reflexivity.
        -- split; [discriminate|]. intros (-> & run & Hne & Hall & Hs').
           destruct run as [|y run]; [contradiction|]. cbn in Hs'. injection Hs' as <- ->.
           destruct run as [|z run]; [contradiction Hs; reflexivity|].
           cbn [forallb] in Hall. apply andb_true_iff in Hall. destruct Hall as [_ Hall].
           assert (Hsome : @None (list ascii) = Some []).
           { apply IH. split; [reflexivity|]. exists (z :: run).
             split; [discriminate | split; [exact Hall | reflexivity] ]. }
           discriminate.
    + split; [discriminate|]. intros (-> & run & Hne & Hall & Hs).
      destruct run as [|y run]; [contradiction|]. cbn in Hs. injection Hs as <- _.
      cbn [forallb] in Hall. rewrite Hx in Hall. discriminate.
Qed.

Lemma replaceFirst_match (repl pre run : list ascii) :
  run <> [] -> forallb digitOrDot run = true ->
  (forall pre0 x, pre = pre0 ++ [x] -> digitOrDot x = false) ->
  replaceFirst alphaPattern repl (pre ++ run ++ [")"%char]) = pre ++ repl.
Proof.
  intros Hne Hall. induction pre as [|x pre IH]; intros Hlast.
  - cbn [app].
    assert (H : matchHere alphaPattern (run ++ [")"%char]) = Some []).
    { apply alphaPattern_matches. split; [reflexivity|]. exists run. auto. }
    destruct run as [|y run]; [contradiction|].
    cbn [app replaceFirst] in *. rewrite H. apply app_nil_r.
  - cbn [app replaceFirst].
    destruct (matchHere alphaPattern (x :: pre ++ run ++ [")"%char])) as [r|] eqn:E.
    + exfalso. apply alphaPattern_matches in E. destruct E as (_ & run2 & _ & Hall2 & Hs).
      change (x :: pre ++ run ++ [")"%char]) with ((x :: pre) ++ run ++ [")"%char]) in Hs.
      rewrite app_assoc in Hs. apply app_inj_tail in Hs. destruct Hs as [Hs _].
      subst run2. rewrite forallb_app in Hall2. apply andb_true_iff in Hall2.
      destruct Hall2 as [Hpre _].
      destruct (exists_last (l := x :: pre)) as (p0 & y & Hp); [discriminate|].
      rewrite Hp, forallb_app in Hpre. apply andb_true_iff in Hpre.
      destruct Hpre as [_ Hy]. cbn in Hy. rewrite (Hlast p0 y Hp) in Hy. discriminate.
    + f_equal. apply IH. intros p0 y Hp. apply (Hlast (x :: p0) y).
      rewrite Hp. reflexivity.
Qed.

Lemma replaceFirst_no_match (repl s : list ascii) :
  (forall pre x, s = pre ++ [x; ")"%char] -> digitOrDot x = false) ->
  replaceFirst alphaPattern repl s = s.
Proof.
  induction s as [|x s IH]; intros Hno.
  - reflexivity.
  - cbn [replaceFirst].
    destruct (matchHere alphaPattern (x :: s)) as [r|] eqn:E.
    + exfalso. apply alphaPattern_matches in E. destruct E as (_ & run & Hne & Hall & Hs).
      destruct (exists_last Hne) as (r0 & y & ->).
      rewrite forallb_app in Hall. apply andb_true_iff in Hall. destruct Hall as [_ Hy].
      cbn in Hy. rewrite (Hno r0 y) in Hy; [discriminate|].
      rewrite Hs, <- app_assoc. reflexivity.
    + f_equal. apply IH. intros pre y Hs. apply (Hno (x :: pre) y).
      rewrite Hs. reflexivity.
Qed.

Lemma endsIn_false (cls : ascii -> bool) (s : string) :
  endsIn cls s = false ->
  forall pre x, list_ascii_of_string s = pre ++ [x] -> cls x = false.
Proof.
  unfold endsIn. intros H pre x E. rewrite E, rev_app_distr in H. exact H.
Qed.

Lemma endsInNumber_false (s : string) :
  endsInNumber s = false ->
  forall pre x, list_ascii_of_string s = pre ++ [x; ")"%char] -> digitOrDot x = false.
Proof.
  unfold endsInNumber. intros H pre x E. rewrite E, rev_app_distr in H. exact H.
Qed.

End ColorFacts.

(** X10.  The pattern replaces the last number of the color: a color that
    is [pre], then a non-empty run of digits and dots that no digit or dot
    precedes, then [")"], becomes [pre], the text of the alpha and [")"],
    whether the run was an alpha or, as in [rgb(r, g, b)], a colour channel. *)
Theorem strokeStyle_replaces_last_number (pre run alphaText : string) :
  run <> EmptyString ->
  forallb Color.digitOrDot (list_ascii_of_string run) = true ->
  endsIn Color.digitOrDot pre = false ->
  Color.strokeStyle (pre ++ run ++ ")") alphaText = (pre ++ alphaText ++ ")")%string.
Proof.
  intros Hne Hall Hlast. unfold Color.strokeStyle.
  rewrite !list_ascii_of_string_app.
  change (list_ascii_of_string ")") with [")"%char].
  rewrite replaceFirst_match.
  - rewrite !string_of_list_ascii_app, !string_of_list_ascii_of_string. reflexivity.
  - intros H. apply Hne. rewrite <- (string_of_list_ascii_of_string run), H. reflexivity.
  - exact Hall.
  - intros p0 x Hp. apply (endsIn_false _ _ Hlast p0 x Hp).
Qed.

(** X11.  A color that does not end in a digit or dot followed by [")"] (a
    hex or a named color, say) is the [strokeStyle] as it is, whatever the
    alpha. *)
Theorem strokeStyle_keeps_other_colors (color alphaText : string) :
  endsInNumber color = false ->
  Color.strokeStyle color alphaText = color.
Proof.
  intros Hno. unfold Color.strokeStyle. rewrite replaceFirst_no_match.
  - apply string_of_list_ascii_of_string.
  - intros pre x Hs. apply (endsInNumber_false _ Hno pre x Hs).
Qed.

(** ** The timer of the resize listener *)

Section DebounceFacts.

Import ParticleSystem.
Import Debounce.

Variable rect : nat -> R * R.

Lemma debounce_run_app (s : t) (a b : list Input) :
  run rect s (a ++ b)
  = (fst (run rect s a) ++ fst (run rect (snd (run rect s a)) b),
     snd (run rect (snd (run rect s a)) b)).
Proof.
  revert s. induction a as [|i a IH]; intros s; cbn [app run].
  - cbn [fst snd app]. destruct (run rect s b); reflexivity.
  - destruct (step rect s i) as [es s'] eqn:E. rewrite IH.
    destruct (run rect s' a) as [es' s'']. cbn [fst snd].
    rewrite app_assoc. reflexivity.
Qed.

Lemma onResize_one_timer (s : t) :
  one_timer s ->
  timers (onResize s) = [(S (lastTimer s), (now s + 200)%nat)]
  /\ resizeTimeout (onResize s) = Some (S (lastTimer s))
  /\ now (onResize s) = now s.
Proof.
  intros [Hnone | (id & d & Hone & Hid & _)].
  - unfold onResize, setTimeout, clearTimeout.
    destruct (resizeTimeout s); cbn; rewrite Hnone; cbn; auto.
  - unfold onResize, setTimeout, clearTimeout. rewrite Hid. cbn. rewrite Hone. cbn.
    rewrite Nat.eqb_refl. cbn. auto.
Qed.

Lemma step_one_timer (s : t) (i : Input) :
  one_timer s -> one_timer (snd (step rect s i)).
Proof.
  intros H. destruct i as [|dt]; cbn [step snd].
  - destruct (onResize_one_timer s H) as (Ht & Hr & Hn). right.
    exists (S (lastTimer s)), (now s + 200)%nat. rewrite Hn. repeat split; auto. lia.
  - destruct H as [Hnone | (id & d & Hone & Hid & Hlt)].
    + left. cbn. rewrite Hnone. reflexivity.
    + cbn [timers]. rewrite Hone. unfold due. cbn [filter snd].
      destruct (Nat.leb d (now s + dt)) eqn:E; cbn [negb].
      * left. reflexivity.
      * right. exists id, d. cbn. apply Nat.leb_gt in E. auto.
Qed.

Lemma run_one_timer (inputs : list Input) (s : t) :
  one_timer s -> one_timer (snd (run rect s inputs)).
Proof.
  revert s. induction inputs as [|i inputs IH]; intros s H; cbn [run].
  - exact H.
  - pose proof (step_one_timer s i H) as H'.
    destruct (step rect s i) as [es s']. cbn [snd] in H'.
    specialize (IH s' H'). destruct (run rect s' inputs) as [es' s'']. exact IH.
Qed.

Lemma filter_split_length {A : Type} (f : A -> bool) (l : list A) :
  (List.length (filter f l) + List.length (filter (fun a => negb (f a)) l)
   = List.length l)%nat.
Proof.
  induction l as [|a l IH]; [reflexivity|]. cbn [filter].
  destruct (f a); cbn [negb List.length]; lia.
Qed.

Lemma run_count (inputs : list Input) (s : t) :
  one_timer s ->
  (List.length (fst (run rect s inputs)) + List.length (timers (snd (run rect s inputs)))
   <= List.length (timers s) + List.length (filter isResize inputs))%nat.
Proof.
  revert s. induction inputs as [|i inputs IH]; intros s H; cbn [run].
  - cbn. lia.
  - pose proof (step_one_timer s i H) as H'.
    assert (Hstep : (List.length (fst (step rect s i))
                     + List.length (timers (snd (step rect s i)))
                     <= List.length (timers s)
                        + (if isResize i then 1 else 0))%nat).
    { destruct i as [|dt]; cbn [step fst snd isResize].
      - destruct (onResize_one_timer s H) as (Ht & _). rewrite Ht. cbn. lia.
      - cbn [timers]. rewrite length_map.
        pose proof (filter_split_length (due (now s + dt)) (timers s)). lia. }
    destruct (step rect s i) as [es s']. cbn [fst snd] in *.
    specialize (IH s' H'). destruct (run rect s' inputs) as [es' s''].
    cbn [fst snd] in *. rewrite length_app.
    cbn [filter]. destruct (isResize i); cbn [List.length]; lia.
Qed.

Lemma initial_one_timer (time : nat) : one_timer (initial time).
Proof. left. reflexivity. Qed.

(** After a resize event, gaps shorter than the delay, each ended by another
    resize event, run no callback, and the last event's timer is the one
    pending. *)
Lemma gaps_postpone (gaps : list nat) (s : t) (id : nat) :
  timers s = [(id, (now s + 200)%nat)] -> resizeTimeout s = Some id ->
  Forall (fun g => (g < 200)%nat) gaps ->
  let r := run rect s (flat_map (fun g => [Elapse g; ResizeEvent]) gaps) in
  fst r = []
  /\ now (snd r) = (now s + list_sum gaps)%nat
  /\ exists id', timers (snd r) = [(id', (now (snd r) + 200)%nat)]
                 /\ resizeTimeout (snd r) = Some id'.
Proof.
  revert s id. induction gaps as [|g gaps IH]; intros s id Ht Hr Hg; cbn zeta.
  - cbn. split; [reflexivity|]. split; [lia|]. exists id. auto.
  - inversion Hg as [|? ? Hlt Hrest]; subst.
    cbn [flat_map app run step]. rewrite Ht. unfold due. cbn [filter snd].
    assert (E : Nat.leb (now s + 200) (now s + g) = false) by (apply Nat.leb_gt; lia).
    rewrite E. cbn [negb map app].
    set (s1 := mk (now s + g) [(id, (now s + 200)%nat)] (lastTimer s) (resizeTimeout s)).
    assert (H1 : one_timer s1).
    { right. exists id, (now s + 200)%nat. cbn. repeat split; auto. lia. }
    destruct (onResize_one_timer s1 H1) as (Ht2 & Hr2 & Hn2).
    assert (Ht2' : timers (onResize s1)
                   = [(S (lastTimer s1), (now (onResize s1) + 200)%nat)])
      by (rewrite Hn2; exact Ht2).
    specialize (IH (onResize s1) _ Ht2' Hr2 Hrest). cbn zeta in IH.
    destruct (run rect (onResize s1) (flat_map (fun g0 => [Elapse g0; ResizeEvent]) gaps))
      as [es s2]. cbn [fst snd] in *.
    destruct IH as (-> & Hn & Hid). split; [reflexivity|].
    split; [ | exact Hid].
    rewrite Hn, Hn2. change (list_sum (g :: gaps)) with (g + list_sum gaps)%nat.
    subst s1. cbn [now]. lia.
Qed.

End DebounceFacts.

(** X12.  The timers of the resize listener never stack: after any resize
    events and waits at most one timer is pending, it is the one
    [resizeTimeout] names and it is not due yet; and the callback has run at
    most as often as resize events have arrived. *)
Theorem resize_timers_never_stack (rect : nat -> R * R) (time : nat)
        (inputs : list Debounce.Input) :
  let r := Debounce.run rect (Debounce.initial time) inputs in
  (List.length (Debounce.timers (snd r)) <= 1)%nat
  /\ (forall id due, In (id, due) (Debounce.timers (snd r)) ->
        Debounce.resizeTimeout (snd r) = Some id /\ (Debounce.now (snd r) < due)%nat)
  /\ (List.length (fst r) + List.length (Debounce.timers (snd r))
      <= List.length (filter Debounce.isResize inputs))%nat
  /\ (forall e, In e (fst r) -> exists rw rh, e = ParticleSystem.Resized rw rh).
Proof.
  cbn zeta.
  pose proof (run_one_timer rect inputs _ (initial_one_timer time)) as H.
  pose proof (run_count rect inputs _ (initial_one_timer time)) as Hc.
  cbn [Debounce.initial Debounce.timers List.length] in Hc.
  split; [|split; [|split] ].
  - destruct H as [-> | (id & d & -> & _)]; cbn; lia.
  - intros id d Hin. destruct H as [H | (id' & d' & H & Hid & Hlt)];
      rewrite H in Hin; [contradiction|].
    destruct Hin as [ [= <- <-] | [] ]. auto.
  - cbn in Hc. exact Hc.
  - clear H Hc. generalize (Debounce.initial time) as s.
    induction inputs as [|i inputs IH]; intros s e; cbn [Debounce.run].
    + intros [].
    + destruct (Debounce.step rect s i) as [es s'] eqn:E.
      specialize (IH s'). destruct (Debounce.run rect s' inputs) as [es' s''].
      cbn [fst] in *. intros Hin. apply in_app_or in Hin. destruct Hin as [Hin | Hin].
      * destruct i as [|dt]; cbn [Debounce.step] in E; injection E as <- _.
        -- destruct Hin.
        -- apply in_map_iff in Hin. destruct Hin as (_ & <- & _).
           unfold Debounce.callback. eauto.
      * apply IH. exact Hin.
Qed.

(** X13.  A burst of resize events less than 200 ms apart reseeds once: after
    any history, resize events that follow each other at gaps below 200 ms run
    no callback; a wait of at least 200 ms after the last one runs the
    callback exactly once, with the size measured then, and leaves no timer
    pending; a shorter wait runs nothing. *)
Theorem resize_burst_reseeds_once (rect : nat -> R * R) (time : nat)
        (history : list Debounce.Input) (gaps : list nat) (d : nat) :
  Forall (fun g => (g < 200)%nat) gaps ->
  let s := snd (Debounce.run rect (Debounce.initial time) history) in
  let r := Debounce.run rect s (Debounce.burst gaps ++ [Debounce.Elapse d]) in
  let finish := (Debounce.now s + list_sum gaps + d)%nat in
  Debounce.now (snd r) = finish
  /\ ((200 <= d)%nat ->
      fst r = [ParticleSystem.Resized (fst (rect finish)) (snd (rect finish))]
      /\ Debounce.timers (snd r) = [])
  /\ ((d < 200)%nat ->
      fst r = [] /\ List.length (Debounce.timers (snd r)) = 1%nat).
Proof.
  intros Hg. cbn zeta.
  pose proof (run_one_timer rect history _ (initial_one_timer time)) as H.
  set (s := snd (Debounce.run rect (Debounce.initial time) history)) in *.
  unfold Debounce.burst. cbn [app Debounce.run Debounce.step].
  destruct (onResize_one_timer s H) as (Ht & Hr & Hn).
  assert (Ht' : Debounce.timers (Debounce.onResize s)
                = [(S (Debounce.lastTimer s), (Debounce.now (Debounce.onResize s) + 200)%nat)])
    by (rewrite Hn; exact Ht).
  pose proof (gaps_postpone rect gaps _ _ Ht' Hr Hg) as G. cbn zeta in G.
  rewrite debounce_run_app.
  destruct (Debounce.run rect (Debounce.onResize s)
              (flat_map (fun g => [Debounce.Elapse g; Debounce.ResizeEvent]) gaps))
    as [es s2]. cbn [fst snd] in *.
  destruct G as (-> & Hn2 & id' & Ht2 & Hr2). rewrite Hn in Hn2.
  cbn [Debounce.run Debounce.step fst snd app Debounce.now]. rewrite Ht2, Hn2.
  unfold Debounce.due. cbn [filter snd].
  split; [reflexivity|]. split.
  - intros Hd.
    assert (E : Nat.leb (Debounce.now s + list_sum gaps + 200)
                        (Debounce.now s + list_sum gaps + d) = true)
      by (apply Nat.leb_le; lia).
    rewrite E. cbn. split; reflexivity.
  - intros Hd.
    assert (E : Nat.leb (Debounce.now s + list_sum gaps + 200)
                        (Debounce.now s + list_sum gaps + d) = false)
      by (apply Nat.leb_gt; lia).
    rewrite E. cbn. split; reflexivity.
Qed.

(** ** The pointer on the particle, and a pointer without reach *)

Lemma atan2_origin : atan2 0 0 = 0.
Proof.
  unfold atan2.
  assert (H : Rltb 0 0 = false) by (apply Rltb_false; lra).
  rewrite H. reflexivity.
Qed.

(** X14.  Two edges of the pointer force, with [mouseInteraction] enabled.
    A pointer exactly on the particle ([Math.atan2(0, 0)] is [0]) pushes it
    along the x axis only, by the full [0.5], and doubles its radius.  A
    pointer whose radius is zero or less reaches no particle: the velocity is
    left alone and the radius is set back to the original. *)
Theorem pointer_edge_cases (m : Mouse.t) (o : Options) (p : Particle.t) :
  mouseInteraction o = true ->
  (Mouse.x m = Some (Particle.x p) -> Mouse.y m = Some (Particle.y p) ->
   0 < Mouse.radius m ->
   Particle.mouseInteract m o p
   = Particle.mk (Particle.x p) (Particle.y p) (Particle.vx p + 0.5) (Particle.vy p)
                 (2 * Particle.originalRadius p) (Particle.originalRadius p))
  /\ (Mouse.x m <> None -> Mouse.radius m <= 0 ->
      Particle.mouseInteract m o p
      = Particle.mk (Particle.x p) (Particle.y p) (Particle.vx p) (Particle.vy p)
                    (Particle.originalRadius p) (Particle.originalRadius p)).
Proof.
  intros Hon. split.
  - intros Hx Hy Hr. unfold Particle.mouseInteract. rewrite Hx, Hy, Hon.
    cbn [Mouse.num]. rewrite !Rminus_diag, Rmult_0_l, Rplus_0_l, sqrt_0.
    assert (H : Rltb 0 (Mouse.radius m) = true) by (apply Rltb_true; exact Hr).
    rewrite H, atan2_origin, cos_0, sin_0.
    f_equal; field; lra.
  - intros Hx Hr. unfold Particle.mouseInteract.
    destruct (Mouse.x m) as [mx|]; [ | contradiction]. rewrite Hon.
    match goal with |- context [Rltb ?d ?r] =>
      assert (H : Rltb d r = false) by (apply Rltb_false; pose proof (sqrt_pos
        ((Particle.x p - mx) * (Particle.x p - mx)
         + (Particle.y p - Mouse.num (Mouse.y m))
           * (Particle.y p - Mouse.num (Mouse.y m)))); lra)
    end.
    rewrite H. reflexivity.
Qed.

(** ** [start()] and [stop()] called twice *)

(** X15.  [start()] and [stop()] are idempotent: a second call changes
    nothing; [start()] changes nothing on a running system, and [stop()]
    nothing on a stopped one without a frame handle. *)
Theorem start_and_stop_idempotent (rand : nat -> R) (wd : World) :
  start rand (start rand wd) = start rand wd
  /\ stop (stop wd) = stop wd
  /\ (isRunning (sys wd) = true -> start rand wd = wd)
  /\ (isRunning (sys wd) = false -> animationId (sys wd) = None -> stop wd = wd).
Proof.
  split; [ | split; [ | split ] ].
  - apply start_running, start_isRunning.
  - destruct wd as [ [cv ps aid running o m] h]. unfold stop.
    cbn [sys host animationId set_isRunning canvas particles isRunning options mouse].
    destruct aid as [id|]; [ | reflexivity].
    destruct (Nat.eqb id 0) eqn:E.
    + cbn [sys host animationId set_isRunning canvas particles isRunning options mouse].
      rewrite E. reflexivity.
    + reflexivity.
  - apply start_running.
  - intros E Ha. destruct wd as [ [cv ps aid running o m] h]. cbn in *. subst.
    reflexivity.
Qed.

(** ** Option resolution *)

(** X16.  In the resolved options a key the caller gave always wins, also
    when its value is falsy ([0], the empty string, [false]): the defaults
    written with [||] only reach the keys that are absent, since [...options]
    is spread over them. *)
Theorem explicit_options_win (raw : RawOptions) :
  resolveOptions raw
  = {| particleCount := spread (raw_particleCount raw) 80%Z;
       particleColor := spread (raw_particleColor raw) "rgba(206, 66, 43, 0.6)"%string;
       lineColor := spread (raw_lineColor raw) "rgba(206, 66, 43, 0.15)"%string;
       particleRadius := spread (raw_particleRadius raw) 2;
       lineDistance := spread (raw_lineDistance raw) 150;
       speed := spread (raw_speed raw) 0.5;
       mouseInteraction := spread (raw_mouseInteraction raw) true;
       mouseRadius := spread (raw_mouseRadius raw) 200;
       showParticles := raw_showParticles raw;
       lineWidth := raw_lineWidth raw |}.
Proof.
  unfold resolveOptions.
  destruct raw as [pc pcol lcol pr ld sp mi mr shp lw].
  cbn [raw_particleCount raw_particleColor raw_lineColor raw_particleRadius
       raw_lineDistance raw_speed raw_mouseInteraction raw_mouseRadius
       raw_showParticles raw_lineWidth].
  destruct pc, pcol, lcol, pr, ld, sp, mi, mr; reflexivity.
Qed.

(** ** A stopped system is frozen *)

Section Frozen.

Variable rand : nat -> R.

Lemma dispatch_frozen (wd : World) (e : Event) :
  scheduled wd -> isRunning (sys wd) = false ->
  quiet e = true -> reseeds e = false ->
  particles (sys (dispatch rand wd e)) = particles (sys wd)
  /\ canvas (sys (dispatch rand wd e)) = canvas (sys wd)
  /\ draws (host (dispatch rand wd e)) = draws (host wd).
Proof.
  intros H E Hq Hr. destruct e as [rw rh | mx my | | h | entries | ]; cbn [dispatch].
  - discriminate.
  - destruct (mouseBound (host wd)); auto.
  - destruct (mouseBound (host wd)); auto.
  - cbn in Hq. subst h. rewrite stop_particles, stop_canvas, stop_draws. auto.
  - cbn in Hq. clear H E Hr. revert wd.
    induction entries as [|b rest IH]; intros wd; [auto|].
    cbn [forallb] in Hq. apply andb_true_iff in Hq. destruct Hq as [Hb Hrest].
    apply negb_true_iff in Hb. subst b. cbn [fold_left].
    destruct (IH Hrest (onIntersection rand wd false)) as (Hp & Hc & Hd).
    rewrite Hp, Hc, Hd. unfold onIntersection.
    rewrite stop_particles, stop_canvas, stop_draws. auto.
  - destruct (scheduled_stopped wd H E) as [_ Hf]. rewrite Hf. auto.
Qed.

Lemma run_frozen (trace : list Event) (wd : World) :
  scheduled wd -> isRunning (sys wd) = false ->
  forallb quiet trace = true -> Forall (fun e => reseeds e = false) trace ->
  particles (sys (run rand wd trace)) = particles (sys wd)
  /\ canvas (sys (run rand wd trace)) = canvas (sys wd)
  /\ draws (host (run rand wd trace)) = draws (host wd).
Proof.
  revert wd. induction trace as [|e rest IH]; intros wd H E Hq Hr; [auto|].
  cbn [forallb] in Hq. apply andb_true_iff in Hq. destruct Hq as [He Hrest].
  inversion Hr as [|? ? Hre Hrr]; subst.
  cbn [run fold_left].
  assert (E' : isRunning (sys (dispatch rand wd e)) = false).
  { rewrite (dispatch_starts rand wd e E). apply quiet_not_starts, He. }
  destruct (IH (dispatch rand wd e) (dispatch_keeps_scheduled rand wd e H) E' Hrest Hrr) as (Hp & Hc & Hd).
  unfold run in Hp, Hc, Hd. rewrite Hp, Hc, Hd.
  apply dispatch_frozen; assumption.
Qed.

End Frozen.

(** X17.  A stopped system is frozen: over events that neither call
    [start()] nor reseed (pointer events and frames included), no particle
    changes, no random number is drawn, nothing is drawn on the canvas, and
    the system stays stopped. *)
Theorem paused_system_is_frozen (rand : nat -> R) (wd : World) (trace : list Event) :
  reachable rand wd -> isRunning (sys wd) = false ->
  forallb quiet trace = true -> Forall (fun e => reseeds e = false) trace ->
  particles (sys (run rand wd trace)) = particles (sys wd)
  /\ canvas (sys (run rand wd trace)) = canvas (sys wd)
  /\ draws (host (run rand wd trace)) = draws (host wd)
  /\ output (host (run rand wd trace)) = output (host wd)
  /\ isRunning (sys (run rand wd trace)) = false.
Proof.
  intros Hreach E Hq Hr.
  pose proof (reachable_scheduled rand wd Hreach) as H.
  destruct (run_frozen rand trace wd H E Hq Hr) as (Hp & Hc & Hd).
  destruct (run_quiet rand trace wd H E Hq) as (Hrun & Ho).
  auto.
Qed.

(** ** A [speed] of zero *)

Lemma clamp_zero (v : R) : Rmax (- (0 * 2)) (Rmin (0 * 2) v) = 0.
Proof.
  unfold Rmax, Rmin.
  destruct (Rle_dec (0 * 2) v); destruct (Rle_dec _ _); lra.
Qed.

Lemma boundary_at_rest (c : Canvas) (p : Particle.t) :
  Particle.vx p = 0 -> Particle.vy p = 0 ->
  Particle.vx (Particle.boundary c p) = 0 /\ Particle.vy (Particle.boundary c p) = 0.
Proof.
  intros Hx Hy. unfold Particle.boundary, Particle.bounceY, Particle.bounceX.
  destruct (Rltb (Particle.x p) 0 || Rltb (width c) (Particle.x p));
    cbn [Particle.x Particle.y Particle.vx Particle.vy];
    match goal with |- context [if ?b then _ else _] => destruct b end;
    cbn [Particle.x Particle.y Particle.vx Particle.vy]; split; lra.
Qed.

Lemma boundary_inside (c : Canvas) (p : Particle.t) :
  0 <= Particle.x p <= width c -> 0 <= Particle.y p <= height c ->
  Particle.boundary c p = p.
Proof.
  intros Hx Hy. unfold Particle.boundary, Particle.bounceY, Particle.bounceX.
  assert (H1 : Rltb (Particle.x p) 0 = false) by (apply Rltb_false; lra).
  assert (H2 : Rltb (width c) (Particle.x p) = false) by (apply Rltb_false; lra).
  assert (H3 : Rltb (Particle.y p) 0 = false) by (apply Rltb_false; lra).
  assert (H4 : Rltb (height c) (Particle.y p) = false) by (apply Rltb_false; lra).
  rewrite H1, H2. cbn [orb]. rewrite H3, H4. reflexivity.
Qed.

(** X18.  With a [speed] of zero the clamp leaves no velocity: after every
    [update()] both velocity components are zero, and a particle at rest
    inside the canvas that no pointer pushes stays where it is. *)
Theorem zero_speed_freezes (m : Mouse.t) (o : Options) (c : Canvas) (p : Particle.t)
        (rand : nat -> R) (k : nat) :
  speed o = 0 ->
  Particle.vx (fst (Particle.update m o c p rand k)) = 0
  /\ Particle.vy (fst (Particle.update m o c p rand k)) = 0
  /\ (Mouse.x m = None \/ mouseInteraction o = false ->
      Particle.vx p = 0 -> Particle.vy p = 0 ->
      0 <= Particle.x p <= width c -> 0 <= Particle.y p <= height c ->
      Particle.x (fst (Particle.update m o c p rand k)) = Particle.x p
      /\ Particle.y (fst (Particle.update m o c p rand k)) = Particle.y p).
Proof.
  intros Hs. rewrite update_eq. cbn [fst]. unfold Particle.updateWith.
  set (q := Particle.addJitter (rand k) (rand (S k))
              (Particle.applyVelocity (Particle.mouseInteract m o p))).
  assert (Hc : Particle.vx (Particle.clampVelocity o q) = 0
               /\ Particle.vy (Particle.clampVelocity o q) = 0).
  { unfold Particle.clampVelocity. cbn [Particle.vx Particle.vy]. rewrite Hs.
    split; apply clamp_zero. }
  destruct Hc as [Hcx Hcy].
  destruct (boundary_at_rest c _ Hcx Hcy) as [Hbx Hby].
  split; [exact Hbx | split; [exact Hby | ] ].
  intros Hm Hvx Hvy Hx Hy.
  assert (Hp : Particle.mouseInteract m o p = p).
  { unfold Particle.mouseInteract. destruct Hm as [-> | ->]; [reflexivity|].
    destruct (Mouse.x m); reflexivity. }
  assert (Hqx : Particle.x (Particle.clampVelocity o q) = Particle.x p).
  { unfold q. rewrite Hp. cbn. lra. }
  assert (Hqy : Particle.y (Particle.clampVelocity o q) = Particle.y p).
  { unfold q. rewrite Hp. cbn. lra. }
  rewrite boundary_inside; [ | rewrite Hqx; exact Hx | rewrite Hqy; exact Hy].
  split; assumption.
Qed.

(** ** The further properties at concrete inputs *)

Lemma half_unit_interval : unit_interval half.
Proof. intros k. unfold half. lra. Qed.

Lemma hero_out_of_view_stopped : isRunning (sys hero_out_of_view) = false.
Proof.
  unfold hero_out_of_view. cbn [run fold_left dispatch]. apply stop_isRunning.
Qed.

Lemma seeded_collection_witness :
  draws (host (createParticles half unseeded))
  = (draws (host unseeded)
     + 5 * List.length (particles (sys (createParticles half unseeded))))%nat.
Proof.
  apply (seeded_collection half unseeded half_unit_interval); cbn; lra.
Defined.

Lemma particles_always_in_bounds_witness :
  Forall (fun p =>
            0 <= Particle.x p
            <= width (canvas (sys (run half (construct half surface 300 150 heroOptions
                                                       (page 0 0 false true))
                                       pointer_and_reseed)))
            /\ 0 <= Particle.y p
               <= height (canvas (sys (run half (construct half surface 300 150 heroOptions
                                                           (page 0 0 false true))
                                           pointer_and_reseed)))
            /\ Rabs (Particle.vx p)
               <= 2 * speed (options (sys (run half (construct half surface 300 150
                                                               heroOptions
                                                               (page 0 0 false true))
                                               pointer_and_reseed)))
            /\ Rabs (Particle.vy p)
               <= 2 * speed (options (sys (run half (construct half surface 300 150
                                                               heroOptions
                                                               (page 0 0 false true))
                                               pointer_and_reseed))))
         (particles (sys (run half (construct half surface 300 150 heroOptions
                                              (page 0 0 false true))
                              pointer_and_reseed))).
Proof.
  apply (particles_always_in_bounds half surface 300 150 heroOptions
           (page 0 0 false true) pointer_and_reseed half_unit_interval).
  - cbn. lra.
  - unfold nonneg_size. lra.
  - unfold pointer_and_reseed, nonneg_size.
    repeat constructor; cbn; lra.
Defined.

Lemma radius_always_bounded_witness :
  Forall (fun p =>
            1 <= Particle.originalRadius p
            <= particleRadius
                 (options (sys (run half (construct half surface 300 150 heroOptions
                                                    (page 0 0 false true))
                                    pointer_and_reseed))) + 1
            /\ Particle.originalRadius p <= Particle.radius p
               <= 2 * Particle.originalRadius p)
         (particles (sys (run half (construct half surface 300 150 heroOptions
                                              (page 0 0 false true))
                              pointer_and_reseed))).
Proof.
  apply (radius_always_bounded half surface 300 150 heroOptions
           (page 0 0 false true) pointer_and_reseed half_unit_interval).
  cbn. lra.
Defined.

Lemma radius_is_original_when_disabled_witness :
  Forall (fun p => Particle.radius p = Particle.originalRadius p)
         (particles (sys (run half (construct half surface 300 150 ctaOptions
                                              (page 0 0 false true))
                              pointer_and_reseed))).
Proof.
  apply (radius_is_original_when_disabled half surface 300 150 ctaOptions
           (page 0 0 false true) pointer_and_reseed).
  reflexivity.
Defined.

Lemma tick_drawing_witness :
  output (host (animate half running_collinear))
  = output (host running_collinear)
    ++ ClearRect (width (canvas (sys running_collinear)))
                 (height (canvas (sys running_collinear)))
    :: (if not_false (showParticles (options (sys running_collinear)))
        then map (disc (options (sys running_collinear)))
                 (particles (sys (animate half running_collinear)))
        else [])
    ++ map stroke (connectParticles (options (sys running_collinear))
                                    (particles (sys (animate half running_collinear)))).
Proof.
  apply (tick_drawing half running_collinear). reflexivity.
Defined.

Lemma step_is_short_witness :
  Rabs (Particle.x (fst (Particle.update (Mouse.mk (Some 0) (Some 0) 250)
                                         (resolveOptions heroOptions) surface
                                         (at_rest 100 0) half 0%nat))
        - Particle.x (at_rest 100 0))
  <= 2 * speed (resolveOptions heroOptions) + 0.5
  /\ Rabs (Particle.y (fst (Particle.update (Mouse.mk (Some 0) (Some 0) 250)
                                            (resolveOptions heroOptions) surface
                                            (at_rest 100 0) half 0%nat))
           - Particle.y (at_rest 100 0))
     <= 2 * speed (resolveOptions heroOptions) + 0.5.
Proof.
  apply (step_is_short (Mouse.mk (Some 0) (Some 0) 250) (resolveOptions heroOptions)
           surface (at_rest 100 0) half 0%nat);
    cbn; try rewrite Rabs_R0; lra.
Defined.

Lemma one_frame_pending_witness :
  (List.length (frames (host hero_out_of_view)) <= 1)%nat
  /\ (isRunning (sys hero_out_of_view) = true <-> frames (host hero_out_of_view) <> [])
  /\ (forall id, In id (frames (host hero_out_of_view)) ->
                 animationId (sys hero_out_of_view) = Some id /\ id <> 0%nat)
  /\ (isRunning (sys hero_out_of_view) = false ->
      animationId (sys hero_out_of_view) = None).
Proof.
  apply (one_frame_pending half hero_out_of_view). apply hero_out_of_view_reachable.
Defined.

Lemma strokeStyle_replaces_last_number_witness :
  Color.strokeStyle "rgba(206, 66, 43, 0.15)" "0.32" = "rgba(206, 66, 43, 0.32)"%string
  /\ Color.strokeStyle "rgb(206, 66, 43)" "0.32" = "rgb(206, 66, 0.32)"%string.
Proof.
  split.
  - apply (strokeStyle_replaces_last_number "rgba(206, 66, 43, " "0.15" "0.32");
      [discriminate | reflexivity | reflexivity].
  - apply (strokeStyle_replaces_last_number "rgb(206, 66, " "43" "0.32");
      [discriminate | reflexivity | reflexivity].
Defined.

Lemma strokeStyle_keeps_other_colors_witness :
  Color.strokeStyle "#ce422b" "0.32" = "#ce422b"%string.
Proof.
  apply (strokeStyle_keeps_other_colors "#ce422b" "0.32"). reflexivity.
Defined.

Lemma resize_burst_reseeds_once_witness :
  fst (Debounce.run steady
         (snd (Debounce.run steady (Debounce.initial 0)
                            [Debounce.ResizeEvent; Debounce.Elapse 500]))
         (Debounce.burst [50; 120; 199]%nat ++ [Debounce.Elapse 200]))
  = [Resized 300 150].
Proof.
  assert (H : Forall (fun g => (g < 200)%nat) [50; 120; 199]%nat)
    by (repeat constructor; lia).
  destruct (resize_burst_reseeds_once steady 0
              [Debounce.ResizeEvent; Debounce.Elapse 500] [50; 120; 199]%nat 200 H)
    as (_ & Hlong & _).
  destruct (Hlong (le_n 200)) as [Hfired _]. exact Hfired.
Defined.

Lemma pointer_edge_cases_witness :
  Particle.mouseInteract (Mouse.mk (Some 100) (Some 0) 250) (resolveOptions heroOptions)
                         (at_rest 100 0)
  = Particle.mk 100 0 (0 + 0.5) 0 (2 * 1) 1.
Proof.
  destruct (pointer_edge_cases (Mouse.mk (Some 100) (Some 0) 250)
                               (resolveOptions heroOptions) (at_rest 100 0) eq_refl)
    as [Hon _].
  apply Hon; [reflexivity | reflexivity | cbn; lra].
Defined.

Lemma paused_system_is_frozen_witness :
  particles (sys (run half hero_out_of_view while_paused))
  = particles (sys hero_out_of_view)
  /\ output (host (run half hero_out_of_view while_paused))
     = output (host hero_out_of_view).
Proof.
  destruct (paused_system_is_frozen half hero_out_of_view while_paused
              hero_out_of_view_reachable hero_out_of_view_stopped)
    as (Hp & _ & _ & Ho & _).
  - reflexivity.
  - unfold while_paused. repeat constructor.
  - split; [exact Hp | exact Ho].
Defined.

Lemma zero_speed_freezes_witness :
  Particle.vx (fst (Particle.update (Mouse.mk None None 200) (resolveOptions stillOptions)
                                    surface (at_rest 10 20) half 0%nat)) = 0
  /\ Particle.x (fst (Particle.update (Mouse.mk None None 200)
                                      (resolveOptions stillOptions)
                                      surface (at_rest 10 20) half 0%nat))
     = Particle.x (at_rest 10 20).
Proof.
  destruct (zero_speed_freezes (Mouse.mk None None 200) (resolveOptions stillOptions)
                               surface (at_rest 10 20) half 0%nat eq_refl)
    as (Hvx & _ & Hstay).
  split; [exact Hvx|].
  apply Hstay; [left; reflexivity | reflexivity | reflexivity | cbn; lra | cbn; lra].
Defined.
